(** * tike: a shallow embedding of the ptychography core

    The development follows the layout of the Python sources:

    - [Objective]    : [tike/operators/cupy/objective.py]
    - [Propagation]  : the cost functions of [tike/operators/propagation.py]
    - [Patch]        : [tike/operators/cupy/patch.py]
    - [Probe]        : [tike/ptycho/probe.py]
    - [Divided]      : [tike/ptycho/solvers/divided.py]
    - [Eig]          : [orthogonalize_eig] of [tike/ptycho/probe.py]

    Floating-point arrays are modelled over the real numbers: a value of
    the model is the exact value the floating-point code approximates.
    NaN and infinities are outside the real line; wherever the code can
    produce them the model says so explicitly (an [option], a raised
    exception or a recorded flag). *)

From mathcomp Require boot order algebra.
From mathcomp Require algC.
From Stdlib Require Import Reals Lra Lia ZArith Bool String List Permutation.
Import ListNotations.

(** ** Python exceptions *)

Module Py.

Inductive exn : Type :=
| AttributeError
| IndexError
| AssertionError
| ZeroDivisionError
| ValueError (msg : string)
| KernelError.

Inductive result (A : Type) : Type :=
| Ok (a : A)
| Raise (e : exn).

Arguments Ok {A} a.
Arguments Raise {A} e.

Definition bind {A B : Type} (c : result A) (k : A -> result B) : result B :=
  match c with
  | Ok a => k a
  | Raise e => Raise e
  end.

(** [assert b] *)
Definition assert_ (b : bool) : result unit :=
  if b then Ok tt else Raise AssertionError.

(** A list comprehension whose body may raise: the first exception, in
    list order, leaves the comprehension. *)
Fixpoint mapM {A B : Type} (f : A -> result B) (l : list A) : result (list B) :=
  match l with
  | [] => Ok []
  | a :: l' =>
      bind (f a) (fun b => bind (mapM f l') (fun bs => Ok (b :: bs)))
  end.

End Py.

Notation "x <- c ;; k" := (Py.bind c (fun x => k))
  (at level 61, c at next level, right associativity).
Notation "c ;;; k" := (Py.bind c (fun _ => k))
  (at level 61, right associativity).

(** ** Arrays as flat lists, and complex numbers *)

Module Arr.

Open Scope R_scope.

(** Element-wise binary operation on two arrays of one shape. *)
Fixpoint zip_with {A B C : Type} (f : A -> B -> C) (a : list A) (b : list B)
  : list C :=
  match a, b with
  | x :: a', y :: b' => f x y :: zip_with f a' b'
  | _, _ => []
  end.

(** [np.sum] *)
Definition sum (l : list R) : R := fold_right Rplus 0 l.

(** [np.mean] over a whole array; NumPy answers NaN on an empty array,
    which is [None] here. *)
Definition mean (l : list R) : option R :=
  match l with
  | [] => None
  | _ :: _ => Some (sum l / INR (length l))
  end.

(** [np.concatenate([x] * k)]: a batch made of [k] copies of [x]. *)
Fixpoint tile {A : Type} (k : nat) (l : list A) : list A :=
  match k with
  | O => []
  | S k' => l ++ tile k' l
  end.

(** complex64 values, as pairs (real part, imaginary part) *)
Definition C : Type := (R * R)%type.

Definition C0 : C := (0, 0).
Definition C1 : C := (1, 0).
Definition Cre (z : C) : R := fst z.
Definition Cim (z : C) : R := snd z.
Definition Cadd (z w : C) : C := (fst z + fst w, snd z + snd w).
Definition Csub (z w : C) : C := (fst z - fst w, snd z - snd w).
Definition Cmul (z w : C) : C :=
  (fst z * fst w - snd z * snd w, fst z * snd w + snd z * fst w).
Definition Cconj (z : C) : C := (fst z, - snd z).
Definition Cscale (a : R) (z : C) : C := (a * fst z, a * snd z).
(** [np.abs] of a complex number *)
Definition Cabs (z : C) : R := sqrt (fst z * fst z + snd z * snd z).

End Arr.

(** ** objective.py *)

Module Objective.

Import Arr.
Open Scope R_scope.

(** the constant [1e-9] *)
Definition eps : R := / 10 ^ 9.

(** [_gaussian_fuse], the fused element-wise kernel; on a real array
    [cp.conj] is the identity.  The arrays hold measured and modelled
    intensities, which are not negative; on a negative entry [cp.sqrt]
    answers NaN, which the real square root does not model: the model
    is meant for arrays without negative entries. *)
Definition _gaussian_fuse (data intensity : R) : R :=
  let diff := sqrt intensity - sqrt data in
  diff * diff.

(** [gaussian(data, intensity)].  [data] and [intensity] are the flattened
    (N, M, M) arrays, of one shape. *)
Definition gaussian (data intensity : list R) : option R :=
  mean (zip_with _gaussian_fuse data intensity).

(** [_poisson_fuse], over the real numbers: differences of the size of
    the constant 1e-9 and below are not resolved by the floating-point
    arithmetic of the code. *)
Definition _poisson_fuse (data intensity : R) : R :=
  intensity - data * ln (intensity + eps).

(** [poisson(data, intensity)] *)
Definition poisson (data intensity : list R) : option R :=
  mean (zip_with _poisson_fuse data intensity).

(** Element-wise operation on three arrays of one shape *)
Fixpoint zip_with3 {A B D E : Type} (f : A -> B -> D -> E)
    (a : list A) (b : list B) (d : list D) : list E :=
  match a, b, d with
  | x :: a', y :: b', z :: d' => f x y z :: zip_with3 f a' b' d'
  | _, _, _ => []
  end.


(** [poisson_grad(data, farplane, intensity)], over the real numbers as
    [gaussian_grad] *)
Definition poisson_grad (data : list R) (farplane : list (list C))
    (intensity : list R) : list (list C) :=
  zip_with3
    (fun d modes i => map (Cscale (1 - d / (i + eps))) modes)
    data farplane intensity.

(** [gaussian_each_pattern(data, intensity)]: the arrays are given
    pattern by pattern, each pattern flattened, and the mean runs over
    the two axes of a pattern. *)
Definition gaussian_each_pattern (data intensity : list (list R))
  : list (option R) :=
  zip_with (fun d i => mean (zip_with _gaussian_fuse d i)) data intensity.

(** [poisson_each_pattern(data, intensity)] *)
Definition poisson_each_pattern (data intensity : list (list R))
  : list (option R) :=
  zip_with (fun d i => mean (zip_with _poisson_fuse d i)) data intensity.

End Objective.

(** ** propagation.py: the cost functions of the NumPy base class *)

Module Propagation.

Import Arr.
Open Scope R_scope.

(** [np.linalg.norm(x, ord=2, axis=2)] of the modes that share one
    detector pixel. *)
Definition norm2 (modes : list C) : R :=
  sqrt (sum (map (fun z => Cabs z * Cabs z) modes)).

(** [np.linalg.norm(np.ravel(x))] of a real array *)
Definition norm_ravel (x : list R) : R :=
  sqrt (sum (map (fun v => v * v) x)).

(** [Propagation._gaussian_cost(data, farplane)].  [data] is flattened;
    [farplane] gives, for every entry of [data], the list of the mode
    values that the reshape of [farplane] to the first two dimensions
    of [data], a free axis, and the remaining dimensions of [data] puts
    along axis 2. *)
Definition _gaussian_cost (data : list R) (farplane : list (list C)) : R :=
  let modulus := map norm2 farplane in
  (norm_ravel (zip_with (fun m d => m - sqrt d) modulus data)) ^ 2.

(** the constant [1e-32] *)
Definition eps32 : R := / 10 ^ 32.

(** [Propagation._poisson_cost(data, farplane)] *)
Definition _poisson_cost (data : list R) (farplane : list (list C)) : R :=
  let intensity := map (fun modes => (norm2 modes) ^ 2) farplane in
  sum (zip_with (fun i d => i - d * ln (i + eps32)) intensity data).



End Propagation.

(** ** cupy/patch.py *)

Module Patch.

Import Py.
Open Scope Z_scope.

Inductive scalar_type : Type := complex64 | float32 | complex128 | float64.

Definition scalar_type_eqb (a b : scalar_type) : bool :=
  match a, b with
  | complex64, complex64 | float32, float32
  | complex128, complex128 | float64, float64 => true
  | _, _ => false
  end.

(** What the operator inspects of an array: its shape and its dtype.
    The entries of an array are written by the device kernels only. *)
Record ndarray : Type := { shape : list Z; dtype : scalar_type }.

(** [t[-i]] for [i >= 1] *)
Definition from_end (t : list Z) (i : nat) : result Z :=
  match nth_error (rev t) (i - 1) with
  | Some d => Ok d
  | None => Raise IndexError
  end.

(** [t[:-n]] *)
Definition drop_last (n : nat) (t : list Z) : list Z :=
  firstn (length t - n) t.

(** [t[-n:]] *)
Definition take_last (n : nat) (t : list Z) : list Z :=
  skipn (length t - n) t.

(** equality of two shape tuples *)
Fixpoint tuple_eqb (s t : list Z) : bool :=
  match s, t with
  | [], [] => true
  | a :: s', b :: t' => (a =? b) && tuple_eqb s' t'
  | _, _ => false
  end.

(** [cp.zeros(shape, dtype)] *)
Definition zeros (s : list Z) (d : scalar_type) : result ndarray :=
  if forallb (fun n => 0 <=? n) s
  then Ok {| shape := s; dtype := d |}
  else Raise (ValueError "negative dimensions are not allowed"%string).

(** [int(np.prod(t))] *)
Definition prod (t : list Z) : Z := fold_right Z.mul 1 t.

(** [a % b] on Python integers *)
Definition py_mod (a b : Z) : result Z :=
  if b =? 0 then Raise ZeroDivisionError else Ok (a mod b).

(** [_next_power_two] *)
Definition _next_power_two (v : Z) : Z :=
  let v := v - 1 in
  let v := Z.lor v (Z.shiftr v 1) in
  let v := Z.lor v (Z.shiftr v 2) in
  let v := Z.lor v (Z.shiftr v 4) in
  let v := Z.lor v (Z.shiftr v 8) in
  let v := Z.lor v (Z.shiftr v 16) in
  v + 1.

(** The two raw kernels compiled from convolution.cu *)
Inductive kernel : Type := _fwd_patch | _adj_patch.

Section Operator.

(** The device: a kernel launch with its grid, its block size, its array
    arguments and its scalar arguments either completes or raises; and
    each kernel has a [max_threads_per_block] attribute. *)
Variable launch :
  kernel -> Z * Z * Z -> Z -> list ndarray -> list Z -> result unit.
Variable max_threads_per_block : kernel -> Z.

(** [Patch.fwd]; [patches = None] is the default value. *)
Definition fwd (images positions : ndarray) (patches : option ndarray)
    (patch_width height width nrepeat : Z) : result ndarray :=
  patch_width <-
    (if patch_width =? 0
     then match patches with
          | Some p => from_end (shape p) 1
          | None => Raise AttributeError
          end
     else Ok patch_width) ;;
  patches <-
    (match patches with
     | None =>
         n <- from_end (shape positions) 2 ;;
         zeros (drop_last 2 (shape positions)
                  ++ [n * nrepeat; patch_width; patch_width]) complex64
     | Some p => Ok p
     end) ;;
  padded <- from_end (shape patches) 1 ;;
  assert_ (patch_width <=? padded) ;;;
  assert_ (tuple_eqb (drop_last 2 (shape images))
             (drop_last 2 (shape positions))) ;;;
  assert_ (tuple_eqb (drop_last 2 (shape positions))
             (drop_last 3 (shape patches))) ;;;
  n <- from_end (shape positions) 2 ;;
  k <- from_end (shape patches) 3 ;;
  assert_ (n * nrepeat =? k) ;;;
  two <- from_end (shape positions) 1 ;;
  assert_ (two =? 2) ;;;
  assert_ (scalar_type_eqb (dtype images) complex64) ;;;
  assert_ (scalar_type_eqb (dtype patches) complex64) ;;;
  assert_ (scalar_type_eqb (dtype positions) float32) ;;;
  let nimage := prod (drop_last 2 (shape images)) in
  let grids := (n, nimage, patch_width) in
  let blocks :=
    Z.min (_next_power_two patch_width) (max_threads_per_block _fwd_patch) in
  launch _fwd_patch grids blocks [images; patches; positions]
    ([nimage] ++ take_last 2 (shape images)
       ++ [n; nrepeat; patch_width; padded]) ;;;
  Ok patches.

(** [Patch.adj]; [images = None] is the default value. *)
Definition adj (positions patches : ndarray) (images : option ndarray)
    (patch_width height width nrepeat : Z) : result ndarray :=
  patch_width <-
    (if patch_width =? 0 then from_end (shape patches) 1
     else Ok patch_width) ;;
  padded <- from_end (shape patches) 1 ;;
  assert_ (patch_width <=? padded) ;;;
  images <-
    (match images with
     | None =>
         zeros (drop_last 2 (shape positions) ++ [height; width]) complex64
     | Some i => Ok i
     end) ;;
  let leading := drop_last 2 (shape images) in
  hw <- (match take_last 2 (shape images) with
         | [h; w] => Ok (h, w)
         | _ => Raise (ValueError "not enough values to unpack"%string)
         end) ;;
  let height := fst hw in
  let width := snd hw in
  assert_ (tuple_eqb (drop_last 2 (shape positions)) leading) ;;;
  N <- from_end (shape positions) 2 ;;
  two <- from_end (shape positions) 1 ;;
  assert_ (two =? 2) ;;;
  assert_ (tuple_eqb (drop_last 3 (shape patches)) leading) ;;;
  K <- from_end (shape patches) 3 ;;
  r <- py_mod (N * nrepeat) K ;;
  assert_ ((r =? 0) && (nrepeat <=? K)) ;;;
  p1 <- from_end (shape patches) 1 ;;
  p2 <- from_end (shape patches) 2 ;;
  assert_ (p1 =? p2) ;;;
  assert_ (scalar_type_eqb (dtype images) complex64) ;;;
  assert_ (scalar_type_eqb (dtype patches) complex64) ;;;
  assert_ (scalar_type_eqb (dtype positions) float32) ;;;
  let nimage := prod (drop_last 2 (shape images)) in
  let grids := (N, nimage, patch_width) in
  let blocks :=
    Z.min (_next_power_two patch_width) (max_threads_per_block _adj_patch) in
  launch _adj_patch grids blocks [images; patches; positions]
    [nimage; height; width; N; nrepeat; patch_width; padded; K] ;;;
  Ok images.

End Operator.

End Patch.

(** ** ptycho/probe.py *)

Module Probe.

Import Py Arr.
Open Scope R_scope.

(** Arrays of this module are index functions together with the sizes of
    the axes that the code reduces over.  The leading dimensions of an
    array are flattened into one leading index. *)

(** [np.sum] and [np.mean] along an axis of size [n] *)
Definition sum_n (n : nat) (f : nat -> R) : R := sum (map f (seq 0 n)).
Definition mean_n (n : nat) (f : nat -> R) : R := sum_n n f / INR n.

(** the test [x == y] on real numbers *)
Definition Reqb (x y : R) : bool := if Req_dec_T x y then true else false.

(** [cp.sign] *)
Definition sign (x : R) : R :=
  if Rlt_dec 0 x then 1 else if Rlt_dec x 0 then -1 else 0.

(** weights : (..., POSI, EIGEN, SHARED) float32 *)
Record weights_array : Type := {
  wlead : nat;
  wposi : nat;
  weigen : nat;
  wshared : nat;
  wval : nat -> nat -> nat -> nat -> R
}.

(** *** constrain_variable_probe *)

Section ConstrainVariableProbe.

(** [tike.linalg.orthogonalize_gs] over the axes (-3, -2, -1), and
    [cp.percentile] of a one-dimensional sample, are library routines. *)
Variable probe_array : Type.
Variable orthogonalize_gs : probe_array -> probe_array.
Variable percentile : R -> list R -> R.

(** [cp.abs(weights)] along the position axis, for one leading index,
    one eigen mode and one shared probe *)
Definition aevol_column (weights : weights_array) (b e s : nat) : list R :=
  map (fun p => Rabs (wval weights b p e s)) (seq 0 (wposi weights)).

(** [constrain_variable_probe].  The percentiles are requested as the
    list [[95]], so the percentile array, and with it the returned
    weights, has a new first axis with one slice per requested
    percentile. *)
Definition constrain_variable_probe
    (variable_probe : probe_array) (weights : weights_array)
  : probe_array * list weights_array :=
  let variable_probe := orthogonalize_gs variable_probe in
  let aevol := fun b p e s => Rabs (wval weights b p e s) in
  let weights' :=
    map (fun q =>
           {| wlead := wlead weights;
              wposi := wposi weights;
              weigen := weigen weights;
              wshared := wshared weights;
              wval := fun b p e s =>
                Rmin (aevol b p e s)
                     (3 / 2 * percentile q (aevol_column weights b e s))
                * sign (wval weights b p e s) |})
        [95] in
  (variable_probe, weights').

End ConstrainVariableProbe.

(** *** constrain_probe_sparsity *)

(** probe : (..., HIGH, WIDE) complex64, as a stack of [pstack] images
    whose pixels are addressed by their flat row-major index. *)
Record probe_stack : Type := {
  pstack : nat;
  prows : nat;
  pcols : nat;
  pval : nat -> nat -> C
}.

(** [int(x)] on a float: truncation towards zero *)
Definition py_int (x : R) : Z :=
  if Rle_dec 0 x then Int_part x else (- Int_part (- x))%Z.

(** [l[:k]] *)
Definition slice_to {A : Type} (l : list A) (k : Z) : list A :=
  if (0 <=? k)%Z then firstn (Z.to_nat k) l
  else firstn (length l - Z.to_nat (- k)) l.

Section ConstrainProbeSparsity.

(** [cupyx.scipy.ndimage.gaussian_filter(input, sigma, mode='wrap')] on
    an image given by its shape and its flat list of pixels, and
    [np.argpartition(a, kth, axis=None)] with [0 <= kth < len(a)], are
    library routines. *)
Variable gaussian_filter : nat * nat -> list R -> R * R -> list R.
Variable argpartition : list R -> nat -> list nat.

Definition constrain_probe_sparsity (probe : probe_stack) (f : R)
  : result probe_stack :=
  if Reqb f 1 then Ok probe else
  let npixel := (prows probe * pcols probe)%nat in
  (* probe.reshape((-1, rows, cols)) cannot infer -1 on an empty image *)
  if (npixel =? 0)%nat
  then Raise (ValueError "cannot reshape array of size 0"%string) else
  let intensity :=
    map (fun q =>
           sum_n (pstack probe)
             (fun t => Cabs (pval probe t q) * Cabs (pval probe t q)))
        (seq 0 npixel) in
  let sigma := (INR (prows probe) / 8, INR (pcols probe) / 8) in
  let intensity :=
    gaussian_filter (prows probe, pcols probe) intensity sigma in
  let k := py_int ((1 - f) * INR (pcols probe) * INR (prows probe)) in
  let size := Z.of_nat (length intensity) in
  if ((k <? - size) || (size <=? k))%Z
  then Raise (ValueError "kth out of bounds"%string) else
  let kth := Z.to_nat (if (k <? 0)%Z then k + size else k)%Z in
  let smallest := slice_to (argpartition intensity kth) k in
  Ok {| pstack := pstack probe;
        prows := prows probe;
        pcols := pcols probe;
        pval := fun t q =>
          if existsb (Nat.eqb q) smallest then C0 else pval probe t q |}.

End ConstrainProbeSparsity.

(** *** init_varying_probe *)

(** eigen_probe : (..., 1, EIGEN, SHARED, WIDE, HIGH) complex64, indexed
    by leading index, eigen mode, shared probe and the two pixel axes. *)
Definition eigen_array : Type := nat -> nat -> nat -> nat -> nat -> C.

(** [np.mean] of a real image over its two pixel axes *)
Definition mean_pixels (wide high : nat) (f : nat -> nat -> R) : R :=
  sum_n wide (fun i => sum_n high (fun j => f i j)) / INR (wide * high).

Section InitVaryingProbe.

(** The random draws: [np.random.rand] and [tike.random.numpy_complex];
    and [tike.linalg.mnorm] over the two pixel axes of an image. *)
Variable rand : nat -> nat -> nat -> nat -> R.
Variable numpy_complex : eigen_array.
Variable mnorm : (nat -> nat -> C) -> R.

(** [init_varying_probe]; [scan] has shape (lead, posi, 2) and
    [shared_probe] has [nshared] probes. *)
Definition init_varying_probe (lead posi nshared : nat)
    (num_eigen_probes probes_with_modes : Z)
  : result (option eigen_array * option weights_array) :=
  let probes_with_modes := Z.max probes_with_modes 0 in
  if (Z.of_nat nshared <? probes_with_modes)%Z
  then Raise (ValueError
                "probes_with_modes cannot be more than the number of probes"%string)
  else
  if (num_eigen_probes <? 1)%Z then Ok (None, None) else
  let weights := fun b p e s => / 10 ^ 6 * rand b p e s in
  let weights := fun b p e s =>
    weights b p e s - mean_n posi (fun p' => weights b p' e s) in
  (* weights[..., 0, :] = 1.0 *)
  let weights := fun b p e s =>
    if (e =? 0)%nat then 1 else weights b p e s in
  (* weights[..., 1:, probes_with_modes:] = 0 *)
  let weights := fun b p e s =>
    if ((1 <=? e)%nat && (probes_with_modes <=? Z.of_nat s)%Z)%bool
    then 0 else weights b p e s in
  let weights :=
    {| wlead := lead; wposi := posi;
       weigen := Z.to_nat num_eigen_probes; wshared := nshared;
       wval := weights |} in
  if (num_eigen_probes =? 1)%Z then Ok (None, Some weights) else
  let eigen_probe : eigen_array := fun b e s i j =>
    let z := numpy_complex b e s i j in
    let r := mnorm (numpy_complex b e s) in
    (fst z / r, snd z / r) in
  Ok (Some eigen_probe, Some weights).

End InitVaryingProbe.

(** *** update_eigen_probe *)

(** The arrays that one worker holds.  All of them share the leading
    dimensions and the pixel axes, which the assertions at the head of
    [update_eigen_probe] check on the first worker; [R], [patches] and
    [diff] have shape (..., POSI, 1, 1, WIDE, HIGH) and are indexed by
    leading index, position and pixel.  The name [R_] stands for the
    argument [R]. *)
Record worker : Type := {
  posi : nat;
  R_ : nat -> nat -> nat -> nat -> C;
  eigen_probe : eigen_array;
  weights : nat -> nat -> nat -> nat -> R;
  patches : nat -> nat -> nat -> nat -> C;
  diff : nat -> nat -> nat -> nat -> C
}.

(** The per-worker update, of shape (..., 1, 1, 1, WIDE, HIGH).  A slice
    that went through a division by zero holds NaN or infinities; the
    flag [ufinite] records, for each leading index, that this did not
    happen. *)
Record update_array : Type := {
  uval : nat -> nat -> nat -> C;
  ufinite : nat -> bool
}.

(** What [_get_d] returns *)
Record d_result : Type := {
  d_eigen_probe : eigen_array;
  d_n : nat -> nat -> R;
  d_d : nat -> nat -> R;
  d_d_mean : nat -> R
}.

(** The communicator: the [use_mpi] flag and the cross-node
    [comm.Allreduce_mean], at the two array types it is called with. *)
Record Comm : Type := {
  use_mpi : bool;
  Allreduce_mean_update : list update_array -> update_array;
  Allreduce_mean_d_mean : list (nat -> R) -> nat -> R
}.

(** mean of a list of real numbers *)
Definition mean_list (l : list R) : R := sum l / INR (length l).

(** Modelled from the spec: [comm.pool.bcast], which is not among the
    sources, replicates one worker's value to all [num_workers]
    workers. *)
Definition bcast {A : Type} (num_workers : nat) (x : A) : list A :=
  repeat x num_workers.

(** Modelled from the spec: [comm.pool.reduce_mean], which is not among
    the sources, combines the per-worker values element-wise by
    averaging.  Here on the per-worker updates. *)
Definition reduce_mean_update (l : list update_array) : update_array :=
  {| uval := fun b i j =>
       (mean_list (map (fun u => Cre (uval u b i j)) l),
        mean_list (map (fun u => Cim (uval u b i j)) l));
     ufinite := fun b => forallb (fun u => ufinite u b) l |}.

(** Modelled from the spec: [comm.pool.reduce_mean] on the per-worker
    position-averaged mode energies. *)
Definition reduce_mean_d_mean (l : list (nat -> R)) : nat -> R :=
  fun b => mean_list (map (fun d => d b) l).

(** division of a complex number by a real number *)
Definition Cdiv_real (z : C) (r : R) : C := (fst z / r, snd z / r).

(** the message of the explicit error *)
Definition zero_weights_message : string :=
  "eigen_probe weights cannot all be zero?"%string.

Section UpdateEigenProbe.

(** [comm]; [tike.linalg.mnorm] over the two pixel axes of an image;
    the number of leading indices and the pixel dimensions; and the
    keyword arguments.  The selection (c, m) is taken to exist in both
    arrays (1 <= c <= EIGEN and m < SHARED) and the images to have at
    least one pixel. *)
Variable comm : Comm.
Variable mnorm : (nat -> nat -> C) -> R.
Variables lead wide high : nat.
Variable beta : R.
Variables c m : nat.

(** [np.linalg.norm(weights, axis=-5, keepdims=True)**2] on the selected
    column of weights: one entry per leading index. *)
Definition norm_weights (w : worker) (b : nat) : R :=
  (sqrt (sum_n (posi w)
           (fun p => weights w b p c m * weights w b p c m))) ^ 2.

Definition _get_update (w : worker) : result update_array :=
  let weights := fun b p => weights w b p c m in
  let eigen_probe := fun b i j => eigen_probe w b (c - 1)%nat m i j in
  if forallb (fun b => Reqb (norm_weights w b) 0) (seq 0 lead)
  then Raise (ValueError zero_weights_message) else
  let proj := fun b p i j =>
    (Cre (Cmul (Cconj (R_ w b p i j)) (eigen_probe b i j)) + weights b p)
    / norm_weights w b in
  let scaled := fun b p i j =>
    Cscale (mean_pixels wide high (proj b p)) (R_ w b p i j) in
  Ok {| uval := fun b i j =>
          (mean_n (posi w) (fun p => Cre (scaled b p i j)),
           mean_n (posi w) (fun p => Cim (scaled b p i j)));
        ufinite := fun b => negb (Reqb (norm_weights w b) 0) |}.

Definition _get_d (w : worker) (update : update_array) : result d_result :=
  let moved := fun b i j =>
    Cadd (eigen_probe w b (c - 1)%nat m i j)
         (Cdiv_real (Cscale beta (uval update b i j))
                    (mnorm (uval update b))) in
  let normed := fun b i j => Cdiv_real (moved b i j) (mnorm (moved b)) in
  let eigen_probe : eigen_array := fun b e s i j =>
    if ((e =? c - 1)%nat && (s =? m)%nat)%bool
    then normed b i j else eigen_probe w b e s i j in
  (* assert np.all(np.isfinite(eigen_probe)) *)
  assert_ (forallb (fun b => ufinite update b
                             && negb (Reqb (mnorm (uval update b)) 0)
                             && negb (Reqb (mnorm (moved b)) 0))
             (seq 0 lead)) ;;;
  let phi := fun b p i j =>
    Cmul (patches w b p i j) (eigen_probe b (c - 1)%nat m i j) in
  let n := fun b p =>
    mean_pixels wide high
      (fun i j => Cre (Cmul (diff w b p i j) (Cconj (phi b p i j)))) in
  let d := fun b p =>
    mean_pixels wide high (fun i j => (Cabs (phi b p i j)) ^ 2) in
  let d_mean := fun b => mean_n (posi w) (d b) in
  Ok {| d_eigen_probe := eigen_probe; d_n := n; d_d := d;
        d_d_mean := d_mean |}.

Definition _get_weights_mean (n d : nat -> nat -> R) (d_mean : nat -> R)
    (w : worker) : result (nat -> nat -> nat -> nat -> R) :=
  let d := fun b p => d b p + / 10 * d_mean b in
  let weight_update := fun b p => n b p / d b p in
  (* assert np.all(np.isfinite(weight_update)) *)
  assert_ (forallb (fun b =>
                      forallb (fun p => negb (Reqb (d b p) 0))
                        (seq 0 (posi w)))
             (seq 0 lead)) ;;;
  (* (33) The sum of all previous steps constrained to zero-mean *)
  Ok (fun b p e s =>
        if ((e =? c)%nat && (s =? m)%nat)%bool
        then weights w b p e s + weight_update b p
        else weights w b p e s).

(** [update_eigen_probe]; the argument lists [R], [eigen_probe],
    [weights], [patches] and [diff] are given worker by worker, and
    [comm.pool.map] visits the workers in order. *)
Definition update_eigen_probe (workers : list worker)
  : result (list eigen_array * list (nat -> nat -> nat -> nat -> R)) :=
  (* the assertions read R[0], eigen_probe[0] and weights[0] *)
  match workers with [] => Raise IndexError | _ :: _ => Ok tt end ;;;
  let num_workers := length workers in
  update <- mapM _get_update workers ;;
  let update :=
    if use_mpi comm
    then bcast num_workers (Allreduce_mean_update comm update)
    else bcast num_workers (reduce_mean_update update) in
  r <- mapM (fun wu => _get_d (fst wu) (snd wu)) (combine workers update) ;;
  let eigen_probe := map d_eigen_probe r in
  let d_mean := map d_d_mean r in
  let d_mean :=
    if use_mpi comm
    then bcast num_workers (Allreduce_mean_d_mean comm d_mean)
    else bcast num_workers (reduce_mean_d_mean d_mean) in
  weights <-
    mapM (fun x => _get_weights_mean (d_n (fst (fst x))) (d_d (fst (fst x)))
                     (snd (fst x)) (snd x))
      (combine (combine r d_mean) workers) ;;
  Ok (eigen_probe, weights).

End UpdateEigenProbe.

(** *** get_varying_probe *)

(** eigen_probe with its dimensions EIGEN (axis -4) and SHARED (axis -3) *)
Record eigen_probe_array : Type := {
  ecount : nat;
  eshared : nat;
  evals : eigen_array
}.

(** The unique probes, (..., POSI, 1, SHARED, WIDE, HIGH), indexed by
    leading index, position, shared probe and pixel; [vposi] is the size
    of the position axis. *)
Record varying_probe : Type := {
  vposi : nat;
  vval : nat -> nat -> nat -> nat -> nat -> C
}.

(** The loop of [get_varying_probe]: [todo] eigen probes remain, the
    next one has index [c], and [m] is the number of shared probes that
    have eigen probes. *)
Fixpoint add_eigen_probes (weights : weights_array) (eigen_probe : eigen_array)
    (m : nat) (todo c : nat)
    (unique_probe : nat -> nat -> nat -> nat -> nat -> C)
  : nat -> nat -> nat -> nat -> nat -> C :=
  match todo with
  | O => unique_probe
  | S todo' =>
      add_eigen_probes weights eigen_probe m todo' (S c)
        (fun b p s i j =>
           if (s <? m)%nat
           then Cadd (unique_probe b p s i j)
                     (Cscale (wval weights b p (c + 1)%nat s)
                             (eigen_probe b c s i j))
           else unique_probe b p s i j)
  end.

(** [get_varying_probe(shared_probe, eigen_probe, weights)]; the shared
    probe, of shape (..., 1, 1, SHARED, WIDE, HIGH), is indexed by
    leading index, shared probe and pixel, and has as many shared probes
    as the weights. *)
Definition get_varying_probe (shared_probe : nat -> nat -> nat -> nat -> C)
    (eigen_probe : option eigen_probe_array) (weights : option weights_array)
  : result varying_probe :=
  match weights with
  | Some weights =>
      (* weights[..., [0], :, None, None] *)
      (if (weigen weights =? 0)%nat then Raise IndexError else Ok tt) ;;;
      let unique_probe := fun b p s i j =>
        Cscale (wval weights b p 0%nat s) (shared_probe b s i j) in
      match eigen_probe with
      | Some eigen_probe =>
          let m := eshared eigen_probe in
          (* weights[..., [c + 1], :m, None, None] *)
          (if ((0 <? ecount eigen_probe)%nat
               && (weigen weights <? 2)%nat)%bool
           then Raise IndexError else Ok tt) ;;;
          (* the slices [..., :m, :, :] of the two sides must agree *)
          (if ((0 <? ecount eigen_probe)%nat
               && (wshared weights <? m)%nat)%bool
           then Raise (ValueError
                  "operands could not be broadcast together"%string)
           else Ok tt) ;;;
          (if (weigen weights <? ecount eigen_probe + 1)%nat
           then Raise IndexError else Ok tt) ;;;
          Ok {| vposi := wposi weights;
                vval := add_eigen_probes weights (evals eigen_probe) m
                          (ecount eigen_probe) 0 unique_probe |}
      | None => Ok {| vposi := wposi weights; vval := unique_probe |}
      end
  | None =>
      (* shared_probe.copy() *)
      Ok {| vposi := 1; vval := fun b p s i j => shared_probe b s i j |}
  end.

(** *** constrain_center_peak *)

(** [np.argmax] of a flat array: the first index of the largest entry *)
Fixpoint argmax_from (l : list R) (i best : nat) (largest : R) : nat :=
  match l with
  | [] => best
  | x :: l' =>
      if Rlt_dec largest x then argmax_from l' (S i) i x
      else argmax_from l' (S i) best largest
  end.

Definition argmax (l : list R) : result nat :=
  match l with
  | [] => Raise (ValueError
                   "attempt to get argmax of an empty sequence"%string)
  | x :: l' => Ok (argmax_from l' 1 0 x)
  end.

(** [np.roll] along an axis of size [n]: the entry at index [i] of the
    result is the entry at index [(i - shift) mod n] of the argument. *)
Definition rolled_index (n : nat) (shift : Z) (i : nat) : nat :=
  Z.to_nat ((Z.of_nat i - shift) mod Z.of_nat n).

Section ConstrainCenterPeak.

Variable gaussian_filter : nat * nat -> list R -> R * R -> list R.

Definition constrain_center_peak (probe : probe_stack)
  : result probe_stack :=
  let rows := prows probe in
  let cols := pcols probe in
  let half := (rows / 2, cols / 2)%nat in
  (* probe.reshape((-1, rows, cols)) cannot infer -1 on an empty image *)
  if (rows * cols =? 0)%nat
  then Raise (ValueError "cannot reshape array of size 0"%string) else
  let intensity :=
    gaussian_filter (rows, cols)
      (map (fun q =>
              sum_n (pstack probe)
                (fun t => Cabs (pval probe t q) * Cabs (pval probe t q)))
           (seq 0 (rows * cols)))
      (INR (fst half), INR (snd half)) in
  center <- argmax intensity ;;
  (* cp.unravel_index(center, dims=(rows, cols)) *)
  (if (center <? rows * cols)%nat then Ok tt
   else Raise (ValueError "index out of bounds"%string)) ;;;
  let coords := (center / cols, center mod cols)%nat in
  let shift0 := (Z.of_nat (fst half) - Z.of_nat (fst coords))%Z in
  let shift1 := (Z.of_nat (snd half) - Z.of_nat (snd coords))%Z in
  Ok {| pstack := pstack probe;
        prows := rows;
        pcols := cols;
        pval := fun t q =>
          let r := (q / cols)%nat in
          let c := (q mod cols)%nat in
          pval probe t
            (rolled_index rows shift0 r * cols
             + rolled_index cols shift1 c)%nat |}.

End ConstrainCenterPeak.

(** *** add_modes_random_phase *)

(** probe : (..., M, ROWS, COLS), indexed by leading index, mode, row
    and column *)
Record mode_stack : Type := {
  mmodes : nat;
  mrows : nat;
  mcols : nat;
  mval : nat -> nat -> nat -> nat -> C
}.

(** [np.exp(1j * theta)] *)
Definition Cexp_i (theta : R) : C := (cos theta, sin theta).

Section AddModesRandomPhase.

(** [np.random.rand(2, 1)], drawn afresh for every added mode: the draw
    for mode [m] has the entries [rand m 0] and [rand m 1]. *)
Variable rand : nat -> nat -> R.

(** [shift[a][k]] for the mode [m] *)
Definition shift (pw : nat) (m a k : nat) : C :=
  Cexp_i (- 2 * PI * (rand m a - 1 / 2)
          * ((INR k + 1 / 2) / INR pw - 1 / 2)).

Definition add_modes_random_phase (probe : mode_stack) (nmodes : nat)
  : result mode_stack :=
  let pw := mcols probe in
  let added := (mmodes probe <? nmodes)%nat in
  (* probe[..., 0, :, :] *)
  (if (added && (mmodes probe =? 0)%nat)%bool
   then Raise IndexError else Ok tt) ;;;
  (* probe[..., 0, :, :] * shift[0][None] * shift[1][:, None] has ROWS
     rows only when ROWS = COLS or COLS = 1 *)
  (if (added && negb ((mrows probe =? pw)%nat || (pw =? 1)%nat))%bool
   then Raise (ValueError "could not broadcast input array"%string)
   else Ok tt) ;;;
  Ok {| mmodes := nmodes;
        mrows := mrows probe;
        mcols := mcols probe;
        mval := fun b m i j =>
          if (m <? mmodes probe)%nat then mval probe b m i j
          else Cmul (Cmul (mval probe b 0%nat i j) (shift pw m 0 j))
                    (shift pw m 1 (if (pw =? 1)%nat then 0%nat else i)) |}.

End AddModesRandomPhase.

(** *** gaussian *)

(** [rs]: the distance of the centre of pixel (i, j) from the centre of
    the grid *)
Definition radius (size : nat) (i j : nat) : R :=
  sqrt ((INR i + 1 / 2 - INR size / 2) ^ 2
        + (INR j + 1 / 2 - INR size / 2) ^ 2).

(** [rs.max()] *)
Definition radius_max (size : nat) : R :=
  fold_right Rmax 0
    (flat_map (fun i => map (radius size i) (seq 0 size)) (seq 0 size)).

(** [gaussian(size, rin, rout)], pixel by pixel; NumPy raises on
    [rs.max()] when the grid is empty. *)
Definition gaussian (size : nat) (rin rout : R)
  : result (nat -> nat -> R) :=
  if (size =? 0)%nat
  then Raise (ValueError "zero-size array to reduction operation"%string)
  else
  let rmax := sqrt 2 * (1 / 2) * rout * radius_max size + 1 in
  let rmin := sqrt 2 * (1 / 2) * rin * radius_max size in
  Ok (fun i j =>
        let rs := radius size i j in
        (* img[zone] = (rmax - rs) / (rmax - rmin) *)
        if Rlt_dec rmin rs then
          if Rlt_dec rs rmax then (rmax - rs) / (rmax - rmin)
          else if Rlt_dec rmax rs then 0 else 0
        else
          if Rlt_dec rmax rs then 0
          else if Rlt_dec rs rmin then 1 else 0).

End Probe.

(** ** ptycho/solvers/divided.py *)

Module Divided.

Import Py.
Open Scope R_scope.

Section Solver.

(** Arrays of the array module [op.xp], with the operations that the
    solver applies to them.  Sums keep their dimensions.  The solver
    rebinds its names to new arrays ([psi = psi + ...]) and has no
    statement that writes into an array it was given, so arrays are
    values here. *)
Variable array : Type.

Record array_module : Type := {
  add : array -> array -> array;
  sub : array -> array -> array;
  mul : array -> array -> array;
  div : array -> array -> array;
  neg : array -> array;
  conj : array -> array;
  real : array -> array;
  (* xp.square(xp.abs(x)) *)
  square_abs : array -> array;
  (* x + eps, with eps = 1e-16 *)
  add_scalar : array -> R -> array;
  (* xp.sum(x, axis=position, keepdims=True) *)
  sum_position : array -> array;
  (* xp.sum(x, axis=pixels, keepdims=True) *)
  sum_pixels : array -> array;
  (* x[:, :, 0, 0] *)
  first_mode : array -> array;
  (* x[..., pad:end, pad:end] *)
  crop : Z -> Z -> array -> array;
  (* xp.linalg.norm(xp.ravel(x)) *)
  norm_ravel : array -> R;
  (* xp.zeros(shape=(scan.shape[:2], 1, 1, probe.shape[-2:])) *)
  zeros_patches : array -> array -> array;
  (* xp.ones((scan.shape[:2], 1, 1, 1, 1)) *)
  ones_positions : array -> array;
  zeros_like : array -> array;
  astype_complex64 : array -> array
}.

(** The operator [op]: the methods of the Ptycho operator and of its
    [propagation] and [diffraction] members that the solver calls. *)
Record operator : Type := {
  xp : array_module;
  (* op.fwd(psi=, scan=, probe=) *)
  op_fwd : array -> array -> array -> result array;
  (* op.propagation.adj(farplane) *)
  propagation_adj : array -> result array;
  (* op.propagation.grad(data, farplane, intensity) *)
  propagation_grad : array -> array -> array -> result array;
  (* op.propagation.cost(data, intensity) *)
  propagation_cost : array -> array -> result R;
  (* op.diffraction.fwd(psi=, scan=, probe=) *)
  diffraction_fwd : array -> array -> array -> result array;
  (* op.diffraction._patch(patches=, psi=, scan=, fwd=) *)
  diffraction_patch : array -> array -> array -> bool -> result array;
  diffraction_pad : Z;
  diffraction_end : Z
}.

(** [tike.opt.conjugate_gradient(xp, x, cost_function, grad, num_iter)]
    and [tike.opt.direction_dy(xp, grad0, grad1, dir_)] *)
Variable conjugate_gradient :
  array_module -> array -> (array -> result R) -> (array -> result array) ->
  Z -> result (array * R).
Variable direction_dy : array_module -> array -> array -> array -> array.

(** the constant [1e-16] *)
Definition eps : R := / 10 ^ 16.

Definition update_phase (op : operator) (data farplane : array)
    (num_iter : Z) : result (array * R) :=
  let grad := fun farplane =>
    let intensity := first_mode (xp op) (square_abs (xp op) farplane) in
    propagation_grad op data farplane intensity in
  let cost_function := fun farplane =>
    let intensity := first_mode (xp op) (square_abs (xp op) farplane) in
    propagation_cost op data intensity in
  fc <- conjugate_gradient (xp op) farplane cost_function grad num_iter ;;
  Ok (fst fc, snd fc).

(** The loop of [update_probe]: [n] iterations remain, [prev] holds
    [grad0] and [dir_] of the iteration before, if there was one. *)
Fixpoint update_probe_loop (x : array_module)
    (nearplane obj_patches norm_patches : array) (pad end_ : Z)
    (n : nat) (probe : array) (prev : option (array * array)) : array :=
  match n with
  | O => probe
  | S n' =>
      let chi := fun probe =>
        sub x (crop x pad end_ nearplane) (mul x probe obj_patches) in
      let grad := fun probe => mul x (chi probe) (conj x obj_patches) in
      let common_dir_ := fun dir_ =>
        div x (sum_position x dir_) norm_patches in
      let step := fun probe dir_ =>
        div x
          (sum_pixels x
             (real x (mul x (chi probe) (conj x (mul x dir_ obj_patches)))))
          (add_scalar x
             (sum_pixels x (square_abs x (mul x dir_ obj_patches))) eps) in
      let grad1 := grad probe in
      let dir_ :=
        match prev with
        | None => neg x grad1
        | Some (grad0, dir_) => direction_dy x grad0 grad1 dir_
        end in
      let grad0 := grad1 in
      let weighted_patches :=
        sum_position x (mul x (step probe dir_) (square_abs x obj_patches)) in
      let probe :=
        add x probe
          (div x (mul x (common_dir_ dir_) weighted_patches) norm_patches) in
      update_probe_loop x nearplane obj_patches norm_patches pad end_
        n' probe (Some (grad0, dir_))
  end.

Definition update_probe (op : operator) (nearplane probe scan psi : array)
    (num_iter : Z) : result (array * R) :=
  let x := xp op in
  let pad := diffraction_pad op in
  let end_ := diffraction_end op in
  obj_patches <-
    diffraction_patch op (zeros_patches x scan probe) psi scan true ;;
  let norm_patches :=
    add_scalar x (sum_position x (square_abs x obj_patches)) eps in
  let cost_function := fun probe =>
    (norm_ravel x
       (sub x (mul x probe obj_patches) (crop x pad end_ nearplane))) ^ 2 in
  let probe :=
    update_probe_loop x nearplane obj_patches norm_patches pad end_
      (Z.to_nat num_iter) probe None in
  let cost := cost_function probe in
  Ok (probe, cost).

(** The loop of [update_object] *)
Fixpoint update_object_loop (op : operator)
    (nearplane probe scan norm_probe : array)
    (n : nat) (psi : array) (prev : option (array * array)) : result array :=
  let x := xp op in
  let pad := diffraction_pad op in
  let end_ := diffraction_end op in
  match n with
  | O => Ok psi
  | S n' =>
      let chi := fun psi =>
        f <- diffraction_fwd op psi scan probe ;;
        Ok (crop x pad end_ (sub x nearplane f)) in
      let grad := fun psi =>
        c <- chi psi ;; Ok (mul x c (conj x probe)) in
      let common_dir_ := fun dir_ =>
        p <- diffraction_patch op dir_ (zeros_like x psi) scan false ;;
        Ok (div x p norm_probe) in
      let step := fun psi dir_ =>
        c <- chi psi ;;
        Ok (div x
              (sum_pixels x (real x (mul x c (conj x (mul x dir_ probe)))))
              (add_scalar x
                 (sum_pixels x (square_abs x (mul x dir_ probe))) eps)) in
      grad1 <- grad psi ;;
      let dir_ :=
        match prev with
        | None => neg x grad1
        | Some (grad0, dir_) => direction_dy x grad0 grad1 dir_
        end in
      let grad0 := grad1 in
      s <- step psi dir_ ;;
      weight_probe <-
        diffraction_patch op
          (astype_complex64 x (mul x s (square_abs x probe)))
          (zeros_like x psi) scan false ;;
      cd <- common_dir_ dir_ ;;
      let psi := add x psi (div x (mul x cd weight_probe) norm_probe) in
      update_object_loop op nearplane probe scan norm_probe
        n' psi (Some (grad0, dir_))
  end.

Definition update_object (op : operator) (nearplane probe scan psi : array)
    (num_iter : Z) : result (array * R) :=
  let x := xp op in
  let cost_function := fun psi =>
    f <- diffraction_fwd op psi scan probe ;;
    Ok ((norm_ravel x (sub x f nearplane)) ^ 2) in
  p <- diffraction_patch op
         (mul x (square_abs x probe) (ones_positions x scan))
         (zeros_like x psi) scan false ;;
  let norm_probe := add_scalar x p eps in
  psi <- update_object_loop op nearplane probe scan norm_probe
           (Z.to_nat num_iter) psi None ;;
  cost <- cost_function psi ;;
  Ok (psi, cost).

(** The dictionary that [divided] returns *)
Record solution : Type := {
  psi : array;
  probe : array;
  cost : R;
  scan : array;
  farplane : array
}.

(** [divided]; [pool], [num_gpu] and the extra keyword arguments are not
    used, and the call of [update_positions_pd] under
    [recover_positions] is commented out in the source. *)
Definition divided (op : operator) (data probe scan psi : array)
    (recover_psi recover_probe recover_positions : bool) (cg_iter : Z)
  : result solution :=
  farplane <- op_fwd op psi scan probe ;;
  fc <- update_phase op data farplane cg_iter ;;
  let farplane := fst fc in
  let cost := snd fc in
  nearplane <- propagation_adj op farplane ;;
  pc <- (if recover_psi
         then update_object op nearplane probe scan psi cg_iter
         else Ok (psi, cost)) ;;
  let psi := fst pc in
  let cost := snd pc in
  qc <- (if recover_probe
         then update_probe op nearplane probe scan psi cg_iter
         else Ok (probe, cost)) ;;
  let probe := fst qc in
  let cost := snd qc in
  Ok {| psi := psi; probe := probe; cost := cost; scan := scan;
        farplane := farplane |}.

End Solver.

End Divided.

(** ** ptycho/probe.py: orthogonalize_eig *)

Module Eig.

Import mathcomp.boot.boot mathcomp.order.order mathcomp.algebra.algebra.
Import GRing.Theory Num.Def Num.Theory.
Local Open Scope ring_scope.

Section OrthogonalizeEig.

(** The complex numbers, as a closed field with a conjugation.  For one
    leading index, [x] is the matrix whose row [i] is mode [i] with its
    two pixel axes flattened, as the reshape before the final product
    makes it; the function treats every leading index alike. *)
Variable C : numClosedFieldType.
Variables nmodes npixel : nat.

(** [xp.linalg.eigh(A, UPLO='L')]: the eigenvalues, and the matrix whose
    columns are the eigenvectors.  [xp.empty]: the content of a fresh
    array, which is arbitrary. *)
Variable eigh : 'M[C]_nmodes -> 'rV[C]_nmodes * 'M[C]_nmodes.
Variable empty : 'M[C]_nmodes.

(** The array [A] after the two loops: only the lower half is filled. *)
Definition pairwise_dot (x : 'M[C]_(nmodes, npixel)) : 'M[C]_nmodes :=
  \matrix_(i, j)
    if (j <= i)%N then \sum_k (x i k)^* * x j k else empty i j.

(** [orthogonalize_eig] *)
Definition orthogonalize_eig (x : 'M[C]_(nmodes, npixel))
  : 'M[C]_(nmodes, npixel) :=
  let A := pairwise_dot x in
  let vectors := (eigh A).2 in
  (* vectors[..., ::-1].swapaxes(-1, -2) *)
  let vectors : 'M[C]_nmodes := \matrix_(i, j) vectors j (rev_ord i) in
  vectors *m x.

(** The Hermitian matrix that [eigh] reads from the lower half of its
    argument when [UPLO='L']. *)
Definition lower_hermitian (A : 'M[C]_nmodes) : 'M[C]_nmodes :=
  \matrix_(i, j) if (j <= i)%N then A i j else (A j i)^*.

(** The conjugate inner products of all pairs of modes *)
Definition gram (x : 'M[C]_(nmodes, npixel)) : 'M[C]_nmodes :=
  \matrix_(i, j) \sum_k (x i k)^* * x j k.

End OrthogonalizeEig.

End Eig.

(** ** Inputs on which the properties are exercised *)

Module Examples.

Import Py.

(** An array module and an operator on integers standing for arrays *)
Definition integer_arrays : Divided.array_module Z :=
  {| Divided.add := Z.add;
     Divided.sub := Z.sub;
     Divided.mul := Z.mul;
     Divided.div := Z.div;
     Divided.neg := Z.opp;
     Divided.conj := fun a => a;
     Divided.real := fun a => a;
     Divided.square_abs := fun a => (a * a)%Z;
     Divided.add_scalar := fun a _ => a;
     Divided.sum_position := fun a => a;
     Divided.sum_pixels := fun a => a;
     Divided.first_mode := fun a => a;
     Divided.crop := fun _ _ a => a;
     Divided.norm_ravel := fun a => IZR (Z.abs a);
     Divided.zeros_patches := fun _ _ => 0%Z;
     Divided.ones_positions := fun _ => 1%Z;
     Divided.zeros_like := fun _ => 0%Z;
     Divided.astype_complex64 := fun a => a |}.

Definition integer_operator : Divided.operator Z :=
  {| Divided.xp := integer_arrays;
     Divided.op_fwd := fun psi scan probe => Ok (psi * probe)%Z;
     Divided.propagation_adj := fun farplane => Ok farplane;
     Divided.propagation_grad := fun data farplane intensity =>
       Ok (farplane - data)%Z;
     Divided.propagation_cost := fun data intensity =>
       Ok (IZR (intensity - data));
     Divided.diffraction_fwd := fun psi scan probe => Ok (psi * probe)%Z;
     Divided.diffraction_patch := fun patches psi scan fwd =>
       Ok (patches + psi)%Z;
     Divided.diffraction_pad := 0%Z;
     Divided.diffraction_end := 1%Z |}.

(** a conjugate gradient that takes no step *)
Definition no_step (x : Divided.array_module Z) (a : Z)
    (cost_function : Z -> result R) (grad : Z -> result Z) (num_iter : Z)
  : result (Z * R) :=
  Ok (a, 0%R).

End Examples.

(** ** Notions used in the proofs about patch.py *)

Module PatchSpec.

Open Scope Z_scope.

(** bits within distance [w] below the top bit [t] are set *)
Definition filled (t w y : Z) : Prop :=
  forall i, 0 <= i <= t -> t - i < w -> Z.testbit y i = true.

(** no bit above [t] is set *)
Definition capped (t y : Z) : Prop :=
  forall i, t < i -> Z.testbit y i = false.

(** the patch width in use: the width of the patches when the argument
    is left at 0 *)
Definition width_in_use (patch_width padded : Z) : Z :=
  if patch_width =? 0 then padded else patch_width.

End PatchSpec.

(** ** Notions used to state the properties of probe.py *)

Module ProbeSpec.

Import Arr Probe.
Open Scope R_scope.

(** a complex number is exactly zero *)
Definition Czerob (z : C) : bool := Reqb (fst z) 0 && Reqb (snd z) 0.

(** the pixel with flat index [q] is zero in every image of the stack *)
Definition zero_pixel (probe : probe_stack) (q : nat) : bool :=
  forallb (fun t => Czerob (pval probe t q)) (seq 0 (pstack probe)).

(** the number of pixel coordinates that are zero across the stack *)
Definition count_zero (probe : probe_stack) : nat :=
  length (filter (zero_pixel probe) (seq 0 (prows probe * pcols probe))).

(** Modelled from the spec: [tike.linalg.mnorm], which is not among the
    sources, is the norm with the sum replaced by the mean, so that a
    mode divided by it has unit mean magnitude; here over the two pixel
    axes of a [wide] by [high] image. *)
Definition mnorm (wide high : nat) (x : nat -> nat -> C) : R :=
  sqrt (mean_pixels wide high
          (fun i j => fst (x i j) * fst (x i j) + snd (x i j) * snd (x i j))).

(** [cp.percentile(a, q)] with its default linear interpolation, on a
    sample [l] that is already in ascending order: the entry at the
    fractional index q / 100 * (n - 1), interpolated between the two
    entries around it. *)
Definition percentile_sorted (q : R) (l : list R) : R :=
  let h := q / 100 * INR (length l - 1) in
  let below := Z.to_nat (Int_part h) in
  nth below l 0 + (h - INR below) * (nth (S below) l 0 - nth below l 0).

(** Weights at 21 positions, one eigen mode and one shared probe: the
    value [inlier] at the first 20 positions and [outlier] at the last;
    with [Rabs inlier <= Rabs outlier] the magnitudes along the position
    axis are in ascending order. *)
Definition one_outlier (inlier outlier : R) : weights_array :=
  {| wlead := 1; wposi := 21; weigen := 1; wshared := 1;
     wval := fun _ p _ _ => if (p =? 20)%nat then outlier else inlier |}.

(** A communicator without MPI *)
Definition single_node : Comm :=
  {| use_mpi := false;
     Allreduce_mean_update := reduce_mean_update;
     Allreduce_mean_d_mean := reduce_mean_d_mean |}.

(** One worker with two positions and images of a single pixel: the
    residual, the eigen probe, the patches and the difference are 1
    everywhere; the weights are 1 in the zeroth row and -1, 1 at the two
    positions of every other row. *)
Definition two_positions : worker :=
  {| posi := 2;
     R_ := fun _ _ _ _ => C1;
     eigen_probe := fun _ _ _ _ _ => C1;
     weights := fun _ p e _ =>
       if (e =? 0)%nat then 1 else if (p =? 0)%nat then -1 else 1;
     patches := fun _ _ _ _ => C1;
     diff := fun _ _ _ _ => C1 |}.

(** One worker with one position whose weights are 1 at the leading
    index 0 and 0 at every other leading index; everything else is 1. *)
Definition zero_at_second : worker :=
  {| posi := 1;
     R_ := fun _ _ _ _ => C1;
     eigen_probe := fun _ _ _ _ _ => C1;
     weights := fun b _ _ _ => if (b =? 0)%nat then 1 else 0;
     patches := fun _ _ _ _ => C1;
     diff := fun _ _ _ _ => C1 |}.

(** The selected eigen probe after the step along the update, and after
    its renormalisation, as [_get_d] computes them in place. *)
Definition moved_mode (mnorm : (nat -> nat -> C) -> R) (beta : R)
    (c m : nat) (w : worker) (update : update_array)
  : nat -> nat -> nat -> C :=
  fun b i j =>
    Cadd (eigen_probe w b (c - 1)%nat m i j)
         (Cdiv_real (Cscale beta (uval update b i j))
                    (mnorm (uval update b))).

Definition normed_mode (mnorm : (nat -> nat -> C) -> R) (beta : R)
    (c m : nat) (w : worker) (update : update_array)
  : nat -> nat -> nat -> C :=
  fun b i j =>
    Cdiv_real (moved_mode mnorm beta c m w update b i j)
              (mnorm (moved_mode mnorm beta c m w update b)).

(** The weighted sum of the eigen probes [c], ..., [c + todo - 1] at one
    position, shared probe and pixel *)
Definition eigen_sum (weights : weights_array) (eigen_probe : eigen_array)
    (c todo : nat) (b p s i j : nat) : C :=
  fold_right Cadd C0
    (map (fun k => Cscale (wval weights b p (k + 1)%nat s)
                          (eigen_probe b k s i j))
         (seq c todo)).

(** The mean of a complex quantity over the positions *)
Definition Cmean_n (n : nat) (f : nat -> C) : C :=
  (mean_n n (fun p => fst (f p)), mean_n n (fun p => snd (f p))).

(** the mean over the positions of one column of weights *)
Definition column_mean (posi : nat) (w : nat -> nat -> nat -> nat -> R)
    (b e s : nat) : R :=
  mean_n posi (fun p => w b p e s).

End ProbeSpec.

(* ================================================================== *)
(** * Properties *)
(* ================================================================== *)

Section ArrayLemmas.

Import Arr.
Open Scope R_scope.

Lemma sum_app (a b : list R) : sum (a ++ b) = sum a + sum b.
Proof.
  induction a as [|x a IH]; simpl.
  - lra.
  - unfold sum in *. simpl. rewrite IH. lra.
Qed.

Lemma sum_tile (k : nat) (l : list R) : sum (tile k l) = INR k * sum l.
Proof.
  induction k as [|k IH].
  - simpl. lra.
  - cbn [tile]. rewrite sum_app, IH, S_INR. lra.
Qed.

Lemma length_tile {A : Type} (k : nat) (l : list A) :
  length (tile k l) = (k * length l)%nat.
Proof.
  induction k as [|k IH]; simpl; [reflexivity|].
  rewrite length_app, IH. reflexivity.
Qed.

Lemma zip_with_app {A B D : Type} (f : A -> B -> D) a1 a2 b1 b2 :
  length a1 = length b1 ->
  zip_with f (a1 ++ a2) (b1 ++ b2) = zip_with f a1 b1 ++ zip_with f a2 b2.
Proof.
  revert b1. induction a1 as [|x a1 IH]; intros [|y b1] Hlen;
    simpl in *; try discriminate; [reflexivity|].
  f_equal. apply IH. lia.
Qed.

Lemma zip_with_tile {A B D : Type} (f : A -> B -> D) k a b :
  length a = length b ->
  zip_with f (tile k a) (tile k b) = tile k (zip_with f a b).
Proof.
  intros Hlen. induction k as [|k IH]; simpl; [reflexivity|].
  rewrite zip_with_app by assumption. now rewrite IH.
Qed.

Lemma map_tile {A B : Type} (f : A -> B) k l :
  map f (tile k l) = tile k (map f l).
Proof.
  induction k as [|k IH]; simpl; [reflexivity|].
  now rewrite map_app, IH.
Qed.

Lemma mean_tile (k : nat) (l : list R) :
  (1 <= k)%nat -> mean (tile k l) = mean l.
Proof.
  intros Hk. destruct l as [|x l].
  - clear Hk. induction k as [|k IH]; simpl; auto.
  - assert (Hne : tile k (x :: l) <> []).
    { destruct k; [lia|]. simpl. discriminate. }
    unfold mean at 1. destruct (tile k (x :: l)) as [|y t] eqn:E; [congruence|].
    rewrite <- E. unfold mean. f_equal.
    rewrite sum_tile, length_tile, mult_INR.
    assert (0 < INR k) by (apply lt_0_INR; lia).
    assert (0 < INR (length (x :: l))) by (apply lt_0_INR; simpl; lia).
    field. split; lra.
Qed.

Lemma sum_sq_nonneg (l : list R) : 0 <= sum (map (fun v => v * v) l).
Proof.
  induction l as [|x l IH]; unfold sum in *; simpl; [lra|]. nra.
Qed.

End ArrayLemmas.

(** ** objective.py and propagation.py *)

Section CostFunctions.

Import Arr.
Open Scope R_scope.

Lemma zip_with_diag {A B : Type} (f : A -> A -> B) (l : list A) :
  zip_with f l l = map (fun x => f x x) l.
Proof. induction l as [|x l IH]; simpl; congruence. Qed.

Lemma sum_zeros (l : list R) :
  Forall (fun v => v = 0) l -> sum l = 0.
Proof.
  induction 1 as [|x l Hx _ IH]; unfold sum in *; simpl; [reflexivity|].
  rewrite IH, Hx. lra.
Qed.

Lemma eps_pos : 0 < Objective.eps.
Proof. unfold Objective.eps. apply Rinv_0_lt_compat. lra. Qed.

Lemma eps_small : Objective.eps < / 1000.
Proof.
  unfold Objective.eps. apply Rinv_lt_contravar; lra.
Qed.

Lemma ln_1_plus_lt (x : R) : 0 < x -> ln (1 + x) < x.
Proof.
  intros Hx. rewrite <- (ln_exp x) at 2.
  apply ln_increasing; [lra|].
  apply exp_ineq1. lra.
Qed.

(** C1, the part that fails: with [data = [1]] the Poisson objective at
    the truth is [1 - log (1 + 1e-9)], which is above 0.999, far from 0. *)
Lemma poisson_at_truth_is_not_zero :
  exists v, Objective.poisson [1] [1] = Some v /\ 999 / 1000 < v.
Proof.
  eexists. split; [reflexivity|].
  unfold Objective._poisson_fuse, sum. simpl.
  pose proof (ln_1_plus_lt _ eps_pos). pose proof eps_small. lra.
Qed.

(** C1, as the code has it: on every non-empty non-negative [data] the
    Gaussian objective at the truth is exactly 0, and the Poisson
    objective at the truth is the mean of [d * (1 - log (d + 1e-9))]
    over the entries [d] of [data]. *)
Theorem objective_at_truth (data : list R) :
  data <> [] ->
  Forall (fun d => 0 <= d) data ->
  Objective.gaussian data data = Some 0 /\
  Objective.poisson data data =
    mean (map (fun d => d * (1 - ln (d + Objective.eps))) data).
Proof.
  intros Hne _. split.
  - unfold Objective.gaussian. rewrite zip_with_diag.
    assert (Hz : sum (map (fun x => Objective._gaussian_fuse x x) data) = 0).
    { apply sum_zeros, Forall_forall. intros v Hv.
      apply in_map_iff in Hv. destruct Hv as [x [<- _]].
      unfold Objective._gaussian_fuse. simpl. lra. }
    destruct data as [|d data]; [congruence|].
    unfold mean. rewrite Hz. cbn [map]. f_equal.
    unfold Rdiv. apply Rmult_0_l.
  - unfold Objective.poisson. rewrite zip_with_diag. f_equal.
    apply map_ext. intros d. unfold Objective._poisson_fuse. lra.
Qed.

Lemma objective_at_truth_witness :
  Objective.gaussian [4; 0] [4; 0] = Some 0 /\
  Objective.poisson [4; 0] [4; 0] =
    mean (map (fun d => d * (1 - ln (d + Objective.eps))) [4; 0]).
Proof.
  apply (objective_at_truth [4; 0]).
  - discriminate.
  - repeat constructor; lra.
Defined.

(** The objectives of objective.py do not depend on the number of copies
    of the batch. *)
Lemma gaussian_tile (k : nat) (data intensity : list R) :
  (1 <= k)%nat -> length data = length intensity ->
  Objective.gaussian (tile k data) (tile k intensity) =
  Objective.gaussian data intensity.
Proof.
  intros Hk Hlen. unfold Objective.gaussian.
  rewrite zip_with_tile by assumption. now apply mean_tile.
Qed.

Lemma poisson_tile (k : nat) (data intensity : list R) :
  (1 <= k)%nat -> length data = length intensity ->
  Objective.poisson (tile k data) (tile k intensity) =
  Objective.poisson data intensity.
Proof.
  intros Hk Hlen. unfold Objective.poisson.
  rewrite zip_with_tile by assumption. now apply mean_tile.
Qed.

Lemma length_map_eq {A B D : Type} (f : A -> B) (l : list A) (l' : list D) :
  length l' = length l -> length (map f l) = length l'.
Proof. intros H. now rewrite length_map. Qed.

(** The costs of the Propagation class are sums: [k] copies cost [k]
    times as much. *)
Lemma gaussian_cost_tile (k : nat) (data : list R) (farplane : list (list C)) :
  length data = length farplane ->
  Propagation._gaussian_cost (tile k data) (tile k farplane) =
  INR k * Propagation._gaussian_cost data farplane.
Proof.
  intros Hlen. unfold Propagation._gaussian_cost, Propagation.norm_ravel.
  rewrite map_tile, zip_with_tile by (now apply length_map_eq).
  rewrite map_tile, sum_tile.
  set (s := sum _).
  assert (Hs : 0 <= s) by apply sum_sq_nonneg.
  assert (Hk : 0 <= INR k) by apply pos_INR.
  simpl. rewrite !Rmult_1_r.
  rewrite !sqrt_sqrt; [reflexivity | assumption | nra].
Qed.

Lemma poisson_cost_tile (k : nat) (data : list R) (farplane : list (list C)) :
  length data = length farplane ->
  Propagation._poisson_cost (tile k data) (tile k farplane) =
  INR k * Propagation._poisson_cost data farplane.
Proof.
  intros Hlen. unfold Propagation._poisson_cost.
  rewrite map_tile, zip_with_tile by (now apply length_map_eq).
  apply sum_tile.
Qed.

(** C2, the part that fails: the Gaussian cost of the Propagation class
    on one pixel with data 0 and a single mode of value 1 is 1, and on
    the batch of two copies it is 2. *)
Lemma propagation_cost_depends_on_batch_size :
  Propagation._gaussian_cost [0] [[C1]] = 1 /\
  Propagation._gaussian_cost (tile 2 [0]) (tile 2 [[C1]]) = 2.
Proof.
  assert (H1 : Propagation._gaussian_cost [0] [[C1]] = 1).
  { unfold Propagation._gaussian_cost, Propagation.norm_ravel,
      Propagation.norm2, Cabs, C1, sum. simpl.
    rewrite sqrt_0.
    replace (1 * 1 + 0 * 0) with 1 by lra. rewrite sqrt_1.
    replace (1 * 1 + 0) with 1 by lra. rewrite sqrt_1.
    replace ((1 - 0) * (1 - 0) + 0) with 1 by lra. rewrite sqrt_1. lra. }
  split; [exact H1|].
  rewrite gaussian_cost_tile by reflexivity. rewrite H1. simpl. lra.
Qed.

(** C2, as the code has it: the mean-reduced objectives of objective.py
    give the same value on [k >= 1] concatenated copies of a batch,
    while the sum-reduced costs of the Propagation class give [k] times
    the value of a single copy. *)
Theorem cost_on_repeated_batch
    (k : nat) (data intensity pdata : list R) (farplane : list (list C)) :
  (1 <= k)%nat ->
  length data = length intensity ->
  length pdata = length farplane ->
  Objective.gaussian (tile k data) (tile k intensity) =
    Objective.gaussian data intensity /\
  Objective.poisson (tile k data) (tile k intensity) =
    Objective.poisson data intensity /\
  Propagation._gaussian_cost (tile k pdata) (tile k farplane) =
    INR k * Propagation._gaussian_cost pdata farplane /\
  Propagation._poisson_cost (tile k pdata) (tile k farplane) =
    INR k * Propagation._poisson_cost pdata farplane.
Proof.
  intros Hk Hlen Hlen'. repeat split.
  - now apply gaussian_tile.
  - now apply poisson_tile.
  - now apply gaussian_cost_tile.
  - now apply poisson_cost_tile.
Qed.

Lemma cost_on_repeated_batch_witness :
  Objective.gaussian (tile 3 [1; 4]) (tile 3 [9; 0]) =
    Objective.gaussian [1; 4] [9; 0] /\
  Objective.poisson (tile 3 [1; 4]) (tile 3 [9; 0]) =
    Objective.poisson [1; 4] [9; 0] /\
  Propagation._gaussian_cost (tile 3 [1]) (tile 3 [[C1; C0]]) =
    INR 3 * Propagation._gaussian_cost [1] [[C1; C0]] /\
  Propagation._poisson_cost (tile 3 [1]) (tile 3 [[C1; C0]]) =
    INR 3 * Propagation._poisson_cost [1] [[C1; C0]].
Proof.
  apply (cost_on_repeated_batch 3 [1; 4] [9; 0] [1] [[C1; C0]]).
  - lia.
  - reflexivity.
  - reflexivity.
Defined.

End CostFunctions.

(** ** cupy/patch.py *)

Section PatchOperator.

Import Py Patch.
Open Scope Z_scope.

Lemma bind_Ok_inv {A B : Type} (c : result A) (k : A -> result B) (b : B) :
  bind c k = Ok b -> exists a, c = Ok a /\ k a = Ok b.
Proof. destruct c as [a|e]; simpl; [eauto | discriminate]. Qed.

Lemma assert_Ok_inv (b : bool) (u : unit) : assert_ b = Ok u -> b = true.
Proof. destruct b; simpl; [reflexivity | discriminate]. Qed.

Lemma from_end_1 (l : list Z) (a : Z) : from_end (l ++ [a]) 1 = Ok a.
Proof. unfold from_end. now rewrite rev_app_distr. Qed.

Lemma from_end_2 (l : list Z) (a b : Z) : from_end (l ++ [a; b]) 2 = Ok a.
Proof. unfold from_end. now rewrite rev_app_distr. Qed.

Lemma from_end_3 (l : list Z) (a b c : Z) :
  from_end (l ++ [a; b; c]) 3 = Ok a.
Proof. unfold from_end. now rewrite rev_app_distr. Qed.

Lemma from_end_1_of_2 (l : list Z) (a b : Z) :
  from_end (l ++ [a; b]) 1 = Ok b.
Proof. unfold from_end. now rewrite rev_app_distr. Qed.

Lemma from_end_1_of_3 (l : list Z) (a b c : Z) :
  from_end (l ++ [a; b; c]) 1 = Ok c.
Proof. unfold from_end. now rewrite rev_app_distr. Qed.

Lemma from_end_2_of_3 (l : list Z) (a b c : Z) :
  from_end (l ++ [a; b; c]) 2 = Ok b.
Proof. unfold from_end. now rewrite rev_app_distr. Qed.

Lemma drop_last_app (l s : list Z) :
  drop_last (length s) (l ++ s) = l.
Proof.
  unfold drop_last. rewrite length_app.
  replace (length l + length s - length s)%nat with (length l) by lia.
  rewrite firstn_app, firstn_all, Nat.sub_diag. simpl. apply app_nil_r.
Qed.

Lemma take_last_app (l s : list Z) :
  take_last (length s) (l ++ s) = s.
Proof.
  unfold take_last. rewrite length_app.
  replace (length l + length s - length s)%nat with (length l) by lia.
  rewrite skipn_app, skipn_all, Nat.sub_diag. reflexivity.
Qed.

Lemma drop_last_2 (l : list Z) (a b : Z) : drop_last 2 (l ++ [a; b]) = l.
Proof. exact (drop_last_app l [a; b]). Qed.

Lemma drop_last_3 (l : list Z) (a b c : Z) :
  drop_last 3 (l ++ [a; b; c]) = l.
Proof. exact (drop_last_app l [a; b; c]). Qed.

Lemma take_last_2 (l : list Z) (a b : Z) :
  take_last 2 (l ++ [a; b]) = [a; b].
Proof. exact (take_last_app l [a; b]). Qed.

Lemma tuple_eqb_refl (s : list Z) : tuple_eqb s s = true.
Proof.
  induction s as [|a s IH]; simpl; [reflexivity|].
  now rewrite Z.eqb_refl, IH.
Qed.

Lemma zeros_Ok (s : list Z) (d : scalar_type) :
  Forall (fun n => 0 <= n) s -> zeros s d = Ok {| shape := s; dtype := d |}.
Proof.
  intros H. unfold zeros.
  replace (forallb (fun n => 0 <=? n) s) with true; [reflexivity|].
  symmetry. apply forallb_forall. intros n Hn.
  rewrite Forall_forall in H. apply Z.leb_le. auto.
Qed.

Lemma zeros_inv (s : list Z) (d : scalar_type) (a : ndarray) :
  zeros s d = Ok a -> a = {| shape := s; dtype := d |}.
Proof.
  unfold zeros. destruct (forallb _ s); [|discriminate]. congruence.
Qed.

Ltac invert_binds H :=
  repeat match type of H with
    | bind ?c _ = Ok _ =>
        let a := fresh "a" in
        let E := fresh "E" in
        destruct c as [a|] eqn:E; cbn [bind] in H; [|discriminate H]
    end.

Variable launch :
  kernel -> Z * Z * Z -> Z -> list ndarray -> list Z -> result unit.
Variable max_threads_per_block : kernel -> Z.

(** C3, the part that fails: a call that supplies neither the buffer nor
    a patch width reads the shape of [None] and raises. *)
Lemma fwd_default_width_raises :
  fwd (fun _ _ _ _ _ => Ok tt) (fun _ => 1024)
    {| shape := [8; 8]; dtype := complex64 |}
    {| shape := [3; 2]; dtype := float32 |}
    None 0 0 0 1
  = Raise AttributeError.
Proof. reflexivity. Qed.

(** C3, as the code has it: without a buffer and with the default patch
    width 0 the call raises before anything is allocated; without a
    buffer, whatever [Patch.fwd] returns is a complex64 array of shape
    (leading dimensions of positions, N * nrepeat, patch_width,
    patch_width) with a nonzero patch width; and such a buffer is
    returned whenever the patch width is positive, nrepeat is not
    negative, images and positions have the asserted shapes and dtypes,
    and the kernel launch completes. *)
Theorem fwd_without_buffer
    (images positions : ndarray) (patch_width height width nrepeat : Z) :
  fwd launch max_threads_per_block images positions None 0
      height width nrepeat = Raise AttributeError
  /\
  (forall r,
      fwd launch max_threads_per_block images positions None patch_width
          height width nrepeat = Ok r ->
      patch_width <> 0 /\
      exists n, from_end (shape positions) 2 = Ok n /\
        shape r = drop_last 2 (shape positions)
                    ++ [n * nrepeat; patch_width; patch_width] /\
        dtype r = complex64)
  /\
  (forall (lead : list Z) (n h w : Z),
      0 < patch_width -> 0 <= nrepeat -> 0 <= n ->
      Forall (fun d => 0 <= d) lead ->
      shape positions = lead ++ [n; 2] ->
      shape images = lead ++ [h; w] ->
      dtype images = complex64 ->
      dtype positions = float32 ->
      let buffer :=
        {| shape := lead ++ [n * nrepeat; patch_width; patch_width];
           dtype := complex64 |} in
      launch _fwd_patch (n, prod lead, patch_width)
        (Z.min (_next_power_two patch_width)
           (max_threads_per_block _fwd_patch))
        [images; buffer; positions]
        [prod lead; h; w; n; nrepeat; patch_width; patch_width] = Ok tt ->
      fwd launch max_threads_per_block images positions None patch_width
          height width nrepeat = Ok buffer).
Proof.
  split; [reflexivity|]. split.
  - intros r H. unfold fwd in H.
    destruct (patch_width =? 0) eqn:Epw; [discriminate H|].
    apply Z.eqb_neq in Epw. split; [assumption|].
    cbn [bind] in H.
    destruct (from_end (shape positions) 2) as [n|] eqn:En;
      [|discriminate H].
    exists n. split; [reflexivity|].
    cbn [bind] in H.
    destruct (zeros _ complex64) as [buf|] eqn:Ez; [|discriminate H].
    apply zeros_inv in Ez. cbn [bind] in H.
    invert_binds H. injection H as <-. subst buf. simpl. auto.
  - intros lead n h w Hpw Hrep Hn Hlead Hpos Himg Hdi Hdp buffer Hlaunch.
    unfold fwd.
    replace (patch_width =? 0) with false by (symmetry; apply Z.eqb_neq; lia).
    cbn [bind]. rewrite Hpos.
    rewrite from_end_2. cbn [bind].
    rewrite drop_last_2.
    rewrite zeros_Ok.
    2:{ apply Forall_app. split; [assumption|].
        repeat constructor; nia. }
    fold buffer. cbn [bind]. unfold buffer at 1 2 3. cbn [shape dtype].
    rewrite from_end_1_of_3. cbn [bind].
    rewrite Z.leb_refl. cbn [assert_ bind].
    rewrite Himg, drop_last_2, tuple_eqb_refl.
    cbn [assert_ bind].
    rewrite drop_last_3.
    rewrite tuple_eqb_refl. cbn [assert_ bind].
    rewrite from_end_3. cbn [bind]. rewrite Z.eqb_refl. cbn [assert_ bind].
    rewrite from_end_1_of_2. cbn [bind]. rewrite Z.eqb_refl.
    cbn [assert_ bind].
    rewrite Hdi, Hdp. cbn [scalar_type_eqb assert_ bind].
    rewrite take_last_2. cbn [app].
    fold buffer. rewrite Hlaunch. reflexivity.
Qed.

(** C10, the part that fails: with no patches at all (K = 0) the call is
    rejected by the modulo inside the assertion, a ZeroDivisionError, and
    not by a failed assertion. *)
Lemma adj_without_patches_raises_zero_division :
  adj (fun _ _ _ _ _ => Ok tt) (fun _ => 1024)
    {| shape := [0; 2]; dtype := float32 |}
    {| shape := [0; 4; 4]; dtype := complex64 |}
    None 0 8 8 1
  = Raise ZeroDivisionError.
Proof. reflexivity. Qed.

(** C10, as the code has it: whatever [Patch.adj] returns, the patches
    were square, and the patch count K was nonzero, at least nrepeat and
    a divisor of N * nrepeat.  Conversely, on a call whose earlier checks
    pass (positions of shape (leading, N, 2), patches of shape (leading,
    K, p2, p1) no narrower than the patch width, images of shape
    (leading, H, W)) and which violates one of the three conditions, the
    kernel is never launched: the call fails an assertion when K is not
    0, and raises ZeroDivisionError when K is 0. *)
Theorem adj_requirements
    (positions patches : ndarray) (images : option ndarray)
    (patch_width height width nrepeat : Z) :
  (forall r,
      adj launch max_threads_per_block positions patches images patch_width
          height width nrepeat = Ok r ->
      exists N K p1 p2,
        from_end (shape positions) 2 = Ok N /\
        from_end (shape patches) 3 = Ok K /\
        from_end (shape patches) 1 = Ok p1 /\
        from_end (shape patches) 2 = Ok p2 /\
        p1 = p2 /\ nrepeat <= K /\ K <> 0 /\ (N * nrepeat) mod K = 0)
  /\
  (forall (lead : list Z) (N K p1 p2 H W : Z) (img : ndarray),
      shape positions = lead ++ [N; 2] ->
      shape patches = lead ++ [K; p2; p1] ->
      (if patch_width =? 0 then p1 else patch_width) <= p1 ->
      (images = Some img \/
       images = None /\ 0 <= height /\ 0 <= width /\
       Forall (fun d => 0 <= d) lead /\
       img = {| shape := lead ++ [height; width]; dtype := complex64 |}) ->
      shape img = lead ++ [H; W] ->
      ~ (p1 = p2 /\ nrepeat <= K /\ (N * nrepeat) mod K = 0) ->
      (K <> 0 ->
       adj launch max_threads_per_block positions patches images
           patch_width height width nrepeat = Raise AssertionError) /\
      (K = 0 ->
       adj launch max_threads_per_block positions patches images
           patch_width height width nrepeat = Raise ZeroDivisionError)).
Proof.
  split.
  - intros r Hr. unfold adj in Hr.
    invert_binds Hr.
    match goal with
    | E : py_mod _ _ = Ok _ |- _ => unfold py_mod in E
    end.
    repeat match goal with
    | E : assert_ _ = Ok _ |- _ => apply assert_Ok_inv in E
    end.
    match goal with
    | E : from_end (shape positions) 2 = Ok ?n,
      E3 : from_end (shape patches) 3 = Ok ?k,
      E1 : from_end (shape patches) 1 = Ok ?q1,
      E2 : from_end (shape patches) 2 = Ok ?q2,
      Em : (if ?k =? 0 then _ else _) = Ok ?m,
      Ea : (?m =? 0) && (nrepeat <=? ?k) = true,
      Es : (?q1 =? ?q2) = true |- _ =>
        exists n, k, q1, q2;
        destruct (k =? 0) eqn:Ek; [discriminate Em|];
        injection Em as <-;
        apply andb_prop in Ea; destruct Ea as [Ea1 Ea2];
        apply Z.eqb_neq in Ek; apply Z.eqb_eq in Ea1, Es;
        apply Z.leb_le in Ea2; auto 10
    end.
  - intros lead N K p1 p2 H W img Hpos Hpat Hpw Himages Himg Hviol.
    assert (Hhead :
      adj launch max_threads_per_block positions patches images
          patch_width height width nrepeat =
      (r <- py_mod (N * nrepeat) K ;;
       assert_ ((r =? 0) && (nrepeat <=? K)) ;;;
       assert_ (p1 =? p2) ;;;
       assert_ (scalar_type_eqb (dtype img) complex64) ;;;
       assert_ (scalar_type_eqb (dtype patches) complex64) ;;;
       assert_ (scalar_type_eqb (dtype positions) float32) ;;;
       launch _adj_patch
         (N, prod lead, if patch_width =? 0 then p1 else patch_width)
         (Z.min
            (_next_power_two (if patch_width =? 0 then p1 else patch_width))
            (max_threads_per_block _adj_patch))
         [img; patches; positions]
         [prod lead; H; W; N; nrepeat;
          if patch_width =? 0 then p1 else patch_width; p1; K] ;;;
       Ok img)).
    { unfold adj. rewrite Hpat, Hpos, from_end_1_of_3.
      assert (Hw : (if patch_width =? 0 then Ok p1 else Ok patch_width)
                   = Ok (if patch_width =? 0 then p1 else patch_width))
        by (destruct (patch_width =? 0); reflexivity).
      rewrite Hw. cbn [bind].
      replace ((if patch_width =? 0 then p1 else patch_width) <=? p1)
        with true by (symmetry; apply Z.leb_le; assumption).
      cbn [assert_ bind]. rewrite drop_last_2.
      assert (Hres :
        match images with
        | Some i => Ok i
        | None => zeros (lead ++ [height; width]) complex64
        end = Ok img).
      { destruct Himages as [-> | (-> & Hh & Hwd & Hlead & ->)];
          [reflexivity|].
        apply zeros_Ok, Forall_app. split; [assumption|].
        repeat constructor; assumption. }
      rewrite Hres. cbn [bind]. rewrite Himg, take_last_2, drop_last_2.
      cbn [bind fst snd]. rewrite tuple_eqb_refl. cbn [assert_ bind].
      rewrite from_end_2, from_end_1_of_2. cbn [bind].
      rewrite Z.eqb_refl. cbn [assert_ bind].
      rewrite drop_last_3, tuple_eqb_refl. cbn [assert_ bind].
      rewrite from_end_3, from_end_2_of_3. cbn [bind]. reflexivity. }
    rewrite Hhead. unfold py_mod. split.
    + intros HK. replace (K =? 0) with false
        by (symmetry; apply Z.eqb_neq; assumption).
      cbn [bind].
      destruct ((N * nrepeat) mod K =? 0) eqn:Em; [|reflexivity].
      destruct (nrepeat <=? K) eqn:Er; [|reflexivity].
      cbn [andb assert_ bind].
      destruct (p1 =? p2) eqn:Es; [|reflexivity].
      exfalso. apply Hviol.
      apply Z.eqb_eq in Em, Es. apply Z.leb_le in Er. auto.
    + intros ->. reflexivity.
Qed.

End PatchOperator.

(** A call without a buffer on three positions, two repeats and patch
    width 4: the returned buffer has shape (6, 4, 4). *)
Lemma fwd_without_buffer_witness :
  Patch.fwd (fun _ _ _ _ _ => Py.Ok tt) (fun _ => 1024%Z)
    {| Patch.shape := [8; 8]%Z; Patch.dtype := Patch.complex64 |}
    {| Patch.shape := [3; 2]%Z; Patch.dtype := Patch.float32 |}
    None 4%Z 0%Z 0%Z 2%Z
  = Py.Ok {| Patch.shape := [6; 4; 4]%Z; Patch.dtype := Patch.complex64 |}.
Proof.
  destruct (fwd_without_buffer (fun _ _ _ _ _ => Py.Ok tt) (fun _ => 1024%Z)
           {| Patch.shape := [8; 8]%Z; Patch.dtype := Patch.complex64 |}
           {| Patch.shape := [3; 2]%Z; Patch.dtype := Patch.float32 |}
           4%Z 0%Z 0%Z 2%Z) as [_ [_ Hreturns]].
  apply (Hreturns [] 3%Z 8%Z 8%Z); try reflexivity; try lia.
  constructor.
Defined.

(** Three positions against a stack of two non-square patches: the call
    fails an assertion. *)
Lemma adj_requirements_witness :
  Patch.adj (fun _ _ _ _ _ => Py.Ok tt) (fun _ => 1024%Z)
    {| Patch.shape := [3; 2]%Z; Patch.dtype := Patch.float32 |}
    {| Patch.shape := [2; 5; 4]%Z; Patch.dtype := Patch.complex64 |}
    None 0%Z 8%Z 8%Z 1%Z
  = Py.Raise Py.AssertionError.
Proof.
  destruct (adj_requirements (fun _ _ _ _ _ => Py.Ok tt) (fun _ => 1024%Z)
           {| Patch.shape := [3; 2]%Z; Patch.dtype := Patch.float32 |}
           {| Patch.shape := [2; 5; 4]%Z; Patch.dtype := Patch.complex64 |}
           None 0%Z 8%Z 8%Z 1%Z) as [_ Hrejects].
  apply (Hrejects [] 3%Z 2%Z 4%Z 5%Z 8%Z 8%Z
           {| Patch.shape := [8; 8]%Z; Patch.dtype := Patch.complex64 |});
    try reflexivity; try (simpl; lia).
  right. repeat split; try lia. constructor.
Defined.

(** ** ptycho/probe.py: constraints on the probe and on the weights *)

Section ProbeConstraints.

Import Py Arr Probe ProbeSpec.
Open Scope R_scope.

Lemma Reqb_true (x y : R) : Reqb x y = true <-> x = y.
Proof. unfold Reqb. destruct (Req_dec_T x y); split; congruence. Qed.

Lemma Reqb_false (x y : R) : Reqb x y = false <-> x <> y.
Proof. unfold Reqb. destruct (Req_dec_T x y); split; congruence. Qed.

Lemma sign_pos (x : R) : 0 < x -> sign x = 1.
Proof. intros H. unfold sign. destruct (Rlt_dec 0 x); [reflexivity | lra]. Qed.

Lemma sign_neg (x : R) : x < 0 -> sign x = -1.
Proof.
  intros H. unfold sign. destruct (Rlt_dec 0 x); [lra|].
  destruct (Rlt_dec x 0); [reflexivity | lra].
Qed.

Lemma sign_zero : sign 0 = 0.
Proof.
  unfold sign. destruct (Rlt_dec 0 0); [lra|]. reflexivity.
Qed.

Lemma percentile_sorted_95_of_21 (l : list R) :
  length l = 21%nat -> percentile_sorted 95 l = nth 19 l 0.
Proof.
  intros Hl. unfold percentile_sorted. rewrite Hl.
  change (21 - 1)%nat with 20%nat.
  assert (Hh : 95 / 100 * INR 20 = IZR 19).
  { rewrite (INR_IZR_INZ 20). change (Z.of_nat 20) with 20%Z. lra. }
  rewrite Hh.
  assert (Hi : Int_part (IZR 19) = 19%Z).
  { symmetry. apply Int_part_spec. lra. }
  rewrite Hi. change (Z.to_nat 19) with 19%nat.
  rewrite (INR_IZR_INZ 19). change (Z.of_nat 19) with 19%Z. ring.
Qed.

Lemma one_outlier_percentile (inlier outlier : R) :
  percentile_sorted 95
    (map (fun p => Rabs (wval (one_outlier inlier outlier) 0 p 0 0))
       (seq 0 (wposi (one_outlier inlier outlier))))
  = Rabs inlier.
Proof.
  rewrite percentile_sorted_95_of_21
    by (rewrite length_map, length_seq; reflexivity).
  reflexivity.
Qed.

(** C9, the part that fails: 21 positions whose weights are 0 except the
    last, which is 5.  The magnitudes 0, ..., 0, 5 are in ascending
    order and their 95th percentile, with linear interpolation the
    entry at index 0.95 * 20 = 19, is 0; the weight 5 is returned as
    min(5, 1.5 * 0) * sign(5) = 0, which has not the sign of 5. *)
Lemma clipping_at_zero_percentile_loses_sign :
  exists weights',
    constrain_variable_probe unit (fun u => u) percentile_sorted tt
      (one_outlier 0 5) = (tt, [weights']) /\
    percentile_sorted 95
      (map (fun p => Rabs (wval (one_outlier 0 5) 0 p 0 0))
         (seq 0 (wposi (one_outlier 0 5)))) = 0 /\
    wval (one_outlier 0 5) 0 20 0 0 = 5 /\
    wval weights' 0 20 0 0 = 0 /\
    sign (wval weights' 0 20 0 0) <> sign (wval (one_outlier 0 5) 0 20 0 0).
Proof.
  pose proof (one_outlier_percentile 0 5) as HP. rewrite Rabs_R0 in HP.
  eexists. split; [reflexivity|]. split; [exact HP|].
  split; [reflexivity|].
  assert (Ho : Rmin (Rabs 5)
                 (3 / 2 * percentile_sorted 95
                            (aevol_column (one_outlier 0 5) 0 0 0))
               * sign 5 = 0).
  { unfold aevol_column. rewrite HP.
    rewrite Rmin_right by (rewrite Rabs_pos_eq; lra). ring. }
  cbn [wval one_outlier Nat.eqb]. split; [exact Ho|]. rewrite Ho.
  rewrite sign_zero, (sign_pos 5) by lra. lra.
Qed.

(** C9, as the code has it: [constrain_variable_probe] returns the
    orthogonalised probe and one array of weights (a single slice along
    the new first axis), of the dimensions of the input.  With P95 the
    95th percentile of the magnitudes along the position axis of the
    column of a weight [w], which as a percentile of magnitudes is not
    negative, the returned weight [o] is the sign of [w] times the
    smaller of its magnitude and 1.5 * P95: its magnitude is at most
    1.5 * P95 and at most that of [w], it is its own magnitude times
    the sign of [w] and never has the opposite sign; it has the very
    sign of [w] when P95 is positive, and it is 0 when P95 is 0. *)
Theorem constrain_variable_probe_clips
    (probe_array : Type) (orthogonalize_gs : probe_array -> probe_array)
    (percentile : R -> list R -> R)
    (variable_probe : probe_array) (weights : weights_array)
    (b p e s : nat) :
  let P95 :=
    percentile 95
      (map (fun p' => Rabs (wval weights b p' e s))
         (seq 0 (wposi weights))) in
  let w := wval weights b p e s in
  0 <= P95 ->
  exists weights',
    constrain_variable_probe probe_array orthogonalize_gs percentile
      variable_probe weights
    = (orthogonalize_gs variable_probe, [weights']) /\
    (wlead weights', wposi weights', weigen weights', wshared weights') =
    (wlead weights, wposi weights, weigen weights, wshared weights) /\
    let o := wval weights' b p e s in
    o = sign w * Rmin (Rabs w) (3 / 2 * P95) /\
    Rabs o <= 3 / 2 * P95 /\
    Rabs o <= Rabs w /\
    o = sign w * Rabs o /\
    0 <= o * w /\
    (0 < P95 -> sign o = sign w) /\
    (P95 = 0 -> o = 0).
Proof.
  intros P95 w HP. eexists. split; [reflexivity|]. split; [reflexivity|].
  cbn [wval]. unfold aevol_column. fold w. fold P95.
  assert (Hmin : Rmin (Rabs w) (3 / 2 * P95) <= 3 / 2 * P95)
    by apply Rmin_r.
  assert (Hminl : Rmin (Rabs w) (3 / 2 * P95) <= Rabs w) by apply Rmin_l.
  assert (Hpos : 0 <= Rmin (Rabs w) (3 / 2 * P95)).
  { apply Rmin_glb; [apply Rabs_pos | lra]. }
  assert (Hspos : 0 < P95 -> w <> 0 -> 0 < Rmin (Rabs w) (3 / 2 * P95)).
  { intros HP' Hw. apply Rmin_glb_lt; [now apply Rabs_pos_lt | lra]. }
  assert (Hzero : P95 = 0 -> Rmin (Rabs w) (3 / 2 * P95) = 0).
  { intros E. rewrite E, Rmult_0_r. apply Rmin_right, Rabs_pos. }
  set (mn := Rmin (Rabs w) (3 / 2 * P95)) in *.
  destruct (Rtotal_order w 0) as [Hw | [Hw | Hw]].
  - rewrite (sign_neg w Hw).
    assert (Ha : Rabs (mn * -1) = mn) by (rewrite Rabs_left1; lra).
    rewrite Ha.
    split; [ring|]. split; [lra|]. split; [lra|]. split; [ring|].
    split; [nra|]. split.
    + intros HP'. apply sign_neg.
      assert (0 < mn) by (apply Hspos; lra). lra.
    + intros E. rewrite (Hzero E). ring.
  - assert (Hm0 : mn = 0).
    { apply Rle_antisym; [|exact Hpos].
      rewrite Hw, Rabs_R0 in Hminl. exact Hminl. }
    rewrite Hm0, Hw, sign_zero, !Rmult_0_l, Rabs_R0.
    split; [ring|]. split; [lra|]. split; [lra|]. split; [ring|].
    split; [lra|]. split.
    + intros _. apply sign_zero.
    + intros _. reflexivity.
  - rewrite (sign_pos w Hw).
    assert (Ha : Rabs (mn * 1) = mn) by (rewrite Rabs_pos_eq; lra).
    rewrite Ha.
    split; [ring|]. split; [lra|]. split; [lra|]. split; [ring|].
    split; [nra|]. split.
    + intros HP'. apply sign_pos.
      assert (0 < mn) by (apply Hspos; lra). lra.
    + intros E. rewrite (Hzero E). ring.
Qed.

(** Weights 1 at 20 positions and -100 at the last: P95 is 1, and the
    outlier is returned with a magnitude of at most 1.5 and its sign. *)
Lemma constrain_variable_probe_clips_witness :
  exists weights',
    constrain_variable_probe unit (fun u => u) percentile_sorted tt
      (one_outlier 1 (-100)) = (tt, [weights']) /\
    Rabs (wval weights' 0 20 0 0) <= 3 / 2 * 1 /\
    sign (wval weights' 0 20 0 0) = sign (-100).
Proof.
  pose proof (one_outlier_percentile 1 (-100)) as HP.
  rewrite Rabs_R1 in HP.
  destruct (constrain_variable_probe_clips unit (fun u => u)
              percentile_sorted tt (one_outlier 1 (-100)) 0 20 0 0)
    as (weights' & Hres & _ & _ & Hmag & _ & _ & _ & Hsign & _).
  - rewrite HP. lra.
  - exists weights'. split; [exact Hres|]. rewrite HP in Hmag, Hsign.
    split; [exact Hmag|]. apply Hsign. lra.
Defined.

Lemma filter_length_orb {A : Type} (a b : A -> bool) (l : list A) :
  (length (filter (fun x => a x || b x) l)
   <= length (filter a l) + length (filter b l))%nat.
Proof.
  induction l as [|x l IH]; simpl; [lia|].
  destruct (a x), (b x); simpl; lia.
Qed.

Lemma filter_length_mono {A : Type} (a b : A -> bool) (l : list A) :
  (forall x, a x = true -> b x = true) ->
  (length (filter a l) <= length (filter b l))%nat.
Proof.
  intros Hab. induction l as [|x l IH]; simpl; [lia|].
  destruct (a x) eqn:Ea.
  - rewrite (Hab x Ea). simpl. lia.
  - destruct (b x); simpl; lia.
Qed.

Lemma filter_length_selected (sel l : list nat) :
  NoDup sel -> NoDup l -> incl sel l ->
  length (filter (fun q => existsb (Nat.eqb q) sel) l) = length sel.
Proof.
  intros Hsel Hl Hincl. apply Permutation_length, NoDup_Permutation.
  - now apply NoDup_filter.
  - assumption.
  - intros x. rewrite filter_In, existsb_exists. split.
    + intros [_ [y [Hy Hxy]]]. apply Nat.eqb_eq in Hxy. now subst.
    + intros Hx. split; [now apply Hincl|].
      exists x. split; [assumption | apply Nat.eqb_refl].
Qed.

Lemma NoDup_firstn {A : Type} (n : nat) (l : list A) :
  NoDup l -> NoDup (firstn n l).
Proof.
  intros H. rewrite <- (firstn_skipn n l) in H.
  now apply NoDup_app_remove_r in H.
Qed.

Lemma incl_firstn {A : Type} (n : nat) (l : list A) : incl (firstn n l) l.
Proof.
  intros x Hx. rewrite <- (firstn_skipn n l). apply in_or_app. now left.
Qed.

Lemma Int_part_bounds (x : R) :
  IZR (Int_part x) <= x < IZR (Int_part x) + 1.
Proof. destruct (base_Int_part x). lra. Qed.

Lemma Int_part_nonneg (x : R) : 0 <= x -> (0 <= Int_part x)%Z.
Proof.
  intros Hx. destruct (Int_part_bounds x) as [_ Hu].
  assert (H : -1 < IZR (Int_part x)) by lra.
  apply lt_IZR in H. lia.
Qed.

(** What the assignment of zeros does to the test [zero_pixel]. *)
Lemma zero_pixel_after (probe : probe_stack) (sel : list nat) (q : nat) :
  zero_pixel
    {| pstack := pstack probe; prows := prows probe; pcols := pcols probe;
       pval := fun t q =>
         if existsb (Nat.eqb q) sel then C0 else pval probe t q |} q
  = (existsb (Nat.eqb q) sel || zero_pixel probe q)%bool
  \/ (pstack probe = 0%nat /\ zero_pixel probe q = true /\
      zero_pixel
        {| pstack := pstack probe; prows := prows probe;
           pcols := pcols probe;
           pval := fun t q =>
             if existsb (Nat.eqb q) sel then C0 else pval probe t q |} q
      = true).
Proof.
  unfold zero_pixel. cbn [pstack pval].
  destruct (existsb (Nat.eqb q) sel) eqn:E.
  - left. simpl. apply forallb_forall. intros t _.
    unfold Czerob, C0. simpl. now rewrite (proj2 (Reqb_true 0 0) eq_refl).
  - left. reflexivity.
Qed.

(** C8, where the code leaves its documentation: a single image of two
    pixels, both equal to 1, and [f = 1/4].  A smoothing filter leaves
    the constant intensity as it is and every ordering of the two equal
    pixels is a partition; exactly one pixel is set to zero, fewer than
    the (1 - f) * 2 = 1.5 of the claimed lower bound, and one of the two
    pixels stays nonzero, a proportion 1/2 above the [f = 1/4] that the
    docstring gives as the largest proportion of nonzero elements. *)
Lemma sparsity_zero_count_below_fraction :
  exists probe',
    constrain_probe_sparsity
      (fun _ img _ => img) (fun a _ => seq 0 (length a))
      {| pstack := 1; prows := 1; pcols := 2; pval := fun _ _ => C1 |}
      (1 / 4) = Ok probe' /\
    count_zero probe' = 1%nat /\
    INR (count_zero probe') < (1 - 1 / 4) * INR 2 * INR 1 /\
    1 / 4 * INR (1 * 2) < INR (1 * 2 - count_zero probe').
Proof.
  assert (Hk : Int_part ((1 - 1 / 4) * INR 2 * INR 1) = 1%Z).
  { assert (Hb := Int_part_bounds ((1 - 1 / 4) * INR 2 * INR 1)).
    simpl in Hb.
    assert (H1 : IZR (Int_part ((1 - 1 / 4) * (1 + 1) * 1)) < 2) by lra.
    assert (H2 : 0 < IZR (Int_part ((1 - 1 / 4) * (1 + 1) * 1))) by lra.
    apply lt_IZR in H1, H2. simpl. lia. }
  unfold constrain_probe_sparsity.
  rewrite (proj2 (Reqb_false (1 / 4) 1)) by lra.
  cbn [prows pcols pstack pval Nat.mul Nat.add Nat.eqb].
  unfold py_int. destruct (Rle_dec 0 _) as [_|Hn]; [|simpl in Hn; lra].
  rewrite Hk. cbn -[INR]. eexists. split; [reflexivity|].
  match goal with
  | |- count_zero ?r = _ /\ _ => assert (Hc : count_zero r = 1%nat)
  end.
  { unfold count_zero, zero_pixel, Czerob, C0, C1. simpl.
    rewrite (proj2 (Reqb_true 0 0) eq_refl).
    rewrite (proj2 (Reqb_false 1 0)) by lra. reflexivity. }
  split; [exact Hc|]. rewrite Hc. simpl. split; lra.
Qed.

(** What the code does instead: for [0 < f <= 1] on a probe with at least
    one pixel, with a filter that keeps the number of pixels and a
    partition routine that returns a permutation of the flat indices,
    [constrain_probe_sparsity] returns a probe of the same dimensions in
    which the number of pixel coordinates that are zero across all modes
    is at least [k], the integer part of (1 - f) * width * height, and at
    most [k] plus the number of such coordinates in the input. *)
Theorem constrain_probe_sparsity_zero_count
    (gaussian_filter : nat * nat -> list R -> R * R -> list R)
    (argpartition : list R -> nat -> list nat)
    (probe : probe_stack) (f : R) :
  0 < f <= 1 ->
  (0 < prows probe * pcols probe)%nat ->
  (forall shape img sigma,
      length (gaussian_filter shape img sigma) = length img) ->
  (forall a kth, (kth < length a)%nat ->
      Permutation (argpartition a kth) (seq 0 (length a))) ->
  let k := Int_part ((1 - f) * INR (pcols probe) * INR (prows probe)) in
  exists probe',
    constrain_probe_sparsity gaussian_filter argpartition probe f
      = Ok probe' /\
    (pstack probe', prows probe', pcols probe') =
    (pstack probe, prows probe, pcols probe) /\
    IZR k <= (1 - f) * INR (pcols probe) * INR (prows probe) < IZR k + 1 /\
    (Z.to_nat k <= count_zero probe' <= Z.to_nat k + count_zero probe)%nat.
Proof.
  intros [Hf0 Hf1] Hpix Hfilter Hpart k.
  set (x := (1 - f) * INR (pcols probe) * INR (prows probe)) in *.
  set (n := (prows probe * pcols probe)%nat) in *.
  assert (Hn : 0 < INR n) by (apply lt_0_INR; exact Hpix).
  assert (Hxn : x = (1 - f) * INR n).
  { unfold x, n. rewrite mult_INR. ring. }
  assert (Hx0 : 0 <= x) by (rewrite Hxn; nra).
  assert (Hxlt : x < INR n) by (rewrite Hxn; nra).
  assert (Hkb := Int_part_bounds x). fold k in Hkb.
  assert (Hk0 : (0 <= k)%Z) by (apply Int_part_nonneg; exact Hx0).
  assert (Hkn : (k < Z.of_nat n)%Z).
  { apply lt_IZR. rewrite <- INR_IZR_INZ. lra. }
  unfold constrain_probe_sparsity.
  destruct (Reqb f 1) eqn:Ef.
  - apply Reqb_true in Ef. exists probe. split; [reflexivity|].
    split; [reflexivity|]. split; [exact Hkb|].
    assert (k = 0%Z).
    { assert (Hx : x = 0) by (rewrite Hxn, Ef; ring).
      rewrite Hx in Hkb.
      assert (H1 : IZR k < 1) by lra. assert (H2 : -1 < IZR k) by lra.
      apply lt_IZR in H1, H2. lia. }
    subst k. rewrite H. simpl. lia.
  - fold n. replace (n =? 0)%nat with false
      by (symmetry; apply Nat.eqb_neq; lia).
    set (intensity := gaussian_filter _ _ _).
    assert (Hlen : length intensity = n).
    { unfold intensity. rewrite Hfilter, length_map, length_seq.
      reflexivity. }
    fold x. unfold py_int.
    destruct (Rle_dec 0 x) as [_|Hneg]; [|contradiction].
    fold k. rewrite Hlen.
    replace ((k <? - Z.of_nat n) || (Z.of_nat n <=? k))%bool%Z with false.
    2:{ symmetry. apply orb_false_iff. split.
        - apply Z.ltb_ge. lia.
        - apply Z.leb_gt. lia. }
    replace (k <? 0)%Z with false by (symmetry; apply Z.ltb_ge; lia).
    unfold slice_to.
    replace (0 <=? k)%Z with true by (symmetry; apply Z.leb_le; lia).
    set (sel := firstn (Z.to_nat k) (argpartition intensity (Z.to_nat k))).
    eexists. split; [reflexivity|]. split; [reflexivity|].
    split; [exact Hkb|].
    assert (Hperm : Permutation (argpartition intensity (Z.to_nat k))
                      (seq 0 n)).
    { rewrite <- Hlen. apply Hpart. rewrite Hlen. lia. }
    assert (Hnd : NoDup sel).
    { apply NoDup_firstn.
      apply (Permutation_NoDup (Permutation_sym Hperm)), seq_NoDup. }
    assert (Hincl : incl sel (seq 0 n)).
    { intros q Hq. apply (Permutation_in _ Hperm).
      exact (incl_firstn _ _ q Hq). }
    assert (Hsz : length sel = Z.to_nat k).
    { unfold sel. apply firstn_length_le.
      rewrite (Permutation_length Hperm), length_seq. lia. }
    unfold count_zero at 1 2. cbn [prows pcols]. fold n.
    split.
    + rewrite <- Hsz.
      rewrite <- (filter_length_selected sel (seq 0 n) Hnd
                    (seq_NoDup n 0) Hincl).
      apply filter_length_mono. intros q Hq.
      destruct (zero_pixel_after probe sel q) as [-> | (_ & _ & ->)];
        [|reflexivity].
      now rewrite Hq.
    + rewrite <- Hsz.
      rewrite <- (filter_length_selected sel (seq 0 n) Hnd
                    (seq_NoDup n 0) Hincl).
      unfold count_zero. fold n.
      etransitivity; [|apply filter_length_orb].
      apply filter_length_mono. intros q Hq.
      destruct (zero_pixel_after probe sel q) as [E | (_ & E & _)].
      * now rewrite <- E.
      * rewrite E. apply orb_true_r.
Qed.

End ProbeConstraints.

(** A single image of four pixels equal to 1 and [f = 1/2]: two pixels
    are set to zero. *)
Lemma constrain_probe_sparsity_zero_count_witness :
  let probe := {| Probe.pstack := 1; Probe.prows := 2; Probe.pcols := 2;
                  Probe.pval := fun _ _ => Arr.C1 |} in
  let k := Int_part ((1 - 1 / 2) * INR 2 * INR 2) in
  exists probe',
    Probe.constrain_probe_sparsity
      (fun _ img _ => img) (fun a _ => seq 0 (length a)) probe (1 / 2)
      = Py.Ok probe' /\
    (Probe.pstack probe', Probe.prows probe', Probe.pcols probe') =
    (1%nat, 2%nat, 2%nat) /\
    (IZR k <= (1 - 1 / 2) * INR 2 * INR 2 < IZR k + 1)%R /\
    (Z.to_nat k <= ProbeSpec.count_zero probe'
     <= Z.to_nat k + ProbeSpec.count_zero probe)%nat.
Proof.
  apply (constrain_probe_sparsity_zero_count
           (fun _ img _ => img) (fun a _ => seq 0 (length a))
           {| Probe.pstack := 1; Probe.prows := 2; Probe.pcols := 2;
              Probe.pval := fun _ _ => Arr.C1 |} (1 / 2)%R).
  - lra.
  - simpl. lia.
  - reflexivity.
  - intros a kth _. apply Permutation_refl.
Defined.

(** ** ptycho/probe.py: the eigen-probe update *)

Section EigenProbeUpdate.

Import Py Arr Probe ProbeSpec.
Open Scope R_scope.


Lemma mapM_Ok_all {A B : Type} (f : A -> result B) (l : list A) :
  (forall x, In x l -> exists y, f x = Ok y) ->
  exists ys, mapM f l = Ok ys /\ length ys = length l.
Proof.
  induction l as [|a l IH]; intros H; simpl.
  - exists []. auto.
  - destruct (H a (or_introl eq_refl)) as [y ->].
    destruct IH as [ys [-> Hlen]]; [intros x Hx; apply H; now right|].
    exists (y :: ys). simpl. auto.
Qed.


Variable comm : Comm.
Variable mnorm : (nat -> nat -> C) -> R.
Variables lead wide high : nat.
Variable beta : R.
Variables c m : nat.

Lemma all_zero_norm_weights (w : worker) :
  forallb (fun b => Reqb (norm_weights c m w b) 0) (seq 0 lead) = true
  <-> forall b, (b < lead)%nat -> norm_weights c m w b = 0.
Proof.
  rewrite forallb_forall. split.
  - intros H b Hb. apply Reqb_true, H, in_seq. lia.
  - intros H b Hb. apply Reqb_true, H. apply in_seq in Hb. lia.
Qed.

Lemma get_update_Raise (w : worker) (e : exn) :
  _get_update lead wide high c m w = Raise e <->
  e = ValueError zero_weights_message /\
  forall b, (b < lead)%nat -> norm_weights c m w b = 0.
Proof.
  unfold _get_update.
  destruct (forallb _ (seq 0 lead)) eqn:E.
  - pose proof (proj1 (all_zero_norm_weights w) E) as Hz. split.
    + intros [= <-]. auto.
    + intros [-> _]. reflexivity.
  - split; [discriminate|]. intros [_ H].
    pose proof (proj2 (all_zero_norm_weights w) H). congruence.
Qed.

Lemma get_update_Ok_or_Raise (w : worker) :
  _get_update lead wide high c m w = Raise (ValueError zero_weights_message)
  \/ exists u, _get_update lead wide high c m w = Ok u.
Proof.
  unfold _get_update. destruct (forallb _ (seq 0 lead)); eauto.
Qed.




End EigenProbeUpdate.

Section EigenProbeWeights.

Import Py Arr Probe ProbeSpec.
Open Scope R_scope.

Lemma get_d_unfold mnorm lead wide high beta c m
    (w : worker) (u : update_array) :
  _get_d mnorm lead wide high beta c m w u =
  (assert_ (forallb (fun b => ufinite u b
                             && negb (Reqb (mnorm (uval u b)) 0)
                             && negb (Reqb (mnorm (moved_mode mnorm beta c m
                                                     w u b)) 0))
             (seq 0 lead)) ;;;
   Ok {| d_eigen_probe := fun b e s i j =>
           if ((e =? c - 1)%nat && (s =? m)%nat)%bool
           then normed_mode mnorm beta c m w u b i j
           else eigen_probe w b e s i j;
         d_n := fun b p =>
           mean_pixels wide high
             (fun i j => Cre (Cmul (diff w b p i j)
                (Cconj (Cmul (patches w b p i j)
                   (if ((c - 1 =? c - 1)%nat && (m =? m)%nat)%bool
                    then normed_mode mnorm beta c m w u b i j
                    else eigen_probe w b (c - 1)%nat m i j)))));
         d_d := fun b p =>
           mean_pixels wide high
             (fun i j => (Cabs (Cmul (patches w b p i j)
                   (if ((c - 1 =? c - 1)%nat && (m =? m)%nat)%bool
                    then normed_mode mnorm beta c m w u b i j
                    else eigen_probe w b (c - 1)%nat m i j))) ^ 2);
         d_d_mean := fun b =>
           mean_n (posi w) (fun p =>
           mean_pixels wide high
             (fun i j => (Cabs (Cmul (patches w b p i j)
                   (if ((c - 1 =? c - 1)%nat && (m =? m)%nat)%bool
                    then normed_mode mnorm beta c m w u b i j
                    else eigen_probe w b (c - 1)%nat m i j))) ^ 2)) |}).
Proof. reflexivity. Qed.

Lemma norm_two_positions (b : nat) : norm_weights 1 0 two_positions b = 2.
Proof.
  unfold norm_weights, sum_n, sum. simpl.
  replace (-1 * -1 + (1 * 1 + 0)) with 2 by lra.
  rewrite Rmult_1_r. apply sqrt_sqrt. lra.
Qed.

Lemma mean_pixels_1_1 (g : nat -> nat -> R) : mean_pixels 1 1 g = g 0%nat 0%nat.
Proof. unfold mean_pixels, sum_n, sum. simpl. field. Qed.

Lemma mean_n_2 (g : nat -> R) : mean_n 2 g = (g 0%nat + g 1%nat) / 2.
Proof. unfold mean_n, sum_n, sum. simpl. field. Qed.

Lemma mean_list_1 (x : R) : mean_list [x] = x.
Proof. unfold mean_list, sum. simpl. field. Qed.

Lemma mnorm_1_1 (f : nat -> nat -> C) :
  mnorm 1 1 f =
  sqrt (fst (f 0 0)%nat * fst (f 0 0)%nat
        + snd (f 0 0)%nat * snd (f 0 0)%nat).
Proof. unfold mnorm. now rewrite mean_pixels_1_1. Qed.

Lemma sqrt_of_square (x y : R) : 0 <= y -> x = y * y -> sqrt x = y.
Proof. intros Hy ->. now apply sqrt_square. Qed.

Lemma sum_map_minus_const (f : nat -> R) (k : R) (l : list nat) :
  sum (map (fun p => f p - k) l) = sum (map f l) - INR (length l) * k.
Proof.
  induction l as [|x l IH].
  - simpl. unfold sum. simpl. lra.
  - cbn [map length]. unfold sum in *. cbn [fold_right].
    rewrite IH, S_INR. lra.
Qed.

Lemma mean_n_centered (n : nat) (f : nat -> R) :
  (0 < n)%nat -> mean_n n (fun p => f p - mean_n n f) = 0.
Proof.
  intros Hn. unfold mean_n, sum_n.
  rewrite (sum_map_minus_const f), length_seq.
  assert (0 < INR n) by (apply lt_0_INR; exact Hn).
  field. lra.
Qed.

Lemma mean_n_zero (n : nat) : mean_n n (fun _ => 0) = 0.
Proof.
  unfold mean_n, sum_n. rewrite sum_zeros.
  - unfold Rdiv. apply Rmult_0_l.
  - apply Forall_forall. intros v Hv. apply in_map_iff in Hv.
    now destruct Hv as [x [<- _]].
Qed.

(** What [init_varying_probe] establishes: the zeroth row of the weights
    is 1, and every other row has mean zero over the positions. *)
Lemma init_varying_probe_weights
    (rand : nat -> nat -> nat -> nat -> R) (numpy_complex : eigen_array)
    (norm : (nat -> nat -> C) -> R) (lead posi nshared : nat)
    (num_eigen_probes probes_with_modes : Z) :
  (1 <= num_eigen_probes)%Z ->
  (probes_with_modes <= Z.of_nat nshared)%Z ->
  (0 < posi)%nat ->
  exists eigen w,
    init_varying_probe rand numpy_complex norm lead posi nshared
      num_eigen_probes probes_with_modes = Ok (eigen, Some w) /\
    wposi w = posi /\
    (forall b p s, wval w b p 0%nat s = 1) /\
    (forall b e s, (1 <= e)%nat -> column_mean posi (wval w) b e s = 0).
Proof.
  intros Hnum Hmodes Hposi. unfold init_varying_probe.
  replace (Z.of_nat nshared <? Z.max probes_with_modes 0)%Z with false
    by (symmetry; apply Z.ltb_ge; lia).
  replace (num_eigen_probes <? 1)%Z with false
    by (symmetry; apply Z.ltb_ge; lia).
  assert (Hw : forall b e s, (1 <= e)%nat ->
    column_mean posi
      (fun b p e s =>
         if ((1 <=? e)%nat && (Z.max probes_with_modes 0 <=? Z.of_nat s)%Z)%bool
         then 0
         else if (e =? 0)%nat then 1
         else / 10 ^ 6 * rand b p e s
              - mean_n posi (fun p' => / 10 ^ 6 * rand b p' e s)) b e s = 0).
  { intros b e s He. unfold column_mean.
    replace (1 <=? e)%nat with true by (symmetry; apply Nat.leb_le; lia).
    replace (e =? 0)%nat with false by (symmetry; apply Nat.eqb_neq; lia).
    cbn [andb].
    destruct (Z.max probes_with_modes 0 <=? Z.of_nat s)%Z.
    - apply mean_n_zero.
    - apply (mean_n_centered posi (fun p => / 10 ^ 6 * rand b p e s) Hposi). }
  destruct (num_eigen_probes =? 1)%Z; eexists; eexists;
    (split; [reflexivity|]); cbn [wposi wval];
    (split; [reflexivity|]); (split; [intros; reflexivity | exact Hw]).
Qed.

(** What [_get_weights_mean] does to the mean of the selected column. *)
Lemma get_weights_mean_column_mean (lead c m : nat)
    (n d : nat -> nat -> R) (d_mean : nat -> R) (w : worker)
    (w' : nat -> nat -> nat -> nat -> R) (b : nat) :
  _get_weights_mean lead c m n d d_mean w = Ok w' ->
  (0 < posi w)%nat ->
  column_mean (posi w) w' b c m =
  column_mean (posi w) (weights w) b c m
  + mean_n (posi w) (fun p => n b p / (d b p + / 10 * d_mean b)).
Proof.
  unfold _get_weights_mean. destruct (forallb _ (seq 0 lead)); [|discriminate].
  cbn [assert_ bind]. intros [= <-] Hposi.
  unfold column_mean, mean_n, sum_n. rewrite !Nat.eqb_refl. cbn [andb].
  assert (Hs : forall (f g : nat -> R) l,
    sum (map (fun p => f p + g p) l) = sum (map f l) + sum (map g l)).
  { intros f g l. induction l as [|x l IH]; unfold sum in *; simpl; [lra|].
    rewrite IH. lra. }
  rewrite Hs. assert (0 < INR (posi w)) by (apply lt_0_INR; exact Hposi).
  field. lra.
Qed.

(** C4, where the code leaves the invariant: one worker, two positions,
    images of one pixel, the second row of weights equal to -1 and 1 (of
    mean zero), everything else equal to 1, beta = 0.1, c = 1, m = 0 and
    no MPI.  The call returns weights whose second row has mean 10/11:
    the increment n / (d + 0.1 * d_mean) is added to every position and
    its mean is not removed. *)
Lemma update_eigen_probe_shifts_weights_mean : exists eigen w',
    update_eigen_probe single_node (mnorm 1 1) 1 1 1 (1 / 10) 1 0
      [two_positions] = Ok (eigen, [w']) /\
    column_mean 2 (weights two_positions) 0 1 0 = 0 /\
    column_mean 2 w' 0 1 0 = 10 / 11.
Proof.
  unfold update_eigen_probe.
  cbn [bind mapM length use_mpi single_node].
  unfold _get_update. cbn [seq forallb]. rewrite norm_two_positions.
  rewrite (proj2 (Reqb_false 2 0)) by lra. cbn [andb bind].
  match goal with
  | |- context [reduce_mean_update [?u]] => set (u0 := u)
  end.
  cbn [bcast repeat combine mapM fst snd].
  set (upd := reduce_mean_update [u0]).
  assert (Hu : forall b i j, uval upd b i j = (1 / 2, 0)).
  { intros b i j. unfold upd, reduce_mean_update, u0. cbn [uval map].
    rewrite !mean_list_1. unfold Cre, Cim. cbn [fst snd].
    rewrite !mean_n_2. unfold Cscale. cbn [fst snd].
    rewrite !mean_pixels_1_1, !norm_two_positions.
    unfold two_positions, C1, Cmul, Cconj, Cre. simpl. f_equal; field. }
  assert (Hfin : forall b, ufinite upd b = true).
  { intros b. unfold upd, reduce_mean_update, u0. cbn [ufinite forallb].
    rewrite norm_two_positions.
    now rewrite (proj2 (Reqb_false 2 0)) by lra. }
  assert (Hm1 : forall b, mnorm 1 1 (uval upd b) = 1 / 2).
  { intros b. rewrite mnorm_1_1, Hu. cbn [fst snd].
    apply sqrt_of_square; lra. }
  clearbody upd. clear u0.
  rewrite get_d_unfold.
  assert (Hmoved : forall b i j,
    moved_mode (mnorm 1 1) (1 / 10) 1 0 two_positions upd b i j = (11 / 10, 0)).
  { intros b i j. unfold moved_mode. rewrite Hu, Hm1.
    unfold Cadd, Cdiv_real, Cscale, two_positions, C1. simpl.
    f_equal; field. }
  assert (Hm2 : forall b,
    mnorm 1 1 (moved_mode (mnorm 1 1) (1 / 10) 1 0 two_positions upd b)
    = 11 / 10).
  { intros b. rewrite mnorm_1_1, Hmoved. cbn [fst snd].
    apply sqrt_of_square; lra. }
  assert (Hnormed : forall b i j,
    normed_mode (mnorm 1 1) (1 / 10) 1 0 two_positions upd b i j = C1).
  { intros b i j. unfold normed_mode. rewrite Hmoved, Hm2.
    unfold Cdiv_real, C1. simpl. f_equal; field. }
  cbn [seq forallb]. rewrite Hfin, Hm1, Hm2.
  rewrite (proj2 (Reqb_false (1 / 2) 0)) by lra.
  rewrite (proj2 (Reqb_false (11 / 10) 0)) by lra.
  cbn [andb negb assert_ bind map].
  match goal with
  | |- context [combine [?r] _] => set (r0 := r)
  end.
  assert (Hn : forall b p, d_n r0 b p = 1).
  { intros b p. unfold r0. cbn [d_n]. rewrite mean_pixels_1_1.
    rewrite !Nat.eqb_refl. cbn [andb]. rewrite Hnormed.
    unfold two_positions, C1, Cmul, Cconj, Cre. simpl. ring. }
  assert (Hd : forall b p, d_d r0 b p = 1).
  { intros b p. unfold r0. cbn [d_d]. rewrite mean_pixels_1_1.
    rewrite !Nat.eqb_refl. cbn [andb]. rewrite Hnormed.
    unfold two_positions, C1, Cmul, Cabs. simpl.
    rewrite (sqrt_of_square _ 1); lra. }
  assert (Hdm : forall b, reduce_mean_d_mean [d_d_mean r0] b = 1).
  { intros b. unfold reduce_mean_d_mean. cbn [map]. rewrite mean_list_1.
    unfold r0. cbn [d_d_mean]. rewrite mean_n_2.
    change ((d_d r0 b 0%nat + d_d r0 b 1%nat) / 2 = 1).
    rewrite !Hd. field. }
  clearbody r0.
  cbn [combine mapM fst snd]. unfold _get_weights_mean.
  cbn [seq forallb posi two_positions].
  rewrite !Hd, !Hdm.
  rewrite (proj2 (Reqb_false (1 + / 10 * 1) 0)) by lra.
  cbn [andb negb assert_ bind].
  eexists. eexists. split; [reflexivity|].
  unfold column_mean. rewrite !mean_n_2. cbn [Nat.eqb andb].
  rewrite !Hn, !Hd, !Hdm. simpl. split; field.
Qed.

End EigenProbeWeights.


(** ** ptycho/solvers/divided.py *)

Section DividedSolver.

Import Py Divided.
Open Scope R_scope.

Variable array : Type.
Variable conjugate_gradient :
  array_module array -> array -> (array -> result R) ->
  (array -> result array) -> Z -> result (array * R).
Variable direction_dy :
  array_module array -> array -> array -> array -> array.
Variable op : operator array.

(** the collaborators of the solver return *)
Hypothesis op_fwd_returns :
  forall a b c, exists r, op_fwd array op a b c = Ok r.
Hypothesis propagation_adj_returns :
  forall a, exists r, propagation_adj array op a = Ok r.
Hypothesis diffraction_fwd_returns :
  forall a b c, exists r, diffraction_fwd array op a b c = Ok r.
Hypothesis diffraction_patch_returns :
  forall a b c f, exists r, diffraction_patch array op a b c f = Ok r.
Hypothesis conjugate_gradient_returns :
  forall x a cost_function grad n,
  exists r, conjugate_gradient x a cost_function grad n = Ok r.

Ltac call_returns :=
  repeat match goal with
    | |- context [diffraction_fwd array op ?a ?b ?c] =>
        let r := fresh "r" in
        destruct (diffraction_fwd_returns a b c) as [r ->]; cbn [bind]
    | |- context [diffraction_patch array op ?a ?b ?c ?f] =>
        let r := fresh "r" in
        destruct (diffraction_patch_returns a b c f) as [r ->]; cbn [bind]
    end.

Lemma update_object_loop_returns nearplane probe scan norm_probe n :
  forall psi prev, exists r,
    update_object_loop array direction_dy op nearplane probe scan norm_probe
      n psi prev = Ok r.
Proof.
  induction n as [|n IH]; intros psi prev; cbn [update_object_loop].
  - eauto.
  - call_returns. apply IH.
Qed.

Lemma update_object_returns nearplane probe scan psi num_iter :
  exists r,
    update_object array direction_dy op nearplane probe scan psi num_iter
    = Ok r.
Proof.
  unfold update_object. call_returns.
  match goal with
  | |- context [update_object_loop ?a ?d ?o ?np ?p ?s ?nm ?n ?ps ?pv] =>
      destruct (update_object_loop_returns np p s nm n ps pv) as [r' ->]
  end.
  cbn [bind]. call_returns. eauto.
Qed.

Lemma update_probe_returns nearplane probe scan psi num_iter :
  exists r,
    update_probe array direction_dy op nearplane probe scan psi num_iter
    = Ok r.
Proof. unfold update_probe. call_returns. eauto. Qed.

End DividedSolver.

(** C6: whatever [divided] returns, the scan of the result is the scan it
    was given, for either value of [recover_positions]; with
    [recover_psi] off the object of the result is the object it was
    given, and with [recover_probe] off the probe of the result is the
    probe it was given.  And [divided] does return when the operator and
    the conjugate-gradient routine it calls return. *)
Theorem divided_leaves_scan_and_disabled_unknowns
    (array : Type)
    (conjugate_gradient :
       Divided.array_module array -> array -> (array -> Py.result R) ->
       (array -> Py.result array) -> Z -> Py.result (array * R))
    (direction_dy :
       Divided.array_module array -> array -> array -> array -> array)
    (op : Divided.operator array)
    (data probe scan psi : array)
    (recover_psi recover_probe recover_positions : bool) (cg_iter : Z) :
  (forall r,
      Divided.divided array conjugate_gradient direction_dy op data probe
        scan psi recover_psi recover_probe recover_positions cg_iter
      = Py.Ok r ->
      Divided.scan array r = scan /\
      (recover_psi = false -> Divided.psi array r = psi) /\
      (recover_probe = false -> Divided.probe array r = probe))
  /\
  ((forall a b c, exists r, Divided.op_fwd array op a b c = Py.Ok r) ->
   (forall a, exists r, Divided.propagation_adj array op a = Py.Ok r) ->
   (forall a b c, exists r, Divided.diffraction_fwd array op a b c = Py.Ok r) ->
   (forall a b c f, exists r,
       Divided.diffraction_patch array op a b c f = Py.Ok r) ->
   (forall x a cost_function grad n, exists r,
       conjugate_gradient x a cost_function grad n = Py.Ok r) ->
   exists r,
     Divided.divided array conjugate_gradient direction_dy op data probe
       scan psi recover_psi recover_probe recover_positions cg_iter
     = Py.Ok r).
Proof.
  split.
  - intros r H. unfold Divided.divided in H.
    destruct (Divided.op_fwd array op psi scan probe) as [far|];
      [|discriminate H].
    cbn [Py.bind] in H.
    destruct (Divided.update_phase array conjugate_gradient op data far
                cg_iter) as [fc|]; [|discriminate H].
    cbn [Py.bind] in H.
    destruct (Divided.propagation_adj array op (fst fc)) as [near|];
      [|discriminate H].
    cbn [Py.bind] in H.
    destruct recover_psi, recover_probe;
      repeat (cbn [Py.bind fst snd] in H;
              match type of H with
              | Py.bind ?c _ = Py.Ok _ =>
                  let E := fresh "E" in
                  destruct c eqn:E; [|discriminate H]
              end);
      cbn [Py.bind fst snd] in H;
      injection H as <-; cbn; repeat split; congruence.
  - intros Hfwd Hadj Hdfwd Hpatch Hcg. unfold Divided.divided.
    destruct (Hfwd psi scan probe) as [far ->]. cbn [Py.bind].
    unfold Divided.update_phase.
    match goal with
    | |- context [conjugate_gradient ?x ?a ?cf ?g ?n] =>
        destruct (Hcg x a cf g n) as [fc ->]
    end.
    cbn [Py.bind fst snd].
    destruct (Hadj (fst fc)) as [near ->]. cbn [Py.bind].
    assert (Hobj : exists pc,
      (if recover_psi
       then Divided.update_object array direction_dy op near probe scan psi
              cg_iter
       else Py.Ok (psi, snd fc)) = Py.Ok pc).
    { destruct recover_psi; [|eauto].
      now apply update_object_returns. }
    destruct Hobj as [pc ->]. cbn [Py.bind].
    assert (Hprobe : exists qc,
      (if recover_probe
       then Divided.update_probe array direction_dy op near probe scan
              (fst pc) cg_iter
       else Py.Ok (probe, snd pc)) = Py.Ok qc).
    { destruct recover_probe; [|eauto].
      now apply update_probe_returns. }
    destruct Hprobe as [qc ->]. cbn [Py.bind]. eauto.
Qed.

(** The integer operator with both recoveries off and position recovery
    requested: the call returns, and scan, object and probe come back
    as they were given. *)
Lemma divided_leaves_scan_and_disabled_unknowns_witness :
  exists r,
    Divided.divided Z Examples.no_step (fun _ _ g _ => g)
      Examples.integer_operator 5%Z 1%Z 2%Z 3%Z false false true 4%Z
    = Py.Ok r /\
    Divided.scan Z r = 2%Z /\ Divided.psi Z r = 3%Z /\
    Divided.probe Z r = 1%Z.
Proof.
  destruct (divided_leaves_scan_and_disabled_unknowns Z Examples.no_step
              (fun _ _ g _ => g) Examples.integer_operator
              5%Z 1%Z 2%Z 3%Z false false true 4%Z) as [Hframe Hreturns].
  destruct Hreturns as [r Hr]; try (intros; eexists; reflexivity).
  exists r. destruct (Hframe r Hr) as (Hs & Hpsi & Hprobe).
  repeat split; auto.
Defined.

(** ** ptycho/probe.py: orthogonalize_eig *)

Module EigProperties.

Import mathcomp.boot.boot mathcomp.order.order mathcomp.algebra.algebra.
Import mathcomp.field.algC.
Import GRing.Theory Num.Def Num.Theory.
Import Eig.
Local Open Scope ring_scope.

Section OrthogonalizeEig.

Variable C : numClosedFieldType.
Variables nmodes npixel : nat.
Variable eigh : 'M[C]_nmodes -> 'rV[C]_nmodes * 'M[C]_nmodes.
Variable empty : 'M[C]_nmodes.

Notation pairwise_dot := (pairwise_dot C nmodes npixel empty).
Notation orthogonalize_eig := (orthogonalize_eig C nmodes npixel eigh empty).
Notation lower_hermitian := (lower_hermitian C nmodes).
Notation gram := (gram C nmodes npixel).

Lemma lower_hermitian_pairwise x : lower_hermitian (pairwise_dot x) = gram x.
Proof.
apply/matrixP => i j; rewrite !mxE.
case: (leqP j i) => [//|ltij].
rewrite (ltnW ltij) rmorph_sum /=.
by apply: eq_bigr => k _; rewrite rmorphM /= conjCK mulrC.
Qed.

Lemma gram_mul x : gram x = map_mx conjC x *m x^T.
Proof.
by apply/matrixP => i j; rewrite !mxE; apply: eq_bigr => k _; rewrite !mxE.
Qed.

Lemma gram_orthogonalize_eig x :
  gram (orthogonalize_eig x) =
  \matrix_(i, j)
    ((map_mx conjC (eigh (pairwise_dot x)).2)^T *m gram x
       *m (eigh (pairwise_dot x)).2) (rev_ord i) (rev_ord j).
Proof.
rewrite gram_mul /Eig.orthogonalize_eig /=.
set V := (eigh _).2; set W := (\matrix_(i, j) V j (rev_ord i)).
rewrite map_mxM trmx_mul mulmxA -(mulmxA (map_mx conjC W)) -gram_mul.
apply/matrixP => i j; rewrite !mxE; apply: eq_bigr => b _.
rewrite !mxE; congr (_ * _).
by apply: eq_bigr => a _; rewrite !mxE.
Qed.

(** C7: when [eigh] returns a unitary matrix of eigenvectors of the
    Hermitian matrix that it reads from the lower half of [A], the array
    that [orthogonalize_eig] returns has the shape of [x], its modes are
    pairwise orthogonal under the conjugate inner product, and the sum
    of the squared magnitudes over all its modes is that of [x]. *)
Theorem orthogonalize_eig_orthogonal x :
  let w := (eigh (pairwise_dot x)).1 in
  let V := (eigh (pairwise_dot x)).2 in
  (map_mx conjC V)^T *m V = 1%:M ->
  lower_hermitian (pairwise_dot x) *m V = V *m diag_mx w ->
  (forall i j, i != j ->
     \sum_k ((orthogonalize_eig x) i k)^* * (orthogonalize_eig x) j k = 0) /\
  \sum_i \sum_k ((orthogonalize_eig x) i k)^* * (orthogonalize_eig x) i k =
  \sum_i \sum_k (x i k)^* * x i k.
Proof.
move=> w V Hunit Heig.
have HD : (map_mx conjC V)^T *m gram x *m V = diag_mx w.
  by rewrite -lower_hermitian_pairwise -mulmxA Heig mulmxA Hunit mul1mx.
have Hg := gram_orthogonalize_eig x.
rewrite -/V HD in Hg.
split.
- move=> i j neq_ij.
  have -> : \sum_k ((orthogonalize_eig x) i k)^* * (orthogonalize_eig x) j k
            = gram (orthogonalize_eig x) i j by rewrite mxE.
  rewrite Hg !mxE.
  have -> : (rev_ord i == rev_ord j) = false.
    by apply/negbTE; rewrite (inj_eq rev_ord_inj).
  by rewrite mulr0n.
- have -> :
    \sum_i \sum_k ((orthogonalize_eig x) i k)^* * (orthogonalize_eig x) i k
    = \tr (gram (orthogonalize_eig x)).
    by rewrite /mxtrace; apply: eq_bigr => i _; rewrite mxE.
  have -> : \sum_i \sum_k (x i k)^* * x i k = \tr (gram x).
    by rewrite /mxtrace; apply: eq_bigr => i _; rewrite mxE.
  have -> : \tr (gram (orthogonalize_eig x)) = \tr (diag_mx w).
    rewrite Hg /mxtrace [RHS](reindex_inj rev_ord_inj) /=.
    by apply: eq_bigr => i _; rewrite !mxE.
  rewrite -HD mxtrace_mulC mulmxA.
  have HVV : V *m (map_mx conjC V)^T = 1%:M by apply: mulmx1C.
  by rewrite HVV mul1mx.
Qed.

End OrthogonalizeEig.

(** Two modes of two pixels that are already orthogonal, over the
    algebraic numbers, with the identity as matrix of eigenvectors. *)
Lemma orthogonalize_eig_orthogonal_witness :
  let x : 'M[algC]_(2, 2) := 1%:M in
  let eigh := fun _ : 'M[algC]_2 =>
    (const_mx 1 : 'rV[algC]_2, 1%:M : 'M[algC]_2) in
  let y := Eig.orthogonalize_eig algC 2 2 eigh 0 x in
  (forall i j, i != j -> \sum_k (y i k)^* * y j k = 0) /\
  \sum_i \sum_k (y i k)^* * y i k = \sum_i \sum_k (x i k)^* * x i k.
Proof.
move=> x eigh y.
apply: (orthogonalize_eig_orthogonal algC 2 2 eigh 0 x).
- by rewrite /= map_mx1 trmx1 mulmx1.
- rewrite /= mulmx1 mul1mx lower_hermitian_pairwise gram_mul.
  by rewrite map_mx1 trmx1 mulmx1 diag_const_mx.
Defined.

End EigProperties.

(* ================================================================== *)
(** * Further properties of the sources *)
(* ================================================================== *)

(** ** objective.py and propagation.py: costs and gradients *)

Section CostsAndGradients.

Import Arr.
Open Scope R_scope.

Lemma sum_nonneg (l : list R) : Forall (fun v => 0 <= v) l -> 0 <= sum l.
Proof.
  induction 1 as [|x l Hx _ IH]; unfold sum in *; simpl; lra.
Qed.

Lemma zip_with_Forall {A B D : Type} (f : A -> B -> D) (P : D -> Prop)
    (a : list A) (b : list B) :
  (forall x y, P (f x y)) -> Forall P (zip_with f a b).
Proof.
  intros H. revert b. induction a as [|x a IH]; intros [|y b]; simpl;
    constructor; auto.
Qed.

Lemma mean_nonneg (l : list R) (v : R) :
  Forall (fun x => 0 <= x) l -> mean l = Some v -> 0 <= v.
Proof.
  intros Hl. destruct l as [|x l]; [discriminate|].
  unfold mean. intros Hv.
  assert (E : v = sum (x :: l) / INR (length (x :: l))) by congruence.
  rewrite E. apply Rmult_le_pos; [exact (sum_nonneg (x :: l) Hl)|].
  apply Rlt_le, Rinv_0_lt_compat, lt_0_INR. simpl. lia.
Qed.

Lemma gaussian_fuse_nonneg (d i : R) : 0 <= Objective._gaussian_fuse d i.
Proof.
  unfold Objective._gaussian_fuse. cbv zeta.
  exact (Rle_0_sqr (sqrt i - sqrt d)).
Qed.

(** X1: on arrays without negative entries, where the square roots are
    real numbers, the Gaussian objective is never negative, over the
    whole batch and for each pattern. *)
Theorem gaussian_objective_nonnegative
    (data intensity : list R) (pdata pintensity : list (list R)) :
  Forall (fun d => 0 <= d) data ->
  Forall (fun i => 0 <= i) intensity ->
  Forall (Forall (fun d => 0 <= d)) pdata ->
  Forall (Forall (fun i => 0 <= i)) pintensity ->
  (forall v, Objective.gaussian data intensity = Some v -> 0 <= v) /\
  (forall v, In (Some v) (Objective.gaussian_each_pattern pdata pintensity) ->
             0 <= v).
Proof.
  intros _ _ _ _. split.
  - intros v. apply mean_nonneg, zip_with_Forall, gaussian_fuse_nonneg.
  - intros v Hin.
    assert (H : Forall (fun o => forall v, o = Some v -> 0 <= v)
              (Objective.gaussian_each_pattern pdata pintensity)).
    { apply zip_with_Forall. intros d i w.
      apply mean_nonneg, zip_with_Forall, gaussian_fuse_nonneg. }
    rewrite Forall_forall in H. exact (H _ Hin v eq_refl).
Qed.

Lemma zip_with_concat {A B D : Type} (f : A -> B -> D)
    (a : list (list A)) (b : list (list B)) :
  Forall2 (fun x y => length x = length y) a b ->
  zip_with f (concat a) (concat b) = concat (zip_with (zip_with f) a b).
Proof.
  induction 1 as [|x y a b Hxy _ IH]; simpl; [reflexivity|].
  rewrite zip_with_app by assumption. now rewrite IH.
Qed.

Lemma length_zip_with {A B D : Type} (f : A -> B -> D) a b :
  length a = length b -> length (zip_with f a b) = length a.
Proof.
  revert b. induction a as [|x a IH]; intros [|y b] H; simpl in *;
    try discriminate; [reflexivity|]. f_equal. apply IH. lia.
Qed.

Lemma sum_concat (ps : list (list R)) : sum (concat ps) = sum (map sum ps).
Proof.
  induction ps as [|p ps IH]; [reflexivity|].
  cbn [concat map]. rewrite sum_app, IH. reflexivity.
Qed.

Lemma length_concat_const {A : Type} (M : nat) (ps : list (list A)) :
  Forall (fun p => length p = M) ps ->
  length (concat ps) = (length ps * M)%nat.
Proof.
  induction 1 as [|p ps Hp _ IH]; [reflexivity|].
  cbn [concat length]. rewrite length_app, IH, Hp. lia.
Qed.

Lemma sum_map_div (k : R) (ps : list (list R)) :
  sum (map (fun p => sum p / k) ps) = sum (map sum ps) / k.
Proof.
  induction ps as [|p ps IH].
  - unfold sum. simpl. unfold Rdiv. now rewrite Rmult_0_l.
  - cbn [map]. change (sum (?x :: ?l)) with (x + sum l).
    rewrite IH. unfold Rdiv. ring.
Qed.

(** The mean over a batch of equally sized patterns is the mean of the
    means of the patterns. *)
Lemma mean_concat (M : nat) (patterns : list (list R)) :
  (0 < M)%nat ->
  Forall (fun p => length p = M) patterns ->
  exists vs,
    map mean patterns = map Some vs /\
    mean (concat patterns) = mean vs.
Proof.
  intros HM Hall.
  exists (map (fun p => sum p / INR M) patterns). split.
  - rewrite map_map. apply map_ext_in. intros p Hp.
    rewrite Forall_forall in Hall. specialize (Hall p Hp).
    destruct p as [|x p]; [simpl in Hall; lia|].
    unfold mean. now rewrite Hall.
  - pose proof (length_concat_const M patterns Hall) as Hl.
    destruct patterns as [|p ps]; [reflexivity|].
    assert (Hne : concat (p :: ps) <> []).
    { inversion Hall as [|? ? Hp _]; subst.
      destruct p; [simpl in HM; lia|]. discriminate. }
    unfold mean at 1.
    destruct (concat (p :: ps)) as [|y t] eqn:E; [congruence|].
    rewrite <- E in Hl |- *. rewrite sum_concat, Hl.
    set (vs := map (fun p0 => sum p0 / INR M) (p :: ps)).
    assert (Hvs : vs <> []) by discriminate.
    unfold mean. destruct vs as [|v vs'] eqn:Ev; [congruence|].
    rewrite <- Ev. f_equal. unfold vs.
    rewrite sum_map_div, length_map, mult_INR.
    assert (0 < INR M) by now apply lt_0_INR.
    assert (0 < INR (length (p :: ps))) by (apply lt_0_INR; simpl; lia).
    field. split; lra.
Qed.

Lemma Forall2_same_length (M : nat) (a b : list (list R)) :
  length a = length b ->
  Forall (fun p => length p = M) a -> Forall (fun p => length p = M) b ->
  Forall2 (fun x y => length x = length y) a b.
Proof.
  revert b. induction a as [|x a IH]; intros [|y b] Hl Ha Hb;
    simpl in *; try discriminate; constructor.
  - inversion Ha; inversion Hb; congruence.
  - apply IH; [lia | now inversion Ha | now inversion Hb].
Qed.

Lemma map_zip_with {A B D E : Type} (g : D -> E) (f : A -> B -> D) a b :
  map g (zip_with f a b) = zip_with (fun x y => g (f x y)) a b.
Proof.
  revert b. induction a as [|x a IH]; intros [|y b]; simpl; congruence.
Qed.

Lemma each_pattern_mean (f : R -> R -> R) (M : nat)
    (data intensity : list (list R)) :
  (0 < M)%nat ->
  length data = length intensity ->
  Forall (fun p => length p = M) data ->
  Forall (fun p => length p = M) intensity ->
  exists vs,
    zip_with (fun d i => mean (zip_with f d i)) data intensity
      = map Some vs /\
    mean (zip_with f (concat data) (concat intensity)) = mean vs.
Proof.
  intros HM Hlen Hd Hi.
  rewrite zip_with_concat by (now apply (Forall2_same_length M)).
  destruct (mean_concat M (zip_with (zip_with f) data intensity) HM)
    as [vs [H1 H2]].
  { clear Hlen. revert intensity Hi.
    induction Hd as [|d ds Hdl _ IH]; intros [|i rest] Hi; simpl;
      constructor.
    - rewrite length_zip_with; [assumption|]. inversion Hi. congruence.
    - apply IH. now inversion Hi. }
  exists vs. split; [|assumption].
  rewrite <- H1, map_zip_with. reflexivity.
Qed.

(** X2: on a batch of patterns that all have [M > 0] pixels, the
    objective over the whole batch is the mean of the per-pattern
    objectives, for the Gaussian and for the Poisson model. *)
Theorem objective_is_mean_of_patterns (M : nat)
    (data intensity : list (list R)) :
  (0 < M)%nat ->
  length data = length intensity ->
  Forall (fun p => length p = M) data ->
  Forall (fun p => length p = M) intensity ->
  (exists vs,
      Objective.gaussian_each_pattern data intensity = map Some vs /\
      Objective.gaussian (concat data) (concat intensity) = mean vs) /\
  (exists vs,
      Objective.poisson_each_pattern data intensity = map Some vs /\
      Objective.poisson (concat data) (concat intensity) = mean vs).
Proof.
  intros HM Hlen Hd Hi. split.
  - exact (each_pattern_mean Objective._gaussian_fuse M data intensity
             HM Hlen Hd Hi).
  - exact (each_pattern_mean Objective._poisson_fuse M data intensity
             HM Hlen Hd Hi).
Qed.

Lemma objective_is_mean_of_patterns_witness :
  (exists vs,
      Objective.gaussian_each_pattern [[1; 4]; [9; 0]] [[4; 4]; [0; 1]]
        = map Some vs /\
      Objective.gaussian (concat [[1; 4]; [9; 0]]) (concat [[4; 4]; [0; 1]])
        = mean vs) /\
  (exists vs,
      Objective.poisson_each_pattern [[1; 4]; [9; 0]] [[4; 4]; [0; 1]]
        = map Some vs /\
      Objective.poisson (concat [[1; 4]; [9; 0]]) (concat [[4; 4]; [0; 1]])
        = mean vs).
Proof.
  apply (objective_is_mean_of_patterns 2 [[1; 4]; [9; 0]] [[4; 4]; [0; 1]]).
  - lia.
  - reflexivity.
  - repeat constructor.
  - repeat constructor.
Defined.

Lemma gaussian_objective_nonnegative_witness :
  exists v, Objective.gaussian [4] [9] = Some v /\ 0 <= v.
Proof.
  eexists. split; [reflexivity|].
  destruct (gaussian_objective_nonnegative [4] [9] [[4]] [[9]])
    as [H _].
  - repeat constructor. lra.
  - repeat constructor. lra.
  - repeat constructor. lra.
  - repeat constructor. lra.
  - apply H. reflexivity.
Defined.

Lemma nth_error_zip_with3 {A B D E : Type} (f : A -> B -> D -> E)
    (a : list A) (b : list B) (d : list D) (k : nat) x y z :
  nth_error a k = Some x -> nth_error b k = Some y ->
  nth_error d k = Some z ->
  nth_error (Objective.zip_with3 f a b d) k = Some (f x y z).
Proof.
  revert b d k. induction a as [|x' a IH]; intros [|y' b] [|z' d] [|k];
    simpl; try discriminate.
  - congruence.
  - apply IH.
Qed.

Lemma poisson_fuse_derivative (d i : R) :
  0 < i + Objective.eps ->
  derivable_pt_lim (fun x => Objective._poisson_fuse d x) i
    (1 - d / (i + Objective.eps)).
Proof.
  intros H.
  assert (H1 : derivable_pt_lim (comp ln (id + fct_cte Objective.eps)%F) i
                 (/ (i + Objective.eps) * (1 + 0))).
  { apply derivable_pt_lim_comp.
    - apply derivable_pt_lim_plus;
        [apply derivable_pt_lim_id | apply derivable_pt_lim_const].
    - apply derivable_pt_lim_ln. exact H. }
  pose proof (derivable_pt_lim_minus _ _ _ _ _ (derivable_pt_lim_id i)
                (derivable_pt_lim_scal _ d _ _ H1)) as H2.
  replace (1 - d / (i + Objective.eps))
    with (1 - d * (/ (i + Objective.eps) * (1 + 0))) by (field; lra).
  exact H2.
Qed.

(** X3: the factor that [poisson_grad] applies to the farplane at a
    pixel with non-negative intensity is the derivative, with respect to
    the intensity, of the Poisson objective at that pixel. *)
Theorem poisson_grad_is_derivative
    (data : list R) (farplane : list (list C)) (intensity : list R)
    (k : nat) (d i : R) (modes : list C) :
  nth_error data k = Some d ->
  nth_error farplane k = Some modes ->
  nth_error intensity k = Some i ->
  0 <= i ->
  exists D,
    derivable_pt_lim (fun x => Objective._poisson_fuse d x) i D /\
    nth_error (Objective.poisson_grad data farplane intensity) k
      = Some (map (Cscale D) modes).
Proof.
  intros Hd Hf Hi Hpos. exists (1 - d / (i + Objective.eps)). split.
  - apply poisson_fuse_derivative. pose proof eps_pos. lra.
  - unfold Objective.poisson_grad.
    now rewrite (nth_error_zip_with3 _ _ _ _ _ _ _ _ Hd Hf Hi).
Qed.

Lemma poisson_grad_is_derivative_witness :
  exists D,
    derivable_pt_lim (fun x => Objective._poisson_fuse 3 x) 2 D /\
    nth_error (Objective.poisson_grad [3] [[C1; C0]] [2]) 0
      = Some (map (Cscale D) [C1; C0]).
Proof.
  apply (poisson_grad_is_derivative [3] [[C1; C0]] [2] 0 3 2 [C1; C0]);
    try reflexivity.
  lra.
Defined.






Lemma norm2_nonneg (modes : list C) : 0 <= Propagation.norm2 modes.
Proof. apply sqrt_pos. Qed.

Lemma zip_with_map_l {A A' B D : Type} (g : A -> A') (f : A' -> B -> D)
    (a : list A) (b : list B) :
  zip_with f (map g a) b = zip_with (fun x y => f (g x) y) a b.
Proof.
  revert b. induction a as [|x a IH]; intros [|y b]; simpl; congruence.
Qed.

Lemma zip_with_swap {A B D : Type} (f : A -> B -> D)
    (a : list A) (b : list B) :
  zip_with f a b = zip_with (fun y x => f x y) b a.
Proof.
  revert b. induction a as [|x a IH]; intros [|y b]; simpl; congruence.
Qed.

Lemma zip_with_ext {A B D : Type} (f g : A -> B -> D)
    (a : list A) (b : list B) :
  (forall x y, f x y = g x y) -> zip_with f a b = zip_with g a b.
Proof.
  intros H. revert b. induction a as [|x a IH]; intros [|y b]; simpl;
    congruence.
Qed.

(** X6: the sum-reduced Gaussian cost of the Propagation class is the
    number of data entries times the mean-reduced Gaussian objective of
    objective.py evaluated on the squared moduli of the farplane. *)
Theorem propagation_gaussian_cost_is_scaled_objective
    (data : list R) (farplane : list (list C)) (v : R) :
  length data = length farplane ->
  Objective.gaussian data
    (map (fun modes => (Propagation.norm2 modes) ^ 2) farplane) = Some v ->
  Propagation._gaussian_cost data farplane = INR (length data) * v.
Proof.
  intros Hlen Hv.
  unfold Propagation._gaussian_cost, Propagation.norm_ravel.
  rewrite pow2_sqrt by apply sum_sq_nonneg.
  unfold Objective.gaussian in Hv.
  assert (Hz :
    map (fun x => x * x)
      (zip_with (fun m d => m - sqrt d) (map Propagation.norm2 farplane) data)
    = zip_with Objective._gaussian_fuse data
        (map (fun modes => (Propagation.norm2 modes) ^ 2) farplane)).
  { rewrite map_zip_with, zip_with_map_l.
    rewrite (zip_with_swap Objective._gaussian_fuse), zip_with_map_l.
    apply zip_with_ext. intros modes d.
    unfold Objective._gaussian_fuse. cbv zeta.
    rewrite sqrt_pow2 by apply norm2_nonneg. reflexivity. }
  rewrite Hz.
  set (l := zip_with _ _ _) in *.
  assert (Hl : length l = length data).
  { unfold l. rewrite length_zip_with; [reflexivity|].
    now rewrite length_map. }
  destruct l as [|x l']; [discriminate|].
  unfold mean in Hv.
  assert (E : v = sum (x :: l') / INR (length (x :: l'))) by congruence.
  rewrite E, <- Hl.
  assert (0 < INR (length (x :: l'))) by (apply lt_0_INR; simpl; lia).
  field. lra.
Qed.

Lemma propagation_gaussian_cost_is_scaled_objective_witness :
  Propagation._gaussian_cost [4; 1] [[C1]; [C1; C1]]
  = INR (length [4; 1])
    * (sum (zip_with Objective._gaussian_fuse [4; 1]
              (map (fun modes => (Propagation.norm2 modes) ^ 2)
                 [[C1]; [C1; C1]])) / INR 2).
Proof.
  apply (propagation_gaussian_cost_is_scaled_objective
           [4; 1] [[C1]; [C1; C1]]); reflexivity.
Defined.

Lemma norm2_same_moduli (f g : list C) :
  Forall2 (fun z w => Cabs z = Cabs w) f g ->
  Propagation.norm2 f = Propagation.norm2 g.
Proof.
  intros H. unfold Propagation.norm2. f_equal. f_equal.
  induction H as [|z w f g Hzw _ IH]; simpl; [reflexivity|].
  now rewrite Hzw, IH.
Qed.

(** X7: the costs of the Propagation class see the farplane only through
    the moduli of its entries: two farplanes whose entries have the same
    moduli, whatever their phases, cost the same under both models. *)
Theorem propagation_cost_ignores_phase
    (data : list R) (farplane farplane' : list (list C)) :
  Forall2 (Forall2 (fun z w => Cabs z = Cabs w)) farplane farplane' ->
  Propagation._gaussian_cost data farplane
    = Propagation._gaussian_cost data farplane' /\
  Propagation._poisson_cost data farplane
    = Propagation._poisson_cost data farplane'.
Proof.
  intros H.
  assert (Hn : map Propagation.norm2 farplane
               = map Propagation.norm2 farplane').
  { induction H as [|f g fs gs Hfg _ IH]; simpl; [reflexivity|].
    now rewrite (norm2_same_moduli f g Hfg), IH. }
  split.
  - unfold Propagation._gaussian_cost. now rewrite Hn.
  - unfold Propagation._poisson_cost.
    rewrite <- !(map_map Propagation.norm2 (fun r => r ^ 2)).
    now rewrite Hn.
Qed.

Lemma propagation_cost_ignores_phase_witness :
  Propagation._gaussian_cost [4] [[C1; (0, 1)]]
    = Propagation._gaussian_cost [4] [[(0, -1); (-1, 0)]] /\
  Propagation._poisson_cost [4] [[C1; (0, 1)]]
    = Propagation._poisson_cost [4] [[(0, -1); (-1, 0)]].
Proof.
  apply (propagation_cost_ignores_phase [4]
           [[C1; (0, 1)]] [[(0, -1); (-1, 0)]]).
  repeat constructor; unfold Cabs, C1; simpl; f_equal; ring.
Defined.

End CostsAndGradients.

(** ** cupy/patch.py: block sizes and buffers *)

Section PatchBlocks.

Import Py Patch PatchSpec.
Open Scope Z_scope.

(** one step of the bit smearing: [v |= v >> s] *)
Lemma smear_step_bit (y s i : Z) :
  0 <= s -> 0 <= i ->
  Z.testbit (Z.lor y (Z.shiftr y s)) i
  = (Z.testbit y i || Z.testbit y (i + s))%bool.
Proof.
  intros Hs Hi. now rewrite Z.lor_spec, Z.shiftr_spec by assumption.
Qed.

Lemma smear_step_filled (t w y : Z) :
  0 < w -> filled t w y -> filled t (2 * w) (Z.lor y (Z.shiftr y w)).
Proof.
  intros Hw Hy i Hi Hd. rewrite smear_step_bit by lia.
  destruct (Z_lt_dec (t - i) w) as [Hlt | Hge].
  - now rewrite (Hy i Hi Hlt).
  - rewrite (Hy (i + w)) by lia. apply orb_true_r.
Qed.

Lemma smear_step_capped (t w y : Z) :
  0 <= t -> 0 <= w -> capped t y -> capped t (Z.lor y (Z.shiftr y w)).
Proof.
  intros Ht Hw Hy i Hi. rewrite smear_step_bit by lia.
  now rewrite !Hy by lia.
Qed.

Lemma filled_capped_ones (t y : Z) :
  0 <= t -> filled t (t + 1) y -> capped t y -> y = Z.ones (t + 1).
Proof.
  intros Ht Hf Hc. apply Z.bits_inj'. intros i Hi.
  destruct (Z_le_dec i t) as [Hle | Hgt].
  - rewrite Z.ones_spec_low by lia. apply Hf; lia.
  - rewrite Z.ones_spec_high by lia. apply Hc. lia.
Qed.

Lemma filled_weaken (t w w' y : Z) :
  w' <= w -> filled t w y -> filled t w' y.
Proof. intros Hw Hy i Hi Hd. apply Hy; lia. Qed.

(** X8: for every [v] from 1 to 2^32, [_next_power_two v] is the
    smallest power of two that is at least [v]; and [_next_power_two 0]
    is 0. *)
Theorem next_power_two_spec (v : Z) :
  1 <= v <= 2 ^ 32 ->
  (exists k, 0 <= k <= 32 /\ _next_power_two v = 2 ^ k /\
             v <= 2 ^ k < 2 * v) /\
  _next_power_two 0 = 0.
Proof.
  intros Hv. split; [|reflexivity].
  destruct (Z.eq_dec v 1) as [-> | Hne].
  { exists 0. repeat split; try lia; reflexivity. }
  set (x := v - 1). assert (Hx : 0 < x < 2 ^ 32) by (unfold x; lia).
  set (t := Z.log2 x).
  assert (Hlog : 2 ^ t <= x < 2 ^ (Z.succ t)) by (apply Z.log2_spec; lia).
  assert (Ht0 : 0 <= t) by apply Z.log2_nonneg.
  assert (Ht : t <= 31).
  { destruct (Z_le_dec t 31) as [H|H]; [exact H|].
    assert (2 ^ 32 <= 2 ^ t) by (apply Z.pow_le_mono_r; lia). lia. }
  assert (F0 : filled t 1 x).
  { intros i Hi Hd. replace i with t by lia.
    apply Z.bit_log2. lia. }
  assert (C0 : capped t x).
  { intros i Hi. apply Z.bits_above_log2; lia. }
  exists (t + 1). split; [lia|].
  unfold _next_power_two. fold x.
  set (x1 := Z.lor x (Z.shiftr x 1)).
  set (x2 := Z.lor x1 (Z.shiftr x1 2)).
  set (x3 := Z.lor x2 (Z.shiftr x2 4)).
  set (x4 := Z.lor x3 (Z.shiftr x3 8)).
  set (x5 := Z.lor x4 (Z.shiftr x4 16)).
  assert (F5 : filled t 32 x5).
  { apply (smear_step_filled t 16); [lia|].
    apply (smear_step_filled t 8); [lia|].
    apply (smear_step_filled t 4); [lia|].
    apply (smear_step_filled t 2); [lia|].
    apply (smear_step_filled t 1); [lia|]. exact F0. }
  assert (C5 : capped t x5).
  { repeat (apply smear_step_capped; [lia | lia |]). exact C0. }
  assert (E : x5 = Z.ones (t + 1)).
  { apply filled_capped_ones; [lia | | exact C5].
    apply (filled_weaken t 32); [lia | exact F5]. }
  cbv zeta. fold x1 x2 x3 x4 x5.
  rewrite E, Z.ones_equiv.
  replace (Z.succ t) with (t + 1) in Hlog by lia.
  assert (H2 : 2 ^ (t + 1) = 2 * 2 ^ t).
  { rewrite Z.pow_add_r by lia. lia. }
  split; [lia|]. unfold x in *. lia.
Qed.

Lemma next_power_two_spec_witness :
  (exists k, 0 <= k <= 32 /\ _next_power_two 100 = 2 ^ k /\
             100 <= 2 ^ k < 2 * 100) /\
  _next_power_two 0 = 0.
Proof. apply (next_power_two_spec 100). lia. Defined.

Ltac invert_binds H :=
  repeat match type of H with
    | bind ?c _ = Ok _ =>
        let a := fresh "a" in
        let E := fresh "E" in
        destruct c as [a|] eqn:E; cbn [bind] in H; [|discriminate H]
    end.

Lemma tuple_eqb_eq (s t : list Z) : tuple_eqb s t = true -> s = t.
Proof.
  revert t. induction s as [|a s IH]; intros [|b t]; simpl;
    try discriminate; [reflexivity|].
  intros H. apply andb_prop in H. destruct H as [Hab Hst].
  apply Z.eqb_eq in Hab. f_equal; auto.
Qed.

Lemma scalar_type_eqb_eq (a b : scalar_type) :
  scalar_type_eqb a b = true -> a = b.
Proof. destruct a, b; simpl; congruence. Qed.

Variable launch :
  kernel -> Z * Z * Z -> Z -> list ndarray -> list Z -> result unit.
Variable max_threads_per_block : kernel -> Z.

(** X9: when [Patch.fwd] is given a buffer and returns, it returns that
    very buffer, and the call met every asserted precondition: the
    positions end in a dimension of size 2, images, positions and
    patches share their leading dimensions, the buffer holds N * nrepeat
    patches at least as wide as the patch width in use, images and
    patches are complex64 and positions are float32. *)
Theorem fwd_into_buffer
    (images positions buffer : ndarray)
    (patch_width height width nrepeat : Z) (r : ndarray) :
  fwd launch max_threads_per_block images positions (Some buffer)
      patch_width height width nrepeat = Ok r ->
  r = buffer /\
  exists N padded,
    from_end (shape positions) 2 = Ok N /\
    from_end (shape positions) 1 = Ok 2 /\
    from_end (shape buffer) 3 = Ok (N * nrepeat) /\
    from_end (shape buffer) 1 = Ok padded /\
    (if patch_width =? 0 then padded else patch_width) <= padded /\
    drop_last 2 (shape images) = drop_last 2 (shape positions) /\
    drop_last 2 (shape positions) = drop_last 3 (shape buffer) /\
    dtype images = complex64 /\ dtype buffer = complex64 /\
    dtype positions = float32.
Proof.
  intros H. unfold fwd in H.
  assert (Hw : exists padded,
    from_end (shape buffer) 1 = Ok padded /\
    (if patch_width =? 0 then from_end (shape buffer) 1
     else Ok patch_width)
    = Ok (if patch_width =? 0 then padded else patch_width)).
  { destruct (patch_width =? 0) eqn:Epw.
    - destruct (from_end (shape buffer) 1) as [p|] eqn:Ep;
        [eauto | discriminate H].
    - cbn [bind] in H.
      destruct (from_end (shape buffer) 1) as [p|] eqn:Ep;
        [eauto | discriminate H]. }
  destruct Hw as [padded [Hpad Hw]]. rewrite Hw in H. cbn [bind] in H.
  rewrite Hpad in H. cbn [bind] in H.
  invert_binds H.
  repeat match goal with
  | E : assert_ _ = Ok _ |- _ => apply assert_Ok_inv in E
  end.
  injection H as <-. split; [reflexivity|].
  match goal with
  | E2 : from_end (shape positions) 2 = Ok ?n,
    E3 : from_end (shape buffer) 3 = Ok ?k,
    E1 : from_end (shape positions) 1 = Ok ?two,
    Ek : (?n * nrepeat =? ?k) = true,
    Et : (?two =? 2) = true |- _ =>
      exists n, padded;
      apply Z.eqb_eq in Ek, Et; subst k two
  end.
  repeat match goal with
  | E : tuple_eqb _ _ = true |- _ => apply tuple_eqb_eq in E
  | E : scalar_type_eqb _ _ = true |- _ => apply scalar_type_eqb_eq in E
  | E : (_ <=? _) = true |- _ => apply Z.leb_le in E
  end.
  repeat split; assumption.
Qed.

Lemma fwd_allocating (images positions : ndarray)
    (patch_width height width nrepeat : Z) (lead : list Z) (n h w : Z) :
  0 < patch_width -> 0 <= nrepeat -> 0 <= n ->
  Forall (fun d => 0 <= d) lead ->
  shape positions = lead ++ [n; 2] ->
  shape images = lead ++ [h; w] ->
  dtype images = complex64 ->
  dtype positions = float32 ->
  fwd launch max_threads_per_block images positions None patch_width
      height width nrepeat =
  (let buffer :=
     {| shape := lead ++ [n * nrepeat; patch_width; patch_width];
        dtype := complex64 |} in
   launch _fwd_patch (n, prod lead, patch_width)
     (Z.min (_next_power_two patch_width)
        (max_threads_per_block _fwd_patch))
     [images; buffer; positions]
     [prod lead; h; w; n; nrepeat; patch_width; patch_width] ;;;
   Ok buffer).
Proof.
  intros Hpw Hrep Hn Hlead Hpos Himg Hdi Hdp. unfold fwd.
  replace (patch_width =? 0) with false by (symmetry; apply Z.eqb_neq; lia).
  cbn [bind]. rewrite Hpos, from_end_2. cbn [bind].
  rewrite drop_last_2, zeros_Ok.
  2:{ apply Forall_app. split; [assumption|]. repeat constructor; nia. }
  cbn [bind shape dtype].
  rewrite from_end_1_of_3. cbn [bind].
  rewrite Z.leb_refl. cbn [assert_ bind].
  rewrite Himg, drop_last_2, tuple_eqb_refl. cbn [assert_ bind].
  rewrite drop_last_3, tuple_eqb_refl. cbn [assert_ bind].
  rewrite from_end_3. cbn [bind]. rewrite Z.eqb_refl. cbn [assert_ bind].
  rewrite from_end_1_of_2. cbn [bind]. rewrite Z.eqb_refl.
  cbn [assert_ bind]. rewrite Hdi, Hdp.
  cbn [scalar_type_eqb assert_ bind]. rewrite take_last_2. reflexivity.
Qed.

Lemma adj_after_checks (positions patches : ndarray)
    (images : option ndarray) (patch_width height width nrepeat : Z)
    (lead : list Z) (N K p1 p2 H W : Z) (img : ndarray) :
  shape positions = lead ++ [N; 2] ->
  shape patches = lead ++ [K; p2; p1] ->
  width_in_use patch_width p1 <= p1 ->
  (images = Some img \/
   images = None /\ 0 <= height /\ 0 <= width /\
   Forall (fun d => 0 <= d) lead /\
   img = {| shape := lead ++ [height; width]; dtype := complex64 |}) ->
  shape img = lead ++ [H; W] ->
  adj launch max_threads_per_block positions patches images
      patch_width height width nrepeat =
  (r <- py_mod (N * nrepeat) K ;;
   assert_ ((r =? 0) && (nrepeat <=? K)) ;;;
   assert_ (p1 =? p2) ;;;
   assert_ (scalar_type_eqb (dtype img) complex64) ;;;
   assert_ (scalar_type_eqb (dtype patches) complex64) ;;;
   assert_ (scalar_type_eqb (dtype positions) float32) ;;;
   launch _adj_patch (N, prod lead, width_in_use patch_width p1)
     (Z.min (_next_power_two (width_in_use patch_width p1))
        (max_threads_per_block _adj_patch))
     [img; patches; positions]
     [prod lead; H; W; N; nrepeat; width_in_use patch_width p1; p1; K] ;;;
   Ok img).
Proof.
  intros Hpos Hpat Hpw Himages Himg. unfold width_in_use in *.
  unfold adj. rewrite Hpat, Hpos, from_end_1_of_3.
  assert (Hw : (if patch_width =? 0 then Ok p1 else Ok patch_width)
               = Ok (if patch_width =? 0 then p1 else patch_width))
    by (destruct (patch_width =? 0); reflexivity).
  rewrite Hw. cbn [bind].
  replace ((if patch_width =? 0 then p1 else patch_width) <=? p1)
    with true by (symmetry; apply Z.leb_le; assumption).
  cbn [assert_ bind]. rewrite drop_last_2.
  assert (Hres :
    match images with
    | Some i => Ok i
    | None => zeros (lead ++ [height; width]) complex64
    end = Ok img).
  { destruct Himages as [-> | (-> & Hh & Hwd & Hlead & ->)];
      [reflexivity|].
    apply zeros_Ok, Forall_app. split; [assumption|].
    repeat constructor; assumption. }
  rewrite Hres. cbn [bind]. rewrite Himg, take_last_2, drop_last_2.
  cbn [bind fst snd]. rewrite tuple_eqb_refl. cbn [assert_ bind].
  rewrite from_end_2, from_end_1_of_2. cbn [bind].
  rewrite Z.eqb_refl. cbn [assert_ bind].
  rewrite drop_last_3, tuple_eqb_refl. cbn [assert_ bind].
  rewrite from_end_3, from_end_2_of_3. cbn [bind]. reflexivity.
Qed.

(** X10: [Patch.adj] returns the image array, the one it was given or a
    fresh complex64 array of shape (leading dimensions, height, width),
    whenever positions have shape (leading, N, 2), the patches are
    square, no narrower than the patch width in use, complex64, in a
    nonzero number K >= nrepeat that divides N * nrepeat, positions are
    float32, the images are complex64 and the kernel launch completes. *)
Theorem adj_returns_images
    (positions patches : ndarray) (images : option ndarray)
    (patch_width height width nrepeat : Z)
    (lead : list Z) (N K p H W : Z) (img : ndarray) :
  shape positions = lead ++ [N; 2] ->
  shape patches = lead ++ [K; p; p] ->
  (if patch_width =? 0 then p else patch_width) <= p ->
  (images = Some img \/
   images = None /\ 0 <= height /\ 0 <= width /\
   Forall (fun d => 0 <= d) lead /\
   img = {| shape := lead ++ [height; width]; dtype := complex64 |}) ->
  shape img = lead ++ [H; W] ->
  K <> 0 -> nrepeat <= K -> (N * nrepeat) mod K = 0 ->
  dtype img = complex64 -> dtype patches = complex64 ->
  dtype positions = float32 ->
  launch _adj_patch
    (N, prod lead, if patch_width =? 0 then p else patch_width)
    (Z.min (_next_power_two (if patch_width =? 0 then p else patch_width))
       (max_threads_per_block _adj_patch))
    [img; patches; positions]
    [prod lead; H; W; N; nrepeat;
     if patch_width =? 0 then p else patch_width; p; K] = Ok tt ->
  adj launch max_threads_per_block positions patches images
      patch_width height width nrepeat = Ok img.
Proof.
  intros Hpos Hpat Hpw Himages Himg HK Hrep Hmod Hdi Hdp Hdq Hlaunch.
  rewrite (adj_after_checks positions patches images patch_width height
             width nrepeat lead N K p p H W img Hpos Hpat Hpw Himages Himg).
  unfold py_mod, width_in_use.
  replace (K =? 0) with false by (symmetry; apply Z.eqb_neq; assumption).
  cbn [bind]. rewrite Hmod. cbn [Z.eqb andb].
  replace (nrepeat <=? K) with true by (symmetry; apply Z.leb_le; assumption).
  cbn [assert_ bind]. rewrite Z.eqb_refl. cbn [assert_ bind].
  rewrite Hdi, Hdp, Hdq. cbn [scalar_type_eqb assert_ bind].
  rewrite Hlaunch. reflexivity.
Qed.

(** the kernels complete *)
Hypothesis launch_completes :
  forall k grids blocks arrays scalars,
    launch k grids blocks arrays scalars = Ok tt.

(** X11: on a device whose kernels complete, with at least one position
    (N >= 1), nrepeat >= 1 and a positive patch width, the buffer that
    [Patch.fwd] allocates is accepted by [Patch.adj] with the same
    positions and arguments, which returns a complex64 array of the
    shape of the complex64 images it is asked for. *)
Theorem fwd_then_adj_shapes
    (images positions : ndarray) (patch_width nrepeat : Z)
    (lead : list Z) (N H W : Z) :
  0 < patch_width -> 1 <= nrepeat -> 1 <= N -> 0 <= H -> 0 <= W ->
  Forall (fun d => 0 <= d) lead ->
  shape positions = lead ++ [N; 2] ->
  shape images = lead ++ [H; W] ->
  dtype images = complex64 ->
  dtype positions = float32 ->
  exists patches,
    fwd launch max_threads_per_block images positions None patch_width
        0 0 nrepeat = Ok patches /\
    shape patches = lead ++ [N * nrepeat; patch_width; patch_width] /\
    adj launch max_threads_per_block positions patches None patch_width
        H W nrepeat
    = Ok {| shape := shape images; dtype := complex64 |}.
Proof.
  intros Hpw Hrep HN HH HW Hlead Hpos Himg Hdi Hdp.
  eexists. split.
  { rewrite (fwd_allocating images positions patch_width 0 0 nrepeat
               lead N H W) by (try assumption; lia).
    cbv zeta. rewrite launch_completes. reflexivity. }
  split; [reflexivity|].
  rewrite Himg.
  assert (Hw : width_in_use patch_width patch_width = patch_width).
  { unfold width_in_use.
    replace (patch_width =? 0) with false
      by (symmetry; apply Z.eqb_neq; lia).
    reflexivity. }
  rewrite (adj_after_checks positions _ None patch_width H W nrepeat
             lead N (N * nrepeat) patch_width patch_width H W
             {| shape := lead ++ [H; W]; dtype := complex64 |}).
  - unfold py_mod.
    replace (N * nrepeat =? 0) with false
      by (symmetry; apply Z.eqb_neq; nia).
    cbn [bind]. rewrite Z.mod_same by nia. cbn [Z.eqb andb].
    replace (nrepeat <=? N * nrepeat) with true
      by (symmetry; apply Z.leb_le; nia).
    cbn [assert_ bind]. rewrite Z.eqb_refl. cbn [assert_ bind dtype].
    rewrite Hdp. cbn [scalar_type_eqb assert_ bind].
    rewrite launch_completes. reflexivity.
  - exact Hpos.
  - reflexivity.
  - rewrite Hw. lia.
  - right. repeat split; assumption.
  - reflexivity.
Qed.

(** X12: with no positions (N = 0) the two operators part ways:
    [Patch.fwd] returns an empty buffer of shape (leading, 0,
    patch_width, patch_width), and [Patch.adj] given that buffer raises
    ZeroDivisionError. *)
Theorem fwd_then_adj_without_positions
    (images positions : ndarray) (patch_width nrepeat : Z)
    (lead : list Z) (H W : Z) :
  0 < patch_width -> 0 <= nrepeat -> 0 <= H -> 0 <= W ->
  Forall (fun d => 0 <= d) lead ->
  shape positions = lead ++ [0; 2] ->
  shape images = lead ++ [H; W] ->
  dtype images = complex64 ->
  dtype positions = float32 ->
  exists patches,
    fwd launch max_threads_per_block images positions None patch_width
        0 0 nrepeat = Ok patches /\
    shape patches = lead ++ [0; patch_width; patch_width] /\
    adj launch max_threads_per_block positions patches None patch_width
        H W nrepeat
    = Raise ZeroDivisionError.
Proof.
  intros Hpw Hrep HH HW Hlead Hpos Himg Hdi Hdp.
  eexists. split.
  { rewrite (fwd_allocating images positions patch_width 0 0 nrepeat
               lead 0 H W) by (try assumption; lia).
    cbv zeta. rewrite launch_completes. reflexivity. }
  split; [reflexivity|].
  rewrite (adj_after_checks positions _ None patch_width H W nrepeat lead
             0 0 patch_width patch_width H W
             {| shape := lead ++ [H; W]; dtype := complex64 |});
    try assumption; try reflexivity.
  - unfold width_in_use.
    replace (patch_width =? 0) with false
      by (symmetry; apply Z.eqb_neq; lia). lia.
  - right. repeat split; assumption.
Qed.

End PatchBlocks.

Lemma fwd_into_buffer_witness :
  {| Patch.shape := [6; 5; 5]%Z; Patch.dtype := Patch.complex64 |}
  = {| Patch.shape := [6; 5; 5]%Z; Patch.dtype := Patch.complex64 |} /\
  exists N padded,
    Patch.from_end [3; 2]%Z 2 = Py.Ok N /\
    Patch.from_end [3; 2]%Z 1 = Py.Ok 2%Z /\
    Patch.from_end [6; 5; 5]%Z 3 = Py.Ok (N * 2)%Z /\
    Patch.from_end [6; 5; 5]%Z 1 = Py.Ok padded /\
    ((if (4 =? 0)%Z then padded else 4) <= padded)%Z /\
    Patch.drop_last 2 [8; 8]%Z = Patch.drop_last 2 [3; 2]%Z /\
    Patch.drop_last 2 [3; 2]%Z = Patch.drop_last 3 [6; 5; 5]%Z /\
    Patch.complex64 = Patch.complex64 /\
    Patch.complex64 = Patch.complex64 /\
    Patch.float32 = Patch.float32.
Proof.
  apply (fwd_into_buffer (fun _ _ _ _ _ => Py.Ok tt) (fun _ => 1024%Z)
           {| Patch.shape := [8; 8]%Z; Patch.dtype := Patch.complex64 |}
           {| Patch.shape := [3; 2]%Z; Patch.dtype := Patch.float32 |}
           {| Patch.shape := [6; 5; 5]%Z; Patch.dtype := Patch.complex64 |}
           4%Z 0%Z 0%Z 2%Z).
  reflexivity.
Defined.

Lemma adj_returns_images_witness :
  Patch.adj (fun _ _ _ _ _ => Py.Ok tt) (fun _ => 1024%Z)
    {| Patch.shape := [3; 2]%Z; Patch.dtype := Patch.float32 |}
    {| Patch.shape := [6; 5; 5]%Z; Patch.dtype := Patch.complex64 |}
    None 4%Z 8%Z 9%Z 2%Z
  = Py.Ok {| Patch.shape := [8; 9]%Z; Patch.dtype := Patch.complex64 |}.
Proof.
  apply (adj_returns_images (fun _ _ _ _ _ => Py.Ok tt) (fun _ => 1024%Z)
           {| Patch.shape := [3; 2]%Z; Patch.dtype := Patch.float32 |}
           {| Patch.shape := [6; 5; 5]%Z; Patch.dtype := Patch.complex64 |}
           None 4%Z 8%Z 9%Z 2%Z [] 3%Z 6%Z 5%Z 8%Z 9%Z);
    try reflexivity; try (simpl; lia).
  right. repeat split; try lia. constructor.
Defined.

Lemma fwd_then_adj_shapes_witness :
  exists patches,
    Patch.fwd (fun _ _ _ _ _ => Py.Ok tt) (fun _ => 1024%Z)
      {| Patch.shape := [8; 9]%Z; Patch.dtype := Patch.complex64 |}
      {| Patch.shape := [3; 2]%Z; Patch.dtype := Patch.float32 |}
      None 4%Z 0%Z 0%Z 2%Z = Py.Ok patches /\
    Patch.shape patches = [6; 4; 4]%Z /\
    Patch.adj (fun _ _ _ _ _ => Py.Ok tt) (fun _ => 1024%Z)
      {| Patch.shape := [3; 2]%Z; Patch.dtype := Patch.float32 |}
      patches None 4%Z 8%Z 9%Z 2%Z
    = Py.Ok {| Patch.shape := [8; 9]%Z; Patch.dtype := Patch.complex64 |}.
Proof.
  apply (fwd_then_adj_shapes (fun _ _ _ _ _ => Py.Ok tt) (fun _ => 1024%Z)
           (fun _ _ _ _ _ => eq_refl)
           {| Patch.shape := [8; 9]%Z; Patch.dtype := Patch.complex64 |}
           {| Patch.shape := [3; 2]%Z; Patch.dtype := Patch.float32 |}
           4%Z 2%Z [] 3%Z 8%Z 9%Z); try reflexivity; try lia.
  constructor.
Defined.

Lemma fwd_then_adj_without_positions_witness :
  exists patches,
    Patch.fwd (fun _ _ _ _ _ => Py.Ok tt) (fun _ => 1024%Z)
      {| Patch.shape := [8; 9]%Z; Patch.dtype := Patch.complex64 |}
      {| Patch.shape := [0; 2]%Z; Patch.dtype := Patch.float32 |}
      None 4%Z 0%Z 0%Z 1%Z = Py.Ok patches /\
    Patch.shape patches = [0; 4; 4]%Z /\
    Patch.adj (fun _ _ _ _ _ => Py.Ok tt) (fun _ => 1024%Z)
      {| Patch.shape := [0; 2]%Z; Patch.dtype := Patch.float32 |}
      patches None 4%Z 8%Z 9%Z 1%Z
    = Py.Raise Py.ZeroDivisionError.
Proof.
  apply (fwd_then_adj_without_positions
           (fun _ _ _ _ _ => Py.Ok tt) (fun _ => 1024%Z)
           (fun _ _ _ _ _ => eq_refl)
           {| Patch.shape := [8; 9]%Z; Patch.dtype := Patch.complex64 |}
           {| Patch.shape := [0; 2]%Z; Patch.dtype := Patch.float32 |}
           4%Z 1%Z [] 8%Z 9%Z); try reflexivity; try lia.
  constructor.
Defined.

(** ** ptycho/probe.py: the varying probe *)

Section VaryingProbe.

Import Py Arr Probe ProbeSpec.
Open Scope R_scope.

Lemma add_eigen_probes_sum (weights : weights_array) (eigen : eigen_array)
    (m todo : nat) :
  forall c unique b p s i j,
    add_eigen_probes weights eigen m todo c unique b p s i j =
    if (s <? m)%nat
    then Cadd (unique b p s i j) (eigen_sum weights eigen c todo b p s i j)
    else unique b p s i j.
Proof.
  induction todo as [|todo IH]; intros c unique b p s i j.
  - cbn [add_eigen_probes]. unfold eigen_sum. cbn [seq map fold_right].
    destruct (s <? m)%nat; [|reflexivity].
    unfold Cadd, C0. cbn [fst snd]. destruct (unique b p s i j) as [x y].
    cbn [fst snd]. f_equal; ring.
  - cbn [add_eigen_probes]. rewrite IH.
    destruct (s <? m)%nat; [|reflexivity].
    unfold eigen_sum. cbn [seq map fold_right].
    unfold Cadd. cbn [fst snd]. f_equal; ring.
Qed.

(** With weights for every eigen probe and for every shared probe that
    has eigen probes, no index or broadcast error is raised. *)
Lemma get_varying_probe_Ok
    (shared_probe : nat -> nat -> nat -> nat -> C)
    (eigen_probe : eigen_probe_array) (weights : weights_array) :
  (ecount eigen_probe + 1 <= weigen weights)%nat ->
  (eshared eigen_probe <= wshared weights)%nat ->
  get_varying_probe shared_probe (Some eigen_probe) (Some weights)
  = Ok {| vposi := wposi weights;
          vval := add_eigen_probes weights (evals eigen_probe)
                    (eshared eigen_probe) (ecount eigen_probe) 0
                    (fun b p s i j =>
                       Cscale (wval weights b p 0%nat s)
                              (shared_probe b s i j)) |}.
Proof.
  intros He Hs. unfold get_varying_probe.
  replace (weigen weights =? 0)%nat with false
    by (symmetry; apply Nat.eqb_neq; lia).
  cbn [bind].
  replace ((0 <? ecount eigen_probe)%nat && (weigen weights <? 2)%nat)%bool
    with false.
  2:{ symmetry. apply andb_false_iff.
      destruct (Nat.eq_dec (ecount eigen_probe) 0) as [E|E].
      - left. apply Nat.ltb_ge. lia.
      - right. apply Nat.ltb_ge. lia. }
  cbn [bind].
  replace ((0 <? ecount eigen_probe)%nat
           && (wshared weights <? eshared eigen_probe)%nat)%bool with false.
  2:{ symmetry. apply andb_false_iff. right. apply Nat.ltb_ge. lia. }
  cbn [bind].
  replace (weigen weights <? ecount eigen_probe + 1)%nat with false
    by (symmetry; apply Nat.ltb_ge; lia).
  reflexivity.
Qed.

(** X13: when there are weights for every eigen probe (EIGEN + 1 rows)
    and for every shared probe that has eigen probes,
    [get_varying_probe] returns, for every position, the shared probe
    scaled by the zeroth weight plus, for the shared probes that have
    eigen probes, the sum of the eigen probes scaled by their weights;
    the other shared probes get no eigen-probe term. *)
Theorem get_varying_probe_weighted_sum
    (shared_probe : nat -> nat -> nat -> nat -> C)
    (eigen_probe : eigen_probe_array) (weights : weights_array) :
  (ecount eigen_probe + 1 <= weigen weights)%nat ->
  (eshared eigen_probe <= wshared weights)%nat ->
  exists unique,
    get_varying_probe shared_probe (Some eigen_probe) (Some weights)
      = Ok unique /\
    vposi unique = wposi weights /\
    forall b p s i j,
      vval unique b p s i j =
      Cadd (Cscale (wval weights b p 0%nat s) (shared_probe b s i j))
           (if (s <? eshared eigen_probe)%nat
            then eigen_sum weights (evals eigen_probe) 0
                   (ecount eigen_probe) b p s i j
            else C0).
Proof.
  intros He Hs. eexists.
  split; [exact (get_varying_probe_Ok _ _ _ He Hs)|].
  split; [reflexivity|].
  intros b p s i j. cbn [vval]. rewrite add_eigen_probes_sum.
  destruct (s <? eshared eigen_probe)%nat; [reflexivity|].
  unfold Cadd, C0, Cscale. cbn [fst snd]. f_equal; ring.
Qed.

Lemma mean_n_plus (n : nat) (f g : nat -> R) :
  mean_n n (fun p => f p + g p) = mean_n n f + mean_n n g.
Proof.
  unfold mean_n, sum_n.
  assert (Hs : sum (map (fun p => f p + g p) (seq 0 n))
               = sum (map f (seq 0 n)) + sum (map g (seq 0 n))).
  { induction (seq 0 n) as [|x l IH]; unfold sum in *; simpl; [lra|].
    rewrite IH. lra. }
  rewrite Hs. unfold Rdiv. ring.
Qed.

Lemma mean_n_scal (n : nat) (k : R) (f : nat -> R) :
  mean_n n (fun p => f p * k) = mean_n n f * k.
Proof.
  unfold mean_n, sum_n.
  assert (Hs : sum (map (fun p => f p * k) (seq 0 n))
               = sum (map f (seq 0 n)) * k).
  { induction (seq 0 n) as [|x l IH]; unfold sum in *; simpl; [lra|].
    rewrite IH. lra. }
  rewrite Hs. unfold Rdiv. ring.
Qed.

Lemma mean_n_ext (n : nat) (f g : nat -> R) :
  (forall p, f p = g p) -> mean_n n f = mean_n n g.
Proof.
  intros H. unfold mean_n, sum_n. do 2 f_equal.
  apply map_ext. exact H.
Qed.

Lemma mean_n_const (n : nat) (k : R) :
  (0 < n)%nat -> mean_n n (fun _ => k) = k.
Proof.
  intros Hn. unfold mean_n, sum_n.
  assert (Hs : forall l : list nat,
            sum (map (fun _ => k) l) = INR (length l) * k).
  { induction l as [|x l IH]; unfold sum in *; cbn [map fold_right length].
    - simpl. lra.
    - rewrite IH, S_INR. lra. }
  rewrite Hs, length_seq.
  assert (0 < INR n) by now apply lt_0_INR. field. lra.
Qed.

(** The eigen-probe terms average to zero over the positions when every
    row of weights but the zeroth has mean zero. *)
Lemma eigen_sum_mean_zero (weights : weights_array) (eigen : eigen_array)
    (todo c b s i j : nat) :
  (forall e, (1 <= e)%nat ->
     column_mean (wposi weights) (wval weights) b e s = 0) ->
  Cmean_n (wposi weights)
    (fun p => eigen_sum weights eigen c todo b p s i j) = C0.
Proof.
  intros Hz. revert c. induction todo as [|todo IH]; intros c.
  - unfold Cmean_n, eigen_sum, C0. cbn [seq map fold_right fst snd].
    now rewrite mean_n_zero.
  - specialize (IH (S c)). unfold Cmean_n, C0 in *.
    injection IH as IH1 IH2.
    assert (Hc : mean_n (wposi weights)
                   (fun p => wval weights b p (c + 1)%nat s) = 0).
    { apply (Hz (c + 1)%nat). lia. }
    rewrite (mean_n_ext _
               (fun p => fst (eigen_sum weights eigen c (S todo) b p s i j))
               (fun p => wval weights b p (c + 1)%nat s
                         * fst (eigen b c s i j)
                         + fst (eigen_sum weights eigen (S c) todo
                                  b p s i j))) by reflexivity.
    rewrite (mean_n_ext _
               (fun p => snd (eigen_sum weights eigen c (S todo) b p s i j))
               (fun p => wval weights b p (c + 1)%nat s
                         * snd (eigen b c s i j)
                         + snd (eigen_sum weights eigen (S c) todo
                                  b p s i j))) by reflexivity.
    rewrite !mean_n_plus, IH1, IH2, !mean_n_scal, Hc. f_equal; ring.
Qed.

(** X14: the probes that [get_varying_probe] builds from the arrays that
    [init_varying_probe] returns average, over the positions, to the
    shared probe: the varying part of a freshly initialised probe has
    mean zero. *)
Theorem initial_varying_probe_averages_to_shared
    (rand : nat -> nat -> nat -> nat -> R) (numpy_complex : eigen_array)
    (norm : (nat -> nat -> C) -> R)
    (shared_probe : nat -> nat -> nat -> nat -> C)
    (lead posi nshared : nat) (num_eigen_probes probes_with_modes : Z) :
  (1 <= num_eigen_probes)%Z ->
  (probes_with_modes <= Z.of_nat nshared)%Z ->
  (0 < posi)%nat ->
  exists eigen weights unique,
    init_varying_probe rand numpy_complex norm lead posi nshared
      num_eigen_probes probes_with_modes = Ok (eigen, Some weights) /\
    get_varying_probe shared_probe
      (option_map
         (fun e => {| ecount := Z.to_nat (num_eigen_probes - 1);
                      eshared := Z.to_nat (Z.max probes_with_modes 0);
                      evals := e |}) eigen)
      (Some weights) = Ok unique /\
    vposi unique = posi /\
    forall b s i j,
      Cmean_n posi (fun p => vval unique b p s i j) = shared_probe b s i j.
Proof.
  intros Hnum Hmodes Hposi.
  destruct (init_varying_probe_weights rand numpy_complex norm lead posi
              nshared num_eigen_probes probes_with_modes Hnum Hmodes Hposi)
    as (eigen & w & Hinit & Hwposi & Hrow0 & Hmean).
  assert (Hdims : weigen w = Z.to_nat num_eigen_probes /\ wshared w = nshared
                  /\ (eigen = None -> num_eigen_probes = 1%Z)).
  { unfold init_varying_probe in Hinit.
    destruct (Z.of_nat nshared <? Z.max probes_with_modes 0)%Z;
      [discriminate|].
    destruct (num_eigen_probes <? 1)%Z; [discriminate|].
    destruct (num_eigen_probes =? 1)%Z eqn:E1;
      injection Hinit as <- <-; cbn [weigen wshared];
      repeat split; try discriminate.
    intros _. now apply Z.eqb_eq. }
  destruct Hdims as (Hweigen & Hwshared & Hnone).
  exists eigen, w.
  assert (Havg : forall (unique : varying_probe) (extra : nat -> nat -> nat -> nat -> nat -> C),
    vposi unique = posi ->
    (forall b p s i j,
       vval unique b p s i j =
       Cadd (Cscale (wval w b p 0%nat s) (shared_probe b s i j))
            (extra b p s i j)) ->
    (forall b s i j, Cmean_n posi (fun p => extra b p s i j) = C0) ->
    forall b s i j,
      Cmean_n posi (fun p => vval unique b p s i j) = shared_probe b s i j).
  { intros unique extra Hvp Hval Hextra b s i j.
    specialize (Hextra b s i j). unfold Cmean_n, C0 in *.
    injection Hextra as Hx1 Hx2.
    rewrite (mean_n_ext _ (fun p => fst (vval unique b p s i j))
               (fun p => fst (shared_probe b s i j)
                         + fst (extra b p s i j))).
    2:{ intros p. rewrite Hval, Hrow0. unfold Cadd, Cscale. cbn [fst snd].
        ring. }
    rewrite (mean_n_ext _ (fun p => snd (vval unique b p s i j))
               (fun p => snd (shared_probe b s i j)
                         + snd (extra b p s i j))).
    2:{ intros p. rewrite Hval, Hrow0. unfold Cadd, Cscale. cbn [fst snd].
        ring. }
    rewrite !mean_n_plus, Hx1, Hx2, !mean_n_const by assumption.
    destruct (shared_probe b s i j) as [x y]. cbn [fst snd].
    f_equal; ring. }
  destruct eigen as [e|].
  - cbn [option_map].
    eexists. split; [exact Hinit|]. split.
    { apply get_varying_probe_Ok.
      - cbn [ecount]. lia.
      - cbn [eshared]. lia. }
    split; [exact Hwposi|].
    apply (Havg _
             (fun b p s i j =>
                if (s <? Z.to_nat (Z.max probes_with_modes 0))%nat
                then eigen_sum w e 0 (Z.to_nat (num_eigen_probes - 1))
                       b p s i j
                else C0)).
    { exact Hwposi. }
    { intros b p s i j. cbn [vval eshared ecount evals].
      rewrite add_eigen_probes_sum.
      destruct (s <? Z.to_nat (Z.max probes_with_modes 0))%nat;
        [reflexivity|].
      unfold Cadd, C0, Cscale. cbn [fst snd]. f_equal; ring. }
    intros b s i j.
    destruct (s <? Z.to_nat (Z.max probes_with_modes 0))%nat.
    + rewrite <- Hwposi. apply eigen_sum_mean_zero.
      intros e' He'. rewrite Hwposi. now apply Hmean.
    + unfold Cmean_n, C0. cbn [fst snd]. now rewrite mean_n_zero.
  - cbn [option_map]. unfold get_varying_probe.
    replace (weigen w =? 0)%nat with false
      by (symmetry; apply Nat.eqb_neq; lia).
    cbn [bind]. eexists. split; [assumption|]. split; [reflexivity|].
    split; [assumption|].
    apply (Havg _ (fun _ _ _ _ _ => C0)).
    + exact Hwposi.
    + intros b p s i j. cbn [vval]. unfold Cadd, C0, Cscale.
      cbn [fst snd]. f_equal; ring.
    + intros b s i j. unfold Cmean_n, C0. cbn [fst snd].
      now rewrite mean_n_zero.
Qed.

Lemma get_varying_probe_weighted_sum_witness :
  exists unique,
    get_varying_probe (fun _ _ _ _ => C1)
      (Some {| ecount := 1; eshared := 1;
               evals := fun _ _ _ _ _ => C1 |})
      (Some {| wlead := 1; wposi := 2; weigen := 2; wshared := 1;
               wval := fun _ p e _ => INR p + INR e |}) = Ok unique /\
    vposi unique = 2%nat.
Proof.
  destruct (get_varying_probe_weighted_sum (fun _ _ _ _ => C1)
              {| ecount := 1; eshared := 1;
                 evals := fun _ _ _ _ _ => C1 |}
              {| wlead := 1; wposi := 2; weigen := 2; wshared := 1;
                 wval := fun _ p e _ => INR p + INR e |})
    as (unique & H & Hp & _).
  - cbn. lia.
  - cbn. lia.
  - exists unique. split; assumption.
Defined.

Lemma initial_varying_probe_averages_to_shared_witness :
  exists eigen weights unique,
    init_varying_probe (fun _ p _ _ => INR p) (fun _ _ _ _ _ => C1)
      (fun _ => 1) 1 2 1 2 1 = Ok (eigen, Some weights) /\
    get_varying_probe (fun _ _ _ _ => C1)
      (option_map
         (fun e => {| ecount := Z.to_nat (2 - 1);
                      eshared := Z.to_nat (Z.max 1 0);
                      evals := e |}) eigen)
      (Some weights) = Ok unique /\
    vposi unique = 2%nat /\
    forall b s i j,
      Cmean_n 2 (fun p => vval unique b p s i j) = C1.
Proof.
  apply (initial_varying_probe_averages_to_shared
           (fun _ p _ _ => INR p) (fun _ _ _ _ _ => C1) (fun _ => 1)
           (fun _ _ _ _ => C1) 1 2 1 2 1); lia.
Defined.

End VaryingProbe.

(** ** ptycho/probe.py: further constraints on the probe *)

Section ProbeConstraintsFurther.

Import Py Arr Probe ProbeSpec.
Open Scope R_scope.

(** X15: [constrain_variable_probe] leaves a weight as it is when its
    magnitude is at most 1.5 times the 95th percentile of the magnitudes
    of its column: only the outliers are changed. *)
Theorem constrain_variable_probe_keeps_inliers
    (probe_array : Type) (orthogonalize_gs : probe_array -> probe_array)
    (percentile : R -> list R -> R)
    (variable_probe : probe_array) (weights : weights_array)
    (b p e s : nat) :
  Rabs (wval weights b p e s)
    <= 3 / 2 * percentile 95 (aevol_column weights b e s) ->
  forall weights',
    In weights' (snd (constrain_variable_probe probe_array orthogonalize_gs
                        percentile variable_probe weights)) ->
    wval weights' b p e s = wval weights b p e s.
Proof.
  intros Hin weights' [<- | []]. cbn [wval].
  rewrite Rmin_left by exact Hin.
  set (w := wval weights b p e s) in *.
  destruct (Rtotal_order w 0) as [Hw | [Hw | Hw]].
  - rewrite (sign_neg w Hw), Rabs_left by exact Hw. ring.
  - rewrite Hw, sign_zero. ring.
  - rewrite (sign_pos w Hw), Rabs_pos_eq by lra. ring.
Qed.

Lemma constrain_variable_probe_keeps_inliers_witness :
  Rabs 1 <= 3 / 2 * 1 /\
  exists weights',
    snd (constrain_variable_probe unit (fun u => u) (fun _ _ => 1) tt
           {| wlead := 1; wposi := 1; weigen := 1; wshared := 1;
              wval := fun _ _ _ _ => 1 |}) = [weights'] /\
    wval weights' 0 0 0 0 = 1.
Proof.
  assert (H : Rabs 1 <= 3 / 2 * 1) by (rewrite Rabs_R1; lra).
  split; [exact H|]. eexists. split; [reflexivity|].
  apply (constrain_variable_probe_keeps_inliers unit (fun u => u)
           (fun _ _ => 1) tt
           {| wlead := 1; wposi := 1; weigen := 1; wshared := 1;
              wval := fun _ _ _ _ => 1 |} 0 0 0 0).
  - exact H.
  - left. reflexivity.
Defined.

Lemma Int_part_ge_nat (x : R) (n : nat) :
  INR n <= x -> (Z.of_nat n <= Int_part x)%Z.
Proof.
  intros H. destruct (Int_part_bounds x) as [_ Hu].
  rewrite INR_IZR_INZ in H.
  assert (Hlt : IZR (Z.of_nat n) < IZR (Int_part x + 1)).
  { rewrite plus_IZR. lra. }
  apply lt_IZR in Hlt. lia.
Qed.

(** X16: [constrain_probe_sparsity] cannot be asked to zero a whole
    probe, or to work on an empty one: with a fraction [f <= 0] on a
    probe that has pixels (whose smoothed intensity has as many pixels),
    and with any fraction other than 1 on a probe without pixels, the
    call raises ValueError. *)
Theorem constrain_probe_sparsity_rejects
    (gaussian_filter : nat * nat -> list R -> R * R -> list R)
    (argpartition : list R -> nat -> list nat)
    (probe : probe_stack) (f : R) :
  f <> 1 ->
  (prows probe * pcols probe = 0)%nat \/ f <= 0 ->
  (forall shape img sigma,
      length (gaussian_filter shape img sigma) = length img) ->
  exists msg,
    constrain_probe_sparsity gaussian_filter argpartition probe f
      = Raise (ValueError msg).
Proof.
  intros Hf1 Hcase Hfilter. unfold constrain_probe_sparsity.
  rewrite (proj2 (Reqb_false f 1) Hf1).
  destruct (prows probe * pcols probe =? 0)%nat eqn:En.
  { eexists. reflexivity. }
  apply Nat.eqb_neq in En.
  destruct Hcase as [Hz | Hf0]; [contradiction|].
  rewrite Hfilter, length_map, length_seq.
  set (n := (prows probe * pcols probe)%nat) in *.
  set (x := (1 - f) * INR (pcols probe) * INR (prows probe)).
  assert (Hxn : x = (1 - f) * INR n).
  { unfold x, n. rewrite mult_INR. ring. }
  assert (Hn : 0 <= INR n) by apply pos_INR.
  assert (Hx : INR n <= x) by (rewrite Hxn; nra).
  unfold py_int. destruct (Rle_dec 0 x) as [_ | Hneg]; [|lra].
  pose proof (Int_part_ge_nat x n Hx) as Hk.
  replace ((Int_part x <? - Z.of_nat n)%Z || (Z.of_nat n <=? Int_part x)%Z)%bool
    with true.
  - eexists. reflexivity.
  - symmetry. apply orb_true_iff. right. apply Z.leb_le. exact Hk.
Qed.

Lemma constrain_probe_sparsity_rejects_witness :
  exists msg,
    constrain_probe_sparsity (fun _ img _ => img) (fun _ _ => [])
      {| pstack := 1; prows := 1; pcols := 1; pval := fun _ _ => C1 |} 0
      = Raise (ValueError msg).
Proof.
  apply (constrain_probe_sparsity_rejects (fun _ img _ => img)
           (fun _ _ => [])
           {| pstack := 1; prows := 1; pcols := 1; pval := fun _ _ => C1 |}
           0).
  - lra.
  - right. lra.
  - reflexivity.
Defined.

Lemma existsb_eqb_In (q : nat) (l : list nat) :
  existsb (Nat.eqb q) l = true <-> In q l.
Proof.
  rewrite existsb_exists. split.
  - intros [x [Hx E]]. apply Nat.eqb_eq in E. now subst.
  - intros H. exists q. split; [assumption | apply Nat.eqb_refl].
Qed.

Lemma In_firstn_nth (l : list nat) (k q : nat) :
  In q (firstn k l) -> exists i, (i < k)%nat /\ (i < length l)%nat
                                 /\ nth i l 0%nat = q.
Proof.
  revert k. induction l as [|x l IH]; intros k H.
  - rewrite firstn_nil in H. contradiction.
  - destruct k as [|k]; [contradiction|]. cbn [firstn] in H.
    destruct H as [<- | H].
    + exists 0%nat. cbn [length nth]. repeat split; lia.
    + destruct (IH k H) as (i & Hi & Hl & E).
      exists (S i). cbn [length nth]. repeat split; try lia; exact E.
Qed.

Lemma nth_In_firstn (l : list nat) (k i : nat) :
  (i < k)%nat -> (i < length l)%nat -> In (nth i l 0%nat) (firstn k l).
Proof.
  revert k i. induction l as [|x l IH]; intros k i Hk Hl.
  - cbn [length] in Hl. lia.
  - destruct k as [|k]; [lia|]. destruct i as [|i].
    + left. reflexivity.
    + right. apply IH; cbn [length] in Hl; lia.
Qed.

(** X17: for [0 < f < 1] on a probe with pixels, when the partition that
    [np.argpartition] returns for this call is a permutation of the flat
    pixel indices in which no entry before position [k] has a larger
    smoothed intensity than an entry from position [k] on,
    [constrain_probe_sparsity] zeroes, in every mode, exactly the [k]
    pixels that the partition lists first and leaves every other pixel
    as it was; no zeroed pixel has a larger smoothed intensity than a
    pixel that is kept. *)
Theorem constrain_probe_sparsity_zeroes_dimmest
    (gaussian_filter : nat * nat -> list R -> R * R -> list R)
    (argpartition : list R -> nat -> list nat)
    (probe : probe_stack) (f : R) :
  let n := (prows probe * pcols probe)%nat in
  let k := Z.to_nat
             (Int_part ((1 - f) * INR (pcols probe) * INR (prows probe))) in
  let smooth :=
    gaussian_filter (prows probe, pcols probe)
      (map (fun q =>
              sum_n (pstack probe)
                (fun t => Cabs (pval probe t q) * Cabs (pval probe t q)))
           (seq 0 n))
      (INR (prows probe) / 8, INR (pcols probe) / 8) in
  let order := argpartition smooth k in
  0 < f < 1 ->
  (0 < n)%nat ->
  length smooth = n ->
  Permutation order (seq 0 n) ->
  (forall i j, (i < k)%nat -> (k <= j < n)%nat ->
     nth (nth i order 0%nat) smooth 0 <= nth (nth j order 0%nat) smooth 0) ->
  exists probe',
    constrain_probe_sparsity gaussian_filter argpartition probe f
      = Ok probe' /\
    (k < n)%nat /\
    length (firstn k order) = k /\
    NoDup (firstn k order) /\
    (forall q t, In q (firstn k order) ->
       (q < n)%nat /\ pval probe' t q = C0) /\
    (forall q t, ~ In q (firstn k order) ->
       pval probe' t q = pval probe t q) /\
    (forall q q', In q (firstn k order) -> (q' < n)%nat ->
       ~ In q' (firstn k order) ->
       nth q smooth 0 <= nth q' smooth 0).
Proof.
  intros n k smooth order [Hf0 Hf1] Hn Hlen Hperm Hord.
  set (x := (1 - f) * INR (pcols probe) * INR (prows probe)) in *.
  assert (HnR : 0 < INR n) by (apply lt_0_INR; exact Hn).
  assert (Hxn : x = (1 - f) * INR n).
  { unfold x, n. rewrite mult_INR. ring. }
  assert (Hx0 : 0 <= x) by (rewrite Hxn; nra).
  assert (Hxlt : x < INR n) by (rewrite Hxn; nra).
  assert (Hkb := Int_part_bounds x).
  assert (Hk0 : (0 <= Int_part x)%Z) by (apply Int_part_nonneg; exact Hx0).
  assert (Hkn : (Int_part x < Z.of_nat n)%Z).
  { apply lt_IZR. rewrite <- INR_IZR_INZ. lra. }
  assert (Hk : (k < n)%nat) by (unfold k; lia).
  assert (Hlo : length order = n).
  { rewrite (Permutation_length Hperm). apply length_seq. }
  assert (Hnd : NoDup order).
  { apply (Permutation_NoDup (Permutation_sym Hperm)). apply seq_NoDup. }
  assert (Hres : constrain_probe_sparsity gaussian_filter argpartition probe f
           = Ok {| pstack := pstack probe; prows := prows probe;
                   pcols := pcols probe;
                   pval := fun t q =>
                     if existsb (Nat.eqb q) (firstn k order)
                     then C0 else pval probe t q |}).
  { unfold constrain_probe_sparsity.
    rewrite (proj2 (Reqb_false f 1)) by lra.
    replace (prows probe * pcols probe =? 0)%nat with false
      by (symmetry; apply Nat.eqb_neq; fold n; lia).
    fold n. fold smooth. fold x. rewrite Hlen.
    unfold py_int. destruct (Rle_dec 0 x) as [_ | Hneg]; [|lra].
    replace ((Int_part x <? - Z.of_nat n)%Z
             || (Z.of_nat n <=? Int_part x)%Z)%bool with false.
    2:{ symmetry. apply orb_false_iff. split.
        - apply Z.ltb_ge. lia.
        - apply Z.leb_gt. lia. }
    replace (Int_part x <? 0)%Z with false
      by (symmetry; apply Z.ltb_ge; lia).
    unfold slice_to.
    replace (0 <=? Int_part x)%Z with true
      by (symmetry; apply Z.leb_le; lia).
    reflexivity. }
  eexists. split; [exact Hres|]. cbn [pval].
  split; [exact Hk|].
  split; [rewrite length_firstn; lia|].
  split.
  { rewrite <- (firstn_skipn k order) in Hnd.
    now apply NoDup_app_remove_r in Hnd. }
  split.
  { intros q t Hq. split.
    - assert (Hq' : In q order).
      { rewrite <- (firstn_skipn k order). apply in_or_app. now left. }
      apply (Permutation_in _ Hperm) in Hq'. apply in_seq in Hq'. lia.
    - now rewrite (proj2 (existsb_eqb_In q _) Hq). }
  split.
  { intros q t Hq.
    destruct (existsb (Nat.eqb q) (firstn k order)) eqn:E; [|reflexivity].
    apply existsb_eqb_In in E. contradiction. }
  intros q q' Hq Hq' Hnot.
  destruct (In_firstn_nth _ _ _ Hq) as (i & Hi & _ & <-).
  assert (Hin : In q' order).
  { apply (Permutation_in _ (Permutation_sym Hperm)). apply in_seq. lia. }
  destruct (In_nth _ _ 0%nat Hin) as (j & Hj & <-).
  apply Hord; [exact Hi|]. split; [|lia].
  destruct (Nat.lt_ge_cases j k) as [Hlt | Hge]; [|exact Hge].
  exfalso. apply Hnot. now apply nth_In_firstn.
Qed.

Lemma constrain_probe_sparsity_zeroes_dimmest_witness :
  exists probe',
    constrain_probe_sparsity (fun _ img _ => img) (fun _ _ => [0; 1]%nat)
      {| pstack := 1; prows := 1; pcols := 2;
         pval := fun _ q => (INR q, 0) |} (1 / 2) = Ok probe' /\
    pval probe' 0%nat 0%nat = C0.
Proof.
  assert (Hk : Int_part ((1 - 1 / 2) * INR 2 * INR 1) = 1%Z).
  { replace ((1 - 1 / 2) * INR 2 * INR 1) with (IZR 1) by (simpl; lra).
    destruct (base_Int_part (IZR 1)) as [Hl Hu].
    assert (H1 : IZR (Int_part (IZR 1)) < IZR 2) by lra.
    assert (H2 : IZR 0 < IZR (Int_part (IZR 1))) by lra.
    apply lt_IZR in H1, H2. lia. }
  destruct (constrain_probe_sparsity_zeroes_dimmest (fun _ img _ => img)
              (fun _ _ => [0; 1]%nat)
              {| pstack := 1; prows := 1; pcols := 2;
                 pval := fun _ q => (INR q, 0) |} (1 / 2))
    as (probe' & Hres & _ & _ & _ & Hzero & _).
  - lra.
  - cbn. lia.
  - reflexivity.
  - apply Permutation_refl.
  - cbn [pstack prows pcols pval]. rewrite Hk.
    change (Z.to_nat 1) with 1%nat.
    intros i j Hi Hj.
    assert (Ei : i = 0%nat) by lia.
    assert (Ej : j = 1%nat) by (change (1 * 2)%nat with 2%nat in Hj; lia).
    subst i j.
    change (1 * 2)%nat with 2%nat. cbn [seq map nth].
    unfold sum_n, sum. cbn [seq map fold_right].
    assert (H0 : Cabs (INR 0, 0) = 0).
    { unfold Cabs. cbn [fst snd INR].
      replace (0 * 0 + 0 * 0) with 0 by ring. apply sqrt_0. }
    rewrite H0.
    assert (H1 : 0 <= Cabs (INR 1, 0) * Cabs (INR 1, 0)).
    { apply Rmult_le_pos; apply sqrt_pos. }
    lra.
  - exists probe'. split; [exact Hres|].
    cbn [pstack prows pcols pval] in Hzero. rewrite Hk in Hzero.
    destruct (Hzero 0%nat 0%nat) as [_ H]; [|exact H].
    left. reflexivity.
Defined.

End ProbeConstraintsFurther.

(** ** ptycho/probe.py: centring, added modes and the initial probe *)

Section ProbeShapes.

Import Py Arr Probe ProbeSpec.
Open Scope R_scope.

(** [argmax_from] continues a scan of the array [a] from index [i]: it
    returns an index of [a] that holds the largest entry, the first such
    index. *)
Lemma argmax_from_spec (a : list R) :
  forall (l : list R) (i best : nat) (largest : R),
    l = skipn i a ->
    (best < i)%nat -> (i <= length a)%nat ->
    largest = nth best a 0 ->
    (forall q, (q < i)%nat -> nth q a 0 <= largest) ->
    (forall q, (q < best)%nat -> nth q a 0 < largest) ->
    let r := argmax_from l i best largest in
    (r < length a)%nat /\
    (forall q, (q < length a)%nat -> nth q a 0 <= nth r a 0) /\
    (forall q, (q < r)%nat -> nth q a 0 < nth r a 0).
Proof.
  induction l as [|x l IH]; intros i best largest Hl Hb Hi Hlg Hmax Hfirst.
  - cbn [argmax_from].
    assert (Hlen : (length a <= i)%nat).
    { assert (E : length (skipn i a) = 0%nat) by (rewrite <- Hl; reflexivity).
      rewrite length_skipn in E. lia. }
    subst largest. repeat split.
    + lia.
    + intros q Hq. apply Hmax. lia.
    + exact Hfirst.
  - assert (Hx : nth i a 0 = x /\ l = skipn (S i) a /\ (i < length a)%nat).
    { assert (Hlen : length (skipn i a) = S (length l))
        by (rewrite <- Hl; reflexivity).
      rewrite length_skipn in Hlen.
      assert (Hia : (i < length a)%nat) by lia.
      rewrite <- (firstn_skipn i a) at 1.
      rewrite app_nth2 by (rewrite length_firstn; lia).
      rewrite length_firstn, Nat.min_l, Nat.sub_diag, <- Hl by lia.
      repeat split; try assumption.
      replace (S i) with (1 + i)%nat by lia.
      rewrite <- skipn_skipn, <- Hl. reflexivity. }
    destruct Hx as (Hx & Hl' & Hia).
    cbn [argmax_from]. destruct (Rlt_dec largest x) as [Hlt | Hge].
    + apply IH; try assumption; try lia.
      * now symmetry.
      * intros q Hq. destruct (Nat.eq_dec q i) as [-> | Hne].
        -- rewrite Hx. lra.
        -- specialize (Hmax q ltac:(lia)). lra.
      * intros q Hq. specialize (Hmax q Hq). lra.
    + apply IH; try assumption; try lia.
      intros q Hq. destruct (Nat.eq_dec q i) as [-> | Hne].
      * rewrite Hx. lra.
      * apply Hmax. lia.
Qed.

Lemma argmax_spec (a : list R) :
  (0 < length a)%nat ->
  exists r, argmax a = Ok r /\ (r < length a)%nat /\
    (forall q, (q < length a)%nat -> nth q a 0 <= nth r a 0) /\
    (forall q, (q < r)%nat -> nth q a 0 < nth r a 0).
Proof.
  intros Hlen. destruct a as [|x l]; [cbn in Hlen; lia|].
  eexists. split; [reflexivity|].
  apply (argmax_from_spec (x :: l) l 1 0 x).
  - reflexivity.
  - lia.
  - cbn [length]. lia.
  - reflexivity.
  - intros q Hq. assert (q = 0%nat) by lia. subst. cbn [nth]. lra.
  - intros q Hq. lia.
Qed.

Lemma rolled_index_back (n h k : nat) :
  (k < n)%nat ->
  rolled_index n (Z.of_nat h - Z.of_nat k) h = k.
Proof.
  intros Hk. unfold rolled_index.
  replace (Z.of_nat h - (Z.of_nat h - Z.of_nat k))%Z with (Z.of_nat k) by lia.
  rewrite Z.mod_small by lia. apply Nat2Z.id.
Qed.

Lemma rolled_index_zero (n i : nat) :
  (i < n)%nat -> rolled_index n 0 i = i.
Proof.
  intros Hi. unfold rolled_index. rewrite Z.sub_0_r.
  rewrite Z.mod_small by lia. apply Nat2Z.id.
Qed.

(** X18: on a probe with pixels whose smoothed intensity has as many
    pixels, [constrain_center_peak] returns a probe of the same
    dimensions in which, in every mode, the centre pixel
    (rows // 2, cols // 2) holds the pixel of the input at the first
    maximum of the smoothed intensity; when that maximum is already at
    the centre the probe is returned as it was. *)
Theorem constrain_center_peak_centres_maximum
    (gaussian_filter : nat * nat -> list R -> R * R -> list R)
    (probe : probe_stack) :
  let rows := prows probe in
  let cols := pcols probe in
  let smooth :=
    gaussian_filter (rows, cols)
      (map (fun q =>
              sum_n (pstack probe)
                (fun t => Cabs (pval probe t q) * Cabs (pval probe t q)))
           (seq 0 (rows * cols)))
      (INR (rows / 2), INR (cols / 2)) in
  let centre := (rows / 2 * cols + cols / 2)%nat in
  (0 < rows * cols)%nat ->
  length smooth = (rows * cols)%nat ->
  exists probe' peak,
    constrain_center_peak gaussian_filter probe = Ok probe' /\
    (pstack probe', prows probe', pcols probe') =
    (pstack probe, rows, cols) /\
    (peak < rows * cols)%nat /\
    (forall q, (q < rows * cols)%nat -> nth q smooth 0 <= nth peak smooth 0) /\
    (forall q, (q < peak)%nat -> nth q smooth 0 < nth peak smooth 0) /\
    (centre < rows * cols)%nat /\
    (forall t, pval probe' t centre = pval probe t peak) /\
    (peak = centre ->
     forall t q, (q < rows * cols)%nat -> pval probe' t q = pval probe t q).
Proof.
  intros rows cols smooth centre Hpix Hlen.
  destruct (argmax_spec smooth) as (peak & Harg & Hpk & Hmax & Hfirst);
    [lia|].
  rewrite Hlen in Hpk, Hmax.
  assert (Hrows : (0 < rows)%nat) by nia.
  assert (Hcols : (0 < cols)%nat) by nia.
  assert (Hhc : (cols / 2 < cols)%nat) by (apply Nat.div_lt; lia).
  assert (Hhr : (rows / 2 < rows)%nat) by (apply Nat.div_lt; lia).
  assert (Hcq : (centre / cols = rows / 2)%nat).
  { unfold centre. rewrite Nat.div_add_l by lia.
    rewrite (Nat.div_small (cols / 2) cols) by lia. lia. }
  assert (Hcm : (centre mod cols = cols / 2)%nat).
  { unfold centre. rewrite Nat.add_comm, Nat.Div0.mod_add.
    apply Nat.mod_small. lia. }
  assert (Hpr : (peak / cols < rows)%nat).
  { apply Nat.Div0.div_lt_upper_bound. lia. }
  assert (Hpc : (peak mod cols < cols)%nat) by (apply Nat.mod_upper_bound; lia).
  assert (Hpeak : (peak = peak / cols * cols + peak mod cols)%nat).
  { rewrite (Nat.div_mod_eq peak cols) at 1. lia. }
  assert (Hcentre : (centre < rows * cols)%nat).
  { unfold centre. nia. }
  eexists. exists peak. split.
  { unfold constrain_center_peak. fold rows cols.
    replace (rows * cols =? 0)%nat with false
      by (symmetry; apply Nat.eqb_neq; lia).
    cbn [fst snd]. fold smooth. rewrite Harg. cbn [bind].
    replace (peak <? rows * cols)%nat with true
      by (symmetry; apply Nat.ltb_lt; lia).
    cbn [bind]. reflexivity. }
  cbn [pstack prows pcols pval].
  split; [reflexivity|].
  split; [exact Hpk|]. split; [exact Hmax|]. split; [exact Hfirst|].
  split; [exact Hcentre|].
  split.
  - intros t. rewrite Hcq, Hcm.
    rewrite !rolled_index_back by assumption.
    now rewrite <- Hpeak.
  - intros Hpeq t q Hq.
    rewrite Hpeq, Hcq, Hcm, !Z.sub_diag.
    assert (Hqr : (q / cols < rows)%nat).
    { apply Nat.Div0.div_lt_upper_bound. lia. }
    assert (Hqc : (q mod cols < cols)%nat)
      by (apply Nat.mod_upper_bound; lia).
    rewrite !rolled_index_zero by assumption.
    f_equal. rewrite (Nat.div_mod_eq q cols) at 3. lia.
Qed.

Lemma constrain_center_peak_centres_maximum_witness :
  exists probe' peak,
    constrain_center_peak (fun _ img _ => img)
      {| pstack := 1; prows := 1; pcols := 2;
         pval := fun _ q => (INR q, 0) |} = Ok probe' /\
    (peak < 2)%nat /\
    forall t, pval probe' t 1%nat = (INR peak, 0).
Proof.
  destruct (constrain_center_peak_centres_maximum (fun _ img _ => img)
              {| pstack := 1; prows := 1; pcols := 2;
                 pval := fun _ q => (INR q, 0) |})
    as (probe' & peak & Hres & _ & Hpk & _ & _ & _ & Hval & _).
  - cbn. lia.
  - reflexivity.
  - exists probe', peak. split; [exact Hres|]. split; [exact Hpk|].
    exact Hval.
Defined.

Lemma Cabs_mul (z w : C) : Cabs (Cmul z w) = Cabs z * Cabs w.
Proof.
  unfold Cabs, Cmul. destruct z as [a b], w as [c d]. cbn [fst snd].
  rewrite <- sqrt_mult by nra. f_equal. ring.
Qed.

Lemma Cabs_exp_i (theta : R) : Cabs (Cexp_i theta) = 1.
Proof.
  unfold Cabs, Cexp_i. cbn [fst snd].
  replace (cos theta * cos theta + sin theta * sin theta) with 1.
  - apply sqrt_1.
  - pose proof (sin2_cos2 theta) as H. unfold Rsqr in H. lra.
Qed.

(** X19: from a probe with at least one mode whose images are square or
    one pixel wide, [add_modes_random_phase] returns [nmodes] modes of
    the same image size: the modes that the probe already had are copied
    and every added mode has, pixel by pixel, the magnitude of the first
    mode, whatever the random draws. *)
Theorem add_modes_random_phase_keeps_magnitude
    (rand : nat -> nat -> R) (probe : mode_stack) (nmodes : nat) :
  (0 < mmodes probe)%nat ->
  mrows probe = mcols probe \/ mcols probe = 1%nat ->
  exists all_modes,
    add_modes_random_phase rand probe nmodes = Ok all_modes /\
    (mmodes all_modes, mrows all_modes, mcols all_modes) =
    (nmodes, mrows probe, mcols probe) /\
    (forall b m i j, (m < mmodes probe)%nat ->
       mval all_modes b m i j = mval probe b m i j) /\
    (forall b m i j, (mmodes probe <= m)%nat ->
       Cabs (mval all_modes b m i j) = Cabs (mval probe b 0%nat i j)).
Proof.
  intros Hm Hshape. unfold add_modes_random_phase.
  replace (mmodes probe =? 0)%nat with false
    by (symmetry; apply Nat.eqb_neq; lia).
  rewrite andb_false_r. cbn [bind].
  replace ((mrows probe =? mcols probe)%nat || (mcols probe =? 1)%nat)%bool
    with true.
  2:{ symmetry. apply orb_true_iff.
      destruct Hshape as [H | H]; [left | right]; now apply Nat.eqb_eq. }
  cbn [negb]. rewrite andb_false_r. cbn [bind].
  eexists. split; [reflexivity|]. cbn [mmodes mrows mcols mval].
  split; [reflexivity|]. split.
  - intros b m i j Hlt.
    now rewrite (proj2 (Nat.ltb_lt m (mmodes probe)) Hlt).
  - intros b m i j Hge.
    rewrite (proj2 (Nat.ltb_ge m (mmodes probe)) Hge).
    unfold shift. rewrite !Cabs_mul, !Cabs_exp_i. ring.
Qed.

Lemma add_modes_random_phase_keeps_magnitude_witness :
  exists all_modes,
    add_modes_random_phase (fun _ _ => 1 / 4)
      {| mmodes := 1; mrows := 2; mcols := 2;
         mval := fun _ _ _ _ => C1 |} 3 = Ok all_modes /\
    mmodes all_modes = 3%nat /\
    forall b i j, Cabs (mval all_modes b 2%nat i j) = Cabs C1.
Proof.
  destruct (add_modes_random_phase_keeps_magnitude (fun _ _ => 1 / 4)
              {| mmodes := 1; mrows := 2; mcols := 2;
                 mval := fun _ _ _ _ => C1 |} 3)
    as (all_modes & Hres & Hdims & _ & Hmag).
  - cbn. lia.
  - left. reflexivity.
  - exists all_modes. split; [exact Hres|]. split; [congruence|].
    intros b i j. apply (Hmag b 2%nat i j). cbn. lia.
Defined.

Lemma radius_sym (size i j : nat) : radius size i j = radius size j i.
Proof. unfold radius. f_equal. ring. Qed.

(** X20: for a grid with pixels, [gaussian] returns an image whose every
    value lies between 0 and 1, whatever the two radii, and which is
    symmetric under the exchange of rows and columns; it is 0 wherever
    the distance from the centre exceeds the outer limit and 1 wherever
    it is below the inner limit and not above the outer one. *)
Theorem gaussian_values (size : nat) (rin rout : R) :
  (0 < size)%nat ->
  let rmax := sqrt 2 * (1 / 2) * rout * radius_max size + 1 in
  let rmin := sqrt 2 * (1 / 2) * rin * radius_max size in
  exists img,
    gaussian size rin rout = Ok img /\
    (forall i j, 0 <= img i j <= 1) /\
    (forall i j, img i j = img j i) /\
    (forall i j, rmax < radius size i j -> img i j = 0) /\
    (forall i j, radius size i j < rmin -> radius size i j <= rmax ->
       img i j = 1).
Proof.
  intros Hsize rmax rmin. unfold gaussian.
  replace (size =? 0)%nat with false by (symmetry; apply Nat.eqb_neq; lia).
  fold rmax rmin. eexists. split; [reflexivity|]. cbn beta.
  clearbody rmax rmin.
  split; [|split; [|split]].
  - intros i j. set (rs := radius size i j).
    destruct (Rlt_dec rmin rs) as [H1 | H1];
      destruct (Rlt_dec rs rmax) as [H2 | H2];
      destruct (Rlt_dec rmax rs) as [H3 | H3];
      destruct (Rlt_dec rs rmin) as [H4 | H4]; try (split; lra).
    assert (Hd : 0 < rmax - rmin) by lra.
    split.
    + apply Rmult_le_pos; [lra | left; now apply Rinv_0_lt_compat].
    + apply (Rmult_le_reg_r (rmax - rmin)); [exact Hd|].
      unfold Rdiv. rewrite Rmult_assoc, Rinv_l by lra. lra.
  - intros i j. now rewrite (radius_sym size j i).
  - intros i j Hout. set (rs := radius size i j) in *.
    destruct (Rlt_dec rmin rs); destruct (Rlt_dec rs rmax);
      destruct (Rlt_dec rmax rs); destruct (Rlt_dec rs rmin);
      try reflexivity; lra.
  - intros i j Hin Hle. set (rs := radius size i j) in *.
    destruct (Rlt_dec rmin rs); destruct (Rlt_dec rs rmax);
      destruct (Rlt_dec rmax rs); destruct (Rlt_dec rs rmin);
      try reflexivity; lra.
Qed.

Lemma gaussian_values_witness :
  exists img,
    gaussian 2 (4 / 5) 1 = Ok img /\
    forall i j, 0 <= img i j <= 1.
Proof.
  destruct (gaussian_values 2 (4 / 5) 1) as (img & Hres & Hrange & _).
  - lia.
  - exists img. split; assumption.
Defined.

(** X21: with an inner radius of 0, [gaussian] on a grid of odd side
    leaves the pixel at the very centre at 0: its distance 0 from the
    centre is neither below nor above the inner limit 0, so that neither
    the assignment of 1 nor the ramp reaches it. *)
Theorem gaussian_centre_pixel_is_zero (half : nat) (rout : R) :
  exists img,
    gaussian (2 * half + 1) 0 rout = Ok img /\
    radius (2 * half + 1) half half = 0 /\
    img half half = 0.
Proof.
  assert (Hr : radius (2 * half + 1) half half = 0).
  { unfold radius. rewrite plus_INR, mult_INR. cbn [INR].
    replace ((INR half + 1 / 2 - ((1 + 1) * INR half + 1) / 2) ^ 2
             + (INR half + 1 / 2 - ((1 + 1) * INR half + 1) / 2) ^ 2)
      with 0 by field.
    apply sqrt_0. }
  unfold gaussian.
  replace (2 * half + 1 =? 0)%nat with false
    by (symmetry; apply Nat.eqb_neq; lia).
  eexists. split; [reflexivity|]. split; [exact Hr|]. cbn beta.
  rewrite Hr.
  replace (sqrt 2 * (1 / 2) * 0 * radius_max (2 * half + 1)) with 0 by ring.
  destruct (Rlt_dec 0 0) as [H | _]; [lra|].
  destruct (Rlt_dec _ 0); reflexivity.
Qed.

End ProbeShapes.

(** ** ptycho/probe.py: what update_eigen_probe changes *)

Section EigenProbeUpdateFrame.

Import Py Arr Probe ProbeSpec.
Open Scope R_scope.

Lemma mapM_Ok_Forall2 {A B : Type} (f : A -> result B) (l : list A)
    (ys : list B) :
  mapM f l = Ok ys -> Forall2 (fun x y => f x = Ok y) l ys.
Proof.
  revert ys. induction l as [|a l IH]; intros ys H.
  - cbn in H. injection H as <-. constructor.
  - cbn [mapM] in H. destruct (f a) as [b|e] eqn:Ea; [|discriminate].
    cbn [bind] in H. destruct (mapM f l) as [bs|e] eqn:El; [|discriminate].
    cbn [bind] in H. injection H as <-. constructor; auto.
Qed.

Lemma Forall2_combine_repeat {A B D : Type} (P : A * B -> D -> Prop)
    (x : B) (l : list A) (ys : list D) (n : nat) :
  n = length l ->
  Forall2 P (combine l (repeat x n)) ys ->
  Forall2 (fun a y => P (a, x) y) l ys.
Proof.
  revert ys n. induction l as [|a l IH]; intros ys n Hn H.
  - subst n. cbn in H. inversion H. constructor.
  - subst n. cbn [length repeat combine] in H.
    inversion H as [|? y ? ys' Hp Hrest]; subst.
    constructor; [exact Hp|]. now apply (IH ys' (length l)).
Qed.

Lemma Forall2_combine3 {A B D E : Type} (P : (B * D) * A -> E -> Prop)
    (Q : A -> B -> Prop) (x : D) (l : list A) (rs : list B) (ys : list E)
    (n : nat) :
  n = length l ->
  Forall2 Q l rs ->
  Forall2 P (combine (combine rs (repeat x n)) l) ys ->
  Forall2 (fun ar y => P ((snd ar, x), fst ar) y) (combine l rs) ys.
Proof.
  intros Hn HQ. revert ys n Hn.
  induction HQ as [|a r l rs Hq HQ IH]; intros ys n Hn H.
  - subst n. cbn in H. inversion H. constructor.
  - subst n. cbn [length repeat combine] in H.
    inversion H as [|? y ? ys' Hp Hrest]; subst.
    cbn [combine]. constructor; [exact Hp|].
    now apply (IH ys' (length l)).
Qed.

Lemma Forall2_nth_error {A B : Type} (P : A -> B -> Prop) (l : list A)
    (ys : list B) (k : nat) (a : A) :
  Forall2 P l ys -> nth_error l k = Some a ->
  exists y, nth_error ys k = Some y /\ P a y.
Proof.
  intros H. revert k. induction H as [|x y l ys Hp H IH]; intros k Hk.
  - destruct k; discriminate.
  - destruct k as [|k].
    + cbn in Hk. injection Hk as ->. exists y. split; [reflexivity|exact Hp].
    + cbn in Hk. cbn [nth_error]. now apply IH.
Qed.

Lemma Forall2_length_eq {A B : Type} (P : A -> B -> Prop) (l : list A)
    (ys : list B) : Forall2 P l ys -> length l = length ys.
Proof. induction 1; cbn [length]; congruence. Qed.

Lemma nth_error_combine {A B : Type} (l : list A) (rs : list B) (k : nat)
    (a : A) (r : B) :
  nth_error l k = Some a -> nth_error rs k = Some r ->
  nth_error (combine l rs) k = Some (a, r).
Proof.
  revert rs k. induction l as [|x l IH]; intros rs k Ha Hr.
  - destruct k; discriminate.
  - destruct rs as [|y rs]; [destruct k; discriminate|].
    destruct k as [|k]; cbn in *.
    + congruence.
    + now apply IH.
Qed.

Variable comm : Comm.
Variable mnorm : (nat -> nat -> C) -> R.
Variables lead wide high : nat.
Variable beta : R.
Variables c m : nat.

(** What a returning call went through: one update [u] shared by all
    workers, one result of [_get_d] per worker, one position-averaged
    energy [dm] shared by all workers and one array of weights per
    worker. *)
Lemma update_eigen_probe_Ok_inv (workers : list worker)
    (eigen : list eigen_array)
    (ws : list (nat -> nat -> nat -> nat -> R)) :
  update_eigen_probe comm mnorm lead wide high beta c m workers
    = Ok (eigen, ws) ->
  exists u dm rs,
    Forall2 (fun w r => _get_d mnorm lead wide high beta c m w u = Ok r)
      workers rs /\
    eigen = map d_eigen_probe rs /\
    Forall2 (fun wr wt =>
               _get_weights_mean lead c m (d_n (snd wr)) (d_d (snd wr)) dm
                 (fst wr) = Ok wt)
      (combine workers rs) ws.
Proof.
  unfold update_eigen_probe. intros H.
  destruct workers as [|w0 workers']; [discriminate|].
  set (workers := w0 :: workers') in *.
  cbn [bind] in H.
  destruct (mapM (_get_update lead wide high c m) workers) as [us|e] eqn:Eu;
    [|discriminate].
  cbn [bind] in H.
  set (u := if use_mpi comm then Allreduce_mean_update comm us
            else reduce_mean_update us).
  assert (Hb : (if use_mpi comm
                then bcast (length workers) (Allreduce_mean_update comm us)
                else bcast (length workers) (reduce_mean_update us))
               = repeat u (length workers)).
  { unfold u, bcast. now destruct (use_mpi comm). }
  rewrite Hb in H. clear Hb.
  destruct (mapM _ (combine workers (repeat u (length workers))))
    as [rs|e] eqn:Er; [|discriminate].
  cbn [bind] in H.
  set (dm := if use_mpi comm
             then Allreduce_mean_d_mean comm (map d_d_mean rs)
             else reduce_mean_d_mean (map d_d_mean rs)).
  assert (Hb : (if use_mpi comm
                then bcast (length workers)
                       (Allreduce_mean_d_mean comm (map d_d_mean rs))
                else bcast (length workers)
                       (reduce_mean_d_mean (map d_d_mean rs)))
               = repeat dm (length workers)).
  { unfold dm, bcast. now destruct (use_mpi comm). }
  rewrite Hb in H. clear Hb.
  destruct (mapM _ (combine (combine rs (repeat dm (length workers))) workers))
    as [wts|e] eqn:Ew; [|discriminate].
  cbn [bind] in H. injection H as <- <-.
  exists u, dm, rs.
  apply mapM_Ok_Forall2 in Er, Ew.
  apply (Forall2_combine_repeat
           (fun wu r => _get_d mnorm lead wide high beta c m (fst wu) (snd wu)
                        = Ok r) u workers rs (length workers) eq_refl) in Er.
  cbn [fst snd] in Er.
  split; [exact Er|]. split; [reflexivity|].
  apply (Forall2_combine3
           (fun x wt =>
              _get_weights_mean lead c m (d_n (fst (fst x)))
                (d_d (fst (fst x))) (snd (fst x)) (snd x) = Ok wt)
           _ dm workers rs wts (length workers) eq_refl Er) in Ew.
  exact Ew.
Qed.

Lemma get_d_Ok_inv (w : worker) (u : update_array) (r : d_result) :
  _get_d mnorm lead wide high beta c m w u = Ok r ->
  (forall b, (b < lead)%nat ->
     ufinite u b = true /\ mnorm (uval u b) <> 0 /\
     mnorm (moved_mode mnorm beta c m w u b) <> 0) /\
  d_eigen_probe r = (fun b e s i j =>
     if ((e =? c - 1)%nat && (s =? m)%nat)%bool
     then normed_mode mnorm beta c m w u b i j
     else eigen_probe w b e s i j).
Proof.
  rewrite get_d_unfold.
  destruct (forallb _ (seq 0 lead)) eqn:E; [|discriminate].
  cbn [assert_ bind]. intros [= <-]. split; [|reflexivity].
  intros b Hb. rewrite forallb_forall in E.
  specialize (E b (proj2 (in_seq lead 0 b) ltac:(lia))).
  apply andb_true_iff in E. destruct E as [E E3].
  apply andb_true_iff in E. destruct E as [E1 E2].
  apply negb_true_iff in E2, E3. apply Reqb_false in E2, E3.
  auto.
Qed.

(** X22: a call of [update_eigen_probe] that returns gives one eigen
    probe array and one array of weights per worker, and changes
    nothing but the selected slices: every eigen probe other than
    (c - 1, m), and every weight outside the column (c, m), is
    returned as it was given. *)
Theorem update_eigen_probe_frame (workers : list worker)
    (eigen : list eigen_array)
    (ws : list (nat -> nat -> nat -> nat -> R)) :
  update_eigen_probe comm mnorm lead wide high beta c m workers
    = Ok (eigen, ws) ->
  length eigen = length workers /\
  length ws = length workers /\
  forall k w, nth_error workers k = Some w ->
    exists e' w',
      nth_error eigen k = Some e' /\
      nth_error ws k = Some w' /\
      (forall b e s i j, (e, s) <> ((c - 1)%nat, m) ->
         e' b e s i j = eigen_probe w b e s i j) /\
      (forall b p e s, (e, s) <> (c, m) ->
         w' b p e s = weights w b p e s).
Proof.
  intros H.
  destruct (update_eigen_probe_Ok_inv workers eigen ws H)
    as (u & dm & rs & Hd & -> & Hw).
  pose proof (Forall2_length_eq _ _ _ Hd) as Hlr.
  pose proof (Forall2_length_eq _ _ _ Hw) as Hlw.
  rewrite length_combine, <- Hlr, Nat.min_id in Hlw.
  split; [rewrite length_map; lia|]. split; [lia|].
  intros k w Hk.
  destruct (Forall2_nth_error _ _ _ k w Hd Hk) as (r & Hr & Hgd).
  pose proof (nth_error_combine _ _ _ _ _ Hk Hr) as Hkr.
  destruct (Forall2_nth_error _ _ _ k (w, r) Hw Hkr) as (w' & Hw' & Hgw).
  cbn [fst snd] in Hgw.
  exists (d_eigen_probe r), w'.
  split; [now rewrite nth_error_map, Hr|]. split; [exact Hw'|].
  split.
  - intros b e s i j Hne.
    destruct (get_d_Ok_inv w u r Hgd) as [_ ->].
    destruct ((e =? c - 1)%nat && (s =? m)%nat)%bool eqn:E; [|reflexivity].
    apply andb_true_iff in E. destruct E as [E1 E2].
    apply Nat.eqb_eq in E1, E2. subst. now elim Hne.
  - intros b p e s Hne. unfold _get_weights_mean in Hgw.
    destruct (forallb _ (seq 0 lead)); [|discriminate].
    cbn [assert_ bind] in Hgw. injection Hgw as <-.
    destruct ((e =? c)%nat && (s =? m)%nat)%bool eqn:E; [|reflexivity].
    apply andb_true_iff in E. destruct E as [E1 E2].
    apply Nat.eqb_eq in E1, E2. subst. now elim Hne.
Qed.

(** [tike.linalg.mnorm] reads the pixels of the image only, is not
    negative, and divides with the image. *)
Hypothesis mnorm_pixels : forall f g,
  (forall i j, (i < wide)%nat -> (j < high)%nat -> f i j = g i j) ->
  mnorm f = mnorm g.
Hypothesis mnorm_nonneg : forall f, 0 <= mnorm f.
Hypothesis mnorm_div : forall f r, 0 < r ->
  mnorm (fun i j => Cdiv_real (f i j) r) = mnorm f / r.

(** X23: in every eigen probe array that a returning call of
    [update_eigen_probe] gives back, the selected eigen probe
    (c - 1, m) has mean norm 1 at every leading index. *)
Theorem update_eigen_probe_unit_norm (workers : list worker)
    (eigen : list eigen_array)
    (ws : list (nat -> nat -> nat -> nat -> R)) :
  update_eigen_probe comm mnorm lead wide high beta c m workers
    = Ok (eigen, ws) ->
  forall e' b, In e' eigen -> (b < lead)%nat ->
    mnorm (e' b (c - 1)%nat m) = 1.
Proof.
  intros H e' b Hin Hb.
  destruct (update_eigen_probe_Ok_inv workers eigen ws H)
    as (u & dm & rs & Hd & -> & _).
  apply in_map_iff in Hin. destruct Hin as (r & <- & Hr).
  destruct (In_nth_error _ _ Hr) as (k & Hk).
  assert (Hw : exists w, _get_d mnorm lead wide high beta c m w u = Ok r).
  { clear -Hd Hk. revert k Hk.
    induction Hd as [|w r' l rs' Hp Hd IH]; intros k Hk.
    - destruct k; discriminate.
    - destruct k as [|k]; cbn in Hk.
      + injection Hk as ->. eauto.
      + eauto. }
  destruct Hw as (w & Hgd).
  destruct (get_d_Ok_inv w u r Hgd) as [Hfin ->].
  destruct (Hfin b Hb) as (_ & _ & Hmoved).
  set (mv := moved_mode mnorm beta c m w u b) in *.
  assert (Hpos : 0 < mnorm mv).
  { destruct (mnorm_nonneg mv) as [Hlt | Heq]; [exact Hlt|].
    now elim Hmoved. }
  rewrite (mnorm_pixels _ (fun i j => Cdiv_real (mv i j) (mnorm mv))).
  - rewrite mnorm_div by exact Hpos. now field.
  - intros i j _ _. rewrite !Nat.eqb_refl. reflexivity.
Qed.

(** X24: when the workers hold the same eigen probes, the eigen probes
    that a returning call of [update_eigen_probe] gives back are again
    the same for all workers: every worker applies the one broadcast
    update. *)
Theorem update_eigen_probe_keeps_replicas (workers : list worker)
    (eigen : list eigen_array)
    (ws : list (nat -> nat -> nat -> nat -> R)) :
  update_eigen_probe comm mnorm lead wide high beta c m workers
    = Ok (eigen, ws) ->
  (forall w1 w2, In w1 workers -> In w2 workers ->
     forall b e s i j,
       eigen_probe w1 b e s i j = eigen_probe w2 b e s i j) ->
  forall e1 e2, In e1 eigen -> In e2 eigen ->
    forall b e s i j, (i < wide)%nat -> (j < high)%nat ->
      e1 b e s i j = e2 b e s i j.
Proof.
  intros H Hsame e1 e2 H1 H2 b e s i j Hi Hj.
  destruct (update_eigen_probe_Ok_inv workers eigen ws H)
    as (u & dm & rs & Hd & -> & _).
  assert (Hfrom : forall e', In e' (map d_eigen_probe rs) ->
            exists w, In w workers /\
              e' = (fun b e s i j =>
                      if ((e =? c - 1)%nat && (s =? m)%nat)%bool
                      then normed_mode mnorm beta c m w u b i j
                      else eigen_probe w b e s i j)).
  { clear -Hd. intros e' Hin. apply in_map_iff in Hin.
    destruct Hin as (r & <- & Hr).
    induction Hd as [|w r' l rs' Hp Hd IH]; [destruct Hr|].
    destruct Hr as [-> | Hr].
    - exists w. split; [now left|]. now destruct (get_d_Ok_inv w u r Hp).
    - destruct (IH Hr) as (w' & Hw' & E). exists w'. split; [now right|].
      exact E. }
  destruct (Hfrom e1 H1) as (w1 & Hw1 & ->).
  destruct (Hfrom e2 H2) as (w2 & Hw2 & ->).
  destruct ((e =? c - 1)%nat && (s =? m)%nat)%bool; [|now apply Hsame].
  assert (Hmv : forall i j,
            moved_mode mnorm beta c m w1 u b i j
            = moved_mode mnorm beta c m w2 u b i j).
  { intros i' j'. unfold moved_mode. now rewrite (Hsame w1 w2 Hw1 Hw2). }
  unfold normed_mode. rewrite Hmv. f_equal.
  apply mnorm_pixels. intros i' j' _ _. apply Hmv.
Qed.

End EigenProbeUpdateFrame.

Section EigenProbeUpdateExample.

Import Py Arr Probe ProbeSpec.
Open Scope R_scope.

Lemma mean_list_2 (x y : R) : mean_list [x; y] = (x + y) / 2.
Proof. unfold mean_list, sum. simpl. field. Qed.

(** Two workers that both hold [two_positions], without MPI, with
    beta = 0.1, c = 1 and m = 0 on images of one pixel: the call
    returns. *)
Lemma update_two_workers_returns : exists e1 e2 w1 w2,
    update_eigen_probe single_node (mnorm 1 1) 1 1 1 (1 / 10) 1 0
      [two_positions; two_positions] = Ok ([e1; e2], [w1; w2]).
Proof.
  unfold update_eigen_probe.
  cbn [bind mapM length use_mpi single_node].
  unfold _get_update. cbn [seq forallb]. rewrite norm_two_positions.
  rewrite (proj2 (Reqb_false 2 0)) by lra. cbn [andb bind].
  match goal with
  | |- context [reduce_mean_update [?u; _]] => set (u0 := u)
  end.
  cbn [bcast repeat combine mapM fst snd].
  set (upd := reduce_mean_update [u0; u0]).
  assert (Hu : forall b i j, uval upd b i j = (1 / 2, 0)).
  { intros b i j. unfold upd, reduce_mean_update, u0. cbn [uval map].
    rewrite !mean_list_2. unfold Cre, Cim. cbn [fst snd].
    rewrite !mean_n_2. unfold Cscale. cbn [fst snd].
    rewrite !mean_pixels_1_1, !norm_two_positions.
    unfold two_positions, C1, Cmul, Cconj, Cre. simpl. f_equal; field. }
  assert (Hfin : forall b, ufinite upd b = true).
  { intros b. unfold upd, reduce_mean_update, u0. cbn [ufinite forallb].
    rewrite norm_two_positions.
    now rewrite (proj2 (Reqb_false 2 0)) by lra. }
  assert (Hm1 : forall b, mnorm 1 1 (uval upd b) = 1 / 2).
  { intros b. rewrite mnorm_1_1, Hu. cbn [fst snd].
    apply sqrt_of_square; lra. }
  clearbody upd. clear u0.
  rewrite get_d_unfold.
  assert (Hmoved : forall b i j,
    moved_mode (mnorm 1 1) (1 / 10) 1 0 two_positions upd b i j = (11 / 10, 0)).
  { intros b i j. unfold moved_mode. rewrite Hu, Hm1.
    unfold Cadd, Cdiv_real, Cscale, two_positions, C1. simpl.
    f_equal; field. }
  assert (Hm2 : forall b,
    mnorm 1 1 (moved_mode (mnorm 1 1) (1 / 10) 1 0 two_positions upd b)
    = 11 / 10).
  { intros b. rewrite mnorm_1_1, Hmoved. cbn [fst snd].
    apply sqrt_of_square; lra. }
  assert (Hnormed : forall b i j,
    normed_mode (mnorm 1 1) (1 / 10) 1 0 two_positions upd b i j = C1).
  { intros b i j. unfold normed_mode. rewrite Hmoved, Hm2.
    unfold Cdiv_real, C1. simpl. f_equal; field. }
  cbn [seq forallb]. rewrite Hfin, Hm1, Hm2.
  rewrite (proj2 (Reqb_false (1 / 2) 0)) by lra.
  rewrite (proj2 (Reqb_false (11 / 10) 0)) by lra.
  cbn [andb negb assert_ bind map].
  match goal with
  | |- context [combine [?r; _] _] => set (r0 := r)
  end.
  assert (Hd : forall b p, d_d r0 b p = 1).
  { intros b p. unfold r0. cbn [d_d]. rewrite mean_pixels_1_1.
    rewrite !Nat.eqb_refl. cbn [andb]. rewrite Hnormed.
    unfold two_positions, C1, Cmul, Cabs. simpl.
    rewrite (sqrt_of_square _ 1); lra. }
  assert (Hdm : forall b,
            reduce_mean_d_mean [d_d_mean r0; d_d_mean r0] b = 1).
  { intros b. unfold reduce_mean_d_mean. cbn [map]. rewrite mean_list_2.
    unfold r0. cbn [d_d_mean]. rewrite mean_n_2.
    change (((d_d r0 b 0%nat + d_d r0 b 1%nat) / 2
             + (d_d r0 b 0%nat + d_d r0 b 1%nat) / 2) / 2 = 1).
    rewrite !Hd. field. }
  clearbody r0.
  cbn [combine mapM fst snd]. unfold _get_weights_mean.
  cbn [seq forallb posi two_positions].
  rewrite !Hd, !Hdm.
  rewrite (proj2 (Reqb_false (1 + / 10 * 1) 0)) by lra.
  cbn [andb negb assert_ bind].
  do 4 eexists. reflexivity.
Qed.
Lemma mnorm_1_1_pixels (f g : nat -> nat -> C) :
  (forall i j, (i < 1)%nat -> (j < 1)%nat -> f i j = g i j) ->
  mnorm 1 1 f = mnorm 1 1 g.
Proof. intros H. rewrite !mnorm_1_1, (H 0%nat 0%nat); auto. Qed.

Lemma mnorm_1_1_nonneg (f : nat -> nat -> C) : 0 <= mnorm 1 1 f.
Proof. unfold mnorm. apply sqrt_pos. Qed.

Lemma mnorm_1_1_div (f : nat -> nat -> C) (r : R) :
  0 < r -> mnorm 1 1 (fun i j => Cdiv_real (f i j) r) = mnorm 1 1 f / r.
Proof.
  intros Hr. rewrite !mnorm_1_1. unfold Cdiv_real. cbn [fst snd].
  destruct (f 0%nat 0%nat) as [x y]. cbn [fst snd].
  apply sqrt_of_square.
  - apply Rmult_le_pos; [apply sqrt_pos | left; now apply Rinv_0_lt_compat].
  - assert (Hs : sqrt (x * x + y * y) * sqrt (x * x + y * y) = x * x + y * y)
      by (apply sqrt_sqrt; nra).
    unfold Rdiv.
    replace (sqrt (x * x + y * y) * / r * (sqrt (x * x + y * y) * / r))
      with (sqrt (x * x + y * y) * sqrt (x * x + y * y) * (/ r * / r))
      by ring.
    rewrite Hs. field. lra.
Qed.

Lemma update_eigen_probe_frame_witness : exists e1 e2 w1 w2,
    update_eigen_probe single_node (mnorm 1 1) 1 1 1 (1 / 10) 1 0
      [two_positions; two_positions] = Ok ([e1; e2], [w1; w2]) /\
    forall b p s, w2 b p 0%nat s = weights two_positions b p 0%nat s.
Proof.
  destruct update_two_workers_returns as (e1 & e2 & w1 & w2 & H).
  exists e1, e2, w1, w2. split; [exact H|].
  destruct (update_eigen_probe_frame single_node (mnorm 1 1) 1 1 1 (1 / 10)
              1 0 [two_positions; two_positions] [e1; e2] [w1; w2] H)
    as (_ & _ & Hframe).
  destruct (Hframe 1%nat two_positions eq_refl)
    as (e' & w' & _ & Hw & _ & Hweights).
  injection Hw as <-.
  intros b p s. apply Hweights. intros E. discriminate E.
Defined.

Lemma update_eigen_probe_unit_norm_witness : exists e1 e2 w1 w2,
    update_eigen_probe single_node (mnorm 1 1) 1 1 1 (1 / 10) 1 0
      [two_positions; two_positions] = Ok ([e1; e2], [w1; w2]) /\
    mnorm 1 1 (e2 0%nat 0%nat 0%nat) = 1.
Proof.
  destruct update_two_workers_returns as (e1 & e2 & w1 & w2 & H).
  exists e1, e2, w1, w2. split; [exact H|].
  apply (update_eigen_probe_unit_norm single_node (mnorm 1 1) 1 1 1 (1 / 10)
           1 0 mnorm_1_1_pixels mnorm_1_1_nonneg mnorm_1_1_div
           [two_positions; two_positions] [e1; e2] [w1; w2] H e2 0%nat).
  - right. left. reflexivity.
  - lia.
Defined.

Lemma update_eigen_probe_keeps_replicas_witness : exists e1 e2 w1 w2,
    update_eigen_probe single_node (mnorm 1 1) 1 1 1 (1 / 10) 1 0
      [two_positions; two_positions] = Ok ([e1; e2], [w1; w2]) /\
    forall b e s, e1 b e s 0%nat 0%nat = e2 b e s 0%nat 0%nat.
Proof.
  destruct update_two_workers_returns as (e1 & e2 & w1 & w2 & H).
  exists e1, e2, w1, w2. split; [exact H|].
  intros b e s.
  apply (update_eigen_probe_keeps_replicas single_node (mnorm 1 1) 1 1 1
           (1 / 10) 1 0 mnorm_1_1_pixels [two_positions; two_positions]
           [e1; e2] [w1; w2] H).
  - intros x y [<- | [<- | []]] [<- | [<- | []]]; reflexivity.
  - left. reflexivity.
  - right. left. reflexivity.
  - lia.
  - lia.
Defined.

End EigenProbeUpdateExample.

Section EigenProbeUpdateZeroNorm.

Import Py Arr Probe ProbeSpec.
Open Scope R_scope.

Variable comm : Comm.
Variable mnorm : (nat -> nat -> C) -> R.
Variables lead wide high : nat.
Variable beta : R.
Variables c m : nat.

(** X25: without MPI, when the selected column of weights of some
    worker has norm zero at one leading index, while no worker has norm
    zero at all of them, [update_eigen_probe] leaves through the
    assertion that the eigen probe is finite: the division by the zero
    norm reaches every worker through the reduced update. *)
Theorem update_eigen_probe_zero_norm_assertion (workers : list worker)
    (w : worker) (b : nat) :
  use_mpi comm = false ->
  (forall w', In w' workers ->
     exists b', (b' < lead)%nat /\ norm_weights c m w' b' <> 0) ->
  In w workers -> (b < lead)%nat -> norm_weights c m w b = 0 ->
  update_eigen_probe comm mnorm lead wide high beta c m workers
    = Raise AssertionError.
Proof.
  intros Hmpi Hsome Hin Hb Hzero. unfold update_eigen_probe.
  destruct workers as [|w0 workers']; [destruct Hin|].
  set (workers := w0 :: workers') in *. cbn [bind].
  destruct (mapM_Ok_all (_get_update lead wide high c m) workers)
    as (us & Hus & Hlen).
  { intros x Hx. destruct (get_update_Ok_or_Raise lead wide high c m x)
      as [Hr | Hok]; [|exact Hok].
    apply get_update_Raise in Hr. destruct Hr as [_ Hall].
    destruct (Hsome x Hx) as (b' & Hb' & Hne). now elim Hne; apply Hall. }
  rewrite Hus, Hmpi. cbn [bind].
  set (u := reduce_mean_update us).
  assert (Hfin : ufinite u b = false).
  { unfold u, reduce_mean_update. cbn [ufinite].
    apply mapM_Ok_Forall2 in Hus.
    destruct (In_nth_error _ _ Hin) as (k & Hk).
    destruct (Forall2_nth_error _ _ _ k w Hus Hk) as (uw & Huw & Hget).
    destruct (forallb (fun u0 => ufinite u0 b) us) eqn:E; [|reflexivity].
    rewrite forallb_forall in E.
    specialize (E uw (nth_error_In _ _ Huw)).
    unfold _get_update in Hget.
    destruct (forallb _ (seq 0 lead)); [discriminate|].
    injection Hget as <-. cbn [ufinite] in E.
    rewrite Hzero, (proj2 (Reqb_true 0 0) eq_refl) in E. discriminate. }
  unfold bcast, workers. cbn [length repeat combine mapM fst snd].
  rewrite get_d_unfold.
  replace (forallb _ (seq 0 lead)) with false.
  - reflexivity.
  - symmetry.
    match goal with |- ?t = false => destruct t eqn:E end; [|reflexivity].
    rewrite forallb_forall in E.
    specialize (E b (proj2 (in_seq lead 0 b) ltac:(lia))).
    fold workers in E. fold u in E. rewrite Hfin in E. discriminate.
Qed.

End EigenProbeUpdateZeroNorm.

Lemma update_eigen_probe_zero_norm_assertion_witness :
  Probe.update_eigen_probe ProbeSpec.single_node (ProbeSpec.mnorm 1 1)
    2 1 1 (1 / 10) 1 0 [ProbeSpec.zero_at_second]
  = Py.Raise Py.AssertionError.
Proof.
  assert (Hn : forall b,
    Probe.norm_weights 1 0 ProbeSpec.zero_at_second b
    = if (b =? 0)%nat then 1%R else 0%R).
  { intros b. unfold Probe.norm_weights, Probe.sum_n, Arr.sum.
    cbn [seq map fold_right Probe.posi Probe.weights
         ProbeSpec.zero_at_second].
    destruct (b =? 0)%nat.
    - replace (1 * 1 + 0)%R with 1%R by ring. rewrite sqrt_1. ring.
    - replace (0 * 0 + 0)%R with 0%R by ring. rewrite sqrt_0. ring. }
  apply (update_eigen_probe_zero_norm_assertion ProbeSpec.single_node
           (ProbeSpec.mnorm 1 1) 2 1 1 (1 / 10)%R 1 0
           [ProbeSpec.zero_at_second] ProbeSpec.zero_at_second 1%nat).
  - reflexivity.
  - intros w' [<- | []]. exists 0%nat. split; [lia|].
    rewrite Hn. cbn. lra.
  - left. reflexivity.
  - lia.
  - rewrite Hn. reflexivity.
Defined.

(** ** ptycho/solvers/divided.py: iterations and the returned cost *)

Section DividedFurther.

Import Py.
Open Scope R_scope.

Variable array : Type.
Variable conjugate_gradient :
  Divided.array_module array -> array -> (array -> result R) ->
  (array -> result array) -> Z -> result (array * R).
Variable direction_dy :
  Divided.array_module array -> array -> array -> array -> array.
Variable op : Divided.operator array.

Lemma update_object_Ok_inv (nearplane probe scan psi : array) (num_iter : Z)
    (r : array * R) :
  Divided.update_object array direction_dy op nearplane probe scan psi
    num_iter = Ok r ->
  exists norm_probe f,
    Divided.update_object_loop array direction_dy op nearplane probe scan
      norm_probe (Z.to_nat num_iter) psi None = Ok (fst r) /\
    Divided.diffraction_fwd array op (fst r) scan probe = Ok f /\
    snd r = (Divided.norm_ravel array (Divided.xp array op) (Divided.sub array (Divided.xp array op) f nearplane)) ^ 2.
Proof.
  unfold Divided.update_object. intros H.
  destruct (Divided.diffraction_patch array op _ _ scan false) as [p|];
    [|discriminate H].
  cbn [bind] in H.
  destruct (Divided.update_object_loop array direction_dy op nearplane probe
              scan _ (Z.to_nat num_iter) psi None) as [psi'|] eqn:El;
    [|discriminate H].
  cbn [bind] in H.
  destruct (Divided.diffraction_fwd array op psi' scan probe) as [f|] eqn:Ef;
    [|discriminate H].
  cbn [bind] in H. injection H as <-. cbn [fst snd].
  eexists. exists f. repeat split; eassumption.
Qed.

Lemma update_probe_Ok_inv (nearplane probe scan psi : array) (num_iter : Z)
    (r : array * R) :
  Divided.update_probe array direction_dy op nearplane probe scan psi
    num_iter = Ok r ->
  exists obj_patches,
    Divided.diffraction_patch array op
      (Divided.zeros_patches array (Divided.xp array op) scan probe) psi scan true
      = Ok obj_patches /\
    fst r =
      Divided.update_probe_loop array direction_dy (Divided.xp array op) nearplane obj_patches
        (Divided.add_scalar array (Divided.xp array op)
           (Divided.sum_position array (Divided.xp array op)
              (Divided.square_abs array (Divided.xp array op) obj_patches)) Divided.eps)
        (Divided.diffraction_pad array op) (Divided.diffraction_end array op)
        (Z.to_nat num_iter) probe None /\
    snd r =
      (Divided.norm_ravel array (Divided.xp array op)
         (Divided.sub array (Divided.xp array op)
            (Divided.mul array (Divided.xp array op) (fst r) obj_patches)
            (Divided.crop array (Divided.xp array op) (Divided.diffraction_pad array op)
               (Divided.diffraction_end array op) nearplane))) ^ 2.
Proof.
  unfold Divided.update_probe. intros H.
  destruct (Divided.diffraction_patch array op _ psi scan true)
    as [obj_patches|]; [|discriminate H].
  cbn [bind] in H. injection H as <-. cbn [fst snd].
  exists obj_patches. repeat split.
Qed.

(** What a returning call of [divided] went through *)
Lemma divided_Ok_inv (data probe scan psi : array)
    (recover_psi recover_probe recover_positions : bool) (cg_iter : Z)
    (r : Divided.solution array) :
  Divided.divided array conjugate_gradient direction_dy op data probe scan
    psi recover_psi recover_probe recover_positions cg_iter = Ok r ->
  exists far0 cost0 nearplane pc qc,
    Divided.op_fwd array op psi scan probe = Ok far0 /\
    Divided.update_phase array conjugate_gradient op data far0 cg_iter
      = Ok (Divided.farplane array r, cost0) /\
    Divided.propagation_adj array op (Divided.farplane array r)
      = Ok nearplane /\
    (if recover_psi
     then Divided.update_object array direction_dy op nearplane probe scan
            psi cg_iter
     else Ok (psi, cost0)) = Ok pc /\
    (if recover_probe
     then Divided.update_probe array direction_dy op nearplane probe scan
            (fst pc) cg_iter
     else Ok (probe, snd pc)) = Ok qc /\
    Divided.psi array r = fst pc /\
    Divided.probe array r = fst qc /\
    Divided.cost array r = snd qc.
Proof.
  unfold Divided.divided. intros H.
  destruct (Divided.op_fwd array op psi scan probe) as [far0|];
    [|discriminate H].
  cbn [bind] in H.
  destruct (Divided.update_phase array conjugate_gradient op data far0
              cg_iter) as [[far cost0]|] eqn:Eph; [|discriminate H].
  cbn [bind fst snd] in H.
  destruct (Divided.propagation_adj array op far) as [nearplane|] eqn:Eadj;
    [|discriminate H].
  cbn [bind] in H.
  match type of H with
  | bind ?c _ = _ => destruct c as [pc|] eqn:Epc; [|discriminate H]
  end.
  cbn [bind] in H.
  match type of H with
  | bind ?c _ = _ => destruct c as [qc|] eqn:Eqc; [|discriminate H]
  end.
  cbn [bind] in H. injection H as <-. cbn.
  exists far0, cost0, nearplane, pc, qc. repeat split; assumption.
Qed.

(** X26: with [cg_iter <= 0] a returning call of [divided] gives back
    the object and the probe it was given, also when their recovery is
    requested: the update loops run [cg_iter] times. *)
Theorem divided_without_iterations (data probe scan psi : array)
    (recover_psi recover_probe recover_positions : bool) (cg_iter : Z)
    (r : Divided.solution array) :
  (cg_iter <= 0)%Z ->
  Divided.divided array conjugate_gradient direction_dy op data probe scan
    psi recover_psi recover_probe recover_positions cg_iter = Ok r ->
  Divided.psi array r = psi /\ Divided.probe array r = probe.
Proof.
  intros Hiter H.
  destruct (divided_Ok_inv _ _ _ _ _ _ _ _ _ H)
    as (far0 & cost0 & nearplane & pc & qc & _ & _ & _ & Hpc & Hqc
        & -> & -> & _).
  assert (Hz : Z.to_nat cg_iter = 0%nat) by lia.
  split.
  - destruct recover_psi; [|now injection Hpc as <-].
    destruct (update_object_Ok_inv _ _ _ _ _ _ Hpc) as (np & f & Hl & _).
    rewrite Hz in Hl. cbn in Hl. congruence.
  - destruct recover_probe; [|now injection Hqc as <-].
    destruct (update_probe_Ok_inv _ _ _ _ _ _ Hqc) as (ob & _ & Hp & _).
    rewrite Hz in Hp. exact Hp.
Qed.

(** X27: the cost that a returning call of [divided] reports is the
    cost of the last subproblem that was enabled, at the returned
    values and the near plane of the returned far plane: the probe
    subproblem when the probe is recovered, else the object subproblem
    when the object is recovered, else the cost that the conjugate
    gradient of the phase problem returned. *)
Theorem divided_cost_of_last_subproblem (data probe scan psi : array)
    (recover_psi recover_probe recover_positions : bool) (cg_iter : Z)
    (r : Divided.solution array) :
  Divided.divided array conjugate_gradient direction_dy op data probe scan
    psi recover_psi recover_probe recover_positions cg_iter = Ok r ->
  exists nearplane,
    Divided.propagation_adj array op (Divided.farplane array r)
      = Ok nearplane /\
    (recover_probe = true ->
     exists obj_patches,
       Divided.diffraction_patch array op
         (Divided.zeros_patches array (Divided.xp array op) scan probe) (Divided.psi array r)
         scan true = Ok obj_patches /\
       Divided.cost array r =
       (Divided.norm_ravel array (Divided.xp array op)
          (Divided.sub array (Divided.xp array op)
             (Divided.mul array (Divided.xp array op) (Divided.probe array r) obj_patches)
             (Divided.crop array (Divided.xp array op) (Divided.diffraction_pad array op)
                (Divided.diffraction_end array op) nearplane))) ^ 2) /\
    (recover_probe = false -> recover_psi = true ->
     exists f,
       Divided.diffraction_fwd array op (Divided.psi array r) scan probe
         = Ok f /\
       Divided.cost array r =
       (Divided.norm_ravel array (Divided.xp array op) (Divided.sub array (Divided.xp array op) f nearplane)) ^ 2) /\
    (recover_probe = false -> recover_psi = false ->
     exists far0,
       Divided.op_fwd array op psi scan probe = Ok far0 /\
       Divided.update_phase array conjugate_gradient op data far0 cg_iter
         = Ok (Divided.farplane array r, Divided.cost array r)).
Proof.
  intros H.
  destruct (divided_Ok_inv _ _ _ _ _ _ _ _ _ H)
    as (far0 & cost0 & nearplane & pc & qc & Hfwd & Hph & Hadj & Hpc & Hqc
        & Hpsi & Hprobe & Hcost).
  exists nearplane. split; [exact Hadj|].
  rewrite Hpsi, Hprobe, Hcost. split; [|split].
  - intros ->.
    destruct (update_probe_Ok_inv _ _ _ _ _ _ Hqc) as (ob & Hob & _ & Hc).
    exists ob. split; assumption.
  - intros -> ->. injection Hqc as <-. cbn [snd].
    destruct (update_object_Ok_inv _ _ _ _ _ _ Hpc) as (np & f & _ & Hf & Hc).
    exists f. split; assumption.
  - intros -> ->. injection Hqc as <-. injection Hpc as <-. cbn [snd].
    exists far0. split; assumption.
Qed.

End DividedFurther.

Lemma divided_without_iterations_witness :
  exists r,
    Divided.divided Z Examples.no_step (fun _ _ g _ => g)
      Examples.integer_operator 5%Z 1%Z 2%Z 3%Z true true false 0%Z
    = Py.Ok r /\
    Divided.psi Z r = 3%Z /\ Divided.probe Z r = 1%Z.
Proof.
  assert (E : exists r,
    Divided.divided Z Examples.no_step (fun _ _ g _ => g)
      Examples.integer_operator 5%Z 1%Z 2%Z 3%Z true true false 0%Z
    = Py.Ok r) by (eexists; reflexivity).
  destruct E as [r E]. exists r. split; [exact E|].
  apply (divided_without_iterations Z Examples.no_step (fun _ _ g _ => g)
           Examples.integer_operator 5%Z 1%Z 2%Z 3%Z true true false 0%Z r).
  - lia.
  - exact E.
Defined.

Lemma divided_cost_of_last_subproblem_witness :
  exists r nearplane,
    Divided.divided Z Examples.no_step (fun _ _ g _ => g)
      Examples.integer_operator 5%Z 1%Z 2%Z 3%Z true true false 2%Z
    = Py.Ok r /\
    Divided.propagation_adj Z Examples.integer_operator
      (Divided.farplane Z r) = Py.Ok nearplane.
Proof.
  assert (E : exists r,
    Divided.divided Z Examples.no_step (fun _ _ g _ => g)
      Examples.integer_operator 5%Z 1%Z 2%Z 3%Z true true false 2%Z
    = Py.Ok r) by (eexists; reflexivity).
  destruct E as [r E]. exists r.
  destruct (divided_cost_of_last_subproblem Z Examples.no_step
              (fun _ _ g _ => g) Examples.integer_operator
              5%Z 1%Z 2%Z 3%Z true true false 2%Z r E)
    as (nearplane & Hadj & _).
  exists nearplane. split; assumption.
Defined.

(** ** ptycho/probe.py: the order of the modes of orthogonalize_eig *)

Module EigOrdering.

Import mathcomp.boot.boot mathcomp.order.order mathcomp.algebra.algebra.
Import mathcomp.field.algC.
Import GRing.Theory Num.Def Num.Theory.
Import Eig.
Local Open Scope ring_scope.

Section OrthogonalizeEig.

Variable C : numClosedFieldType.
Variables nmodes npixel : nat.
Variable eigh : 'M[C]_nmodes -> 'rV[C]_nmodes * 'M[C]_nmodes.
Variable empty : 'M[C]_nmodes.

Notation pairwise_dot := (pairwise_dot C nmodes npixel empty).
Notation orthogonalize_eig := (orthogonalize_eig C nmodes npixel eigh empty).
Notation lower_hermitian := (lower_hermitian C nmodes).
Notation gram := (gram C nmodes npixel).

(** X28: when [eigh] returns a unitary matrix of eigenvectors of the
    Hermitian matrix that it reads from the lower half of [A], the
    energy of mode [i] of the array that [orthogonalize_eig] returns,
    the sum of its squared magnitudes, is the eigenvalue at the
    position counted from the end; so, when [eigh] returns the
    eigenvalues in ascending order, the modes come out in descending
    order of energy. *)
Theorem orthogonalize_eig_descending_energies x :
  let w := (eigh (pairwise_dot x)).1 in
  let V := (eigh (pairwise_dot x)).2 in
  (map_mx conjC V)^T *m V = 1%:M ->
  lower_hermitian (pairwise_dot x) *m V = V *m diag_mx w ->
  (forall i,
     \sum_k ((orthogonalize_eig x) i k)^* * (orthogonalize_eig x) i k
     = w 0 (rev_ord i)) /\
  ((forall i j : 'I_nmodes, (i <= j)%N -> w 0 i <= w 0 j) ->
   forall i j : 'I_nmodes, (i <= j)%N ->
     \sum_k ((orthogonalize_eig x) j k)^* * (orthogonalize_eig x) j k
     <= \sum_k ((orthogonalize_eig x) i k)^* * (orthogonalize_eig x) i k).
Proof.
move=> w V Hunit Heig.
have HD : (map_mx conjC V)^T *m gram x *m V = diag_mx w.
  rewrite -(EigProperties.lower_hermitian_pairwise C nmodes npixel empty x).
  by rewrite -mulmxA Heig mulmxA Hunit mul1mx.
have Hg := EigProperties.gram_orthogonalize_eig C nmodes npixel eigh empty x.
rewrite -/V HD in Hg.
have Hen i :
    \sum_k ((orthogonalize_eig x) i k)^* * (orthogonalize_eig x) i k
    = w 0 (rev_ord i).
  have -> : \sum_k ((orthogonalize_eig x) i k)^* * (orthogonalize_eig x) i k
            = gram (orthogonalize_eig x) i i by rewrite mxE.
  by rewrite Hg !mxE eqxx mulr1n.
split=> [//|Hasc i j le_ij].
rewrite !Hen; apply: Hasc => /=.
by rewrite leq_sub2l // ltnS.
Qed.

End OrthogonalizeEig.

(** Two modes of two pixels that are already orthogonal and of equal
    energy, over the algebraic numbers, with the identity as matrix of
    eigenvectors. *)
Lemma orthogonalize_eig_descending_energies_witness :
  let x : 'M[algC]_(2, 2) := 1%:M in
  let eigh := fun _ : 'M[algC]_2 =>
    (const_mx 1 : 'rV[algC]_2, 1%:M : 'M[algC]_2) in
  let y := Eig.orthogonalize_eig algC 2 2 eigh 0 x in
  is_true (\sum_k (y ord_max k)^* * y ord_max k
           <= \sum_k (y ord0 k)^* * y ord0 k).
Proof.
move=> x eigh y.
destruct (orthogonalize_eig_descending_energies algC 2 2 eigh 0 x)
  as [_ H].
- by rewrite /= map_mx1 trmx1 mulmx1.
- rewrite /= mulmx1 mul1mx EigProperties.lower_hermitian_pairwise.
  rewrite EigProperties.gram_mul.
  by rewrite map_mx1 trmx1 mulmx1 diag_const_mx.
- by apply: H => [i j _|//]; rewrite /= !mxE.
Defined.

End EigOrdering.

(** ** ptycho/probe.py: the initial weights *)

Section InitialWeights.

Import Py Arr Probe ProbeSpec.
Open Scope R_scope.

Lemma sum_map_bounds (f : nat -> R) (lo hi : R) (l : list nat) :
  (forall p, lo <= f p < hi) ->
  INR (length l) * lo <= sum (map f l) /\
  (l <> [] -> sum (map f l) < INR (length l) * hi).
Proof.
  intros H. induction l as [|x l [IHlo IHhi]].
  - unfold sum. simpl. split; [lra | congruence].
  - cbn [map length]. rewrite S_INR.
    assert (E : sum (f x :: map f l) = f x + sum (map f l)) by reflexivity.
    rewrite E. destruct (H x) as [Hl Hh]. split; [lra|]. intros _.
    destruct l as [|y l'].
    + unfold sum. simpl. lra.
    + assert (sum (map f (y :: l')) < INR (length (y :: l')) * hi)
        by (apply IHhi; congruence).
      lra.
Qed.

Lemma mean_n_bounds (n : nat) (f : nat -> R) (lo hi : R) :
  (0 < n)%nat -> (forall p, lo <= f p < hi) ->
  lo <= mean_n n f < hi.
Proof.
  intros Hn H. unfold mean_n, sum_n.
  destruct (sum_map_bounds f lo hi (seq 0 n) H) as [Hlo Hhi].
  rewrite length_seq in Hlo, Hhi.
  assert (Hne : seq 0 n <> []).
  { destruct n; [lia | discriminate]. }
  specialize (Hhi Hne).
  assert (HnR : 0 < INR n) by now apply lt_0_INR.
  split.
  - apply (Rmult_le_reg_r (INR n)); [exact HnR|].
    unfold Rdiv. rewrite Rmult_assoc, Rinv_l by lra. lra.
  - apply (Rmult_lt_reg_r (INR n)); [exact HnR|].
    unfold Rdiv. rewrite Rmult_assoc, Rinv_l by lra. lra.
Qed.

(** X29: for draws in [0, 1), at least one eigen probe requested and at
    least one position, [init_varying_probe] returns weights of shape
    (POSI, EIGEN, SHARED) whose zeroth row is 1 and whose other rows are
    smaller than 1e-6 in magnitude, of mean zero over the positions, and
    exactly zero for the shared probes that are not allowed to vary; it
    returns no eigen probes exactly when one eigen probe is requested. *)
Theorem init_varying_probe_small_weights
    (rand : nat -> nat -> nat -> nat -> R) (numpy_complex : eigen_array)
    (norm : (nat -> nat -> C) -> R) (lead posi nshared : nat)
    (num_eigen_probes probes_with_modes : Z) :
  (forall b p e s, 0 <= rand b p e s < 1) ->
  (1 <= num_eigen_probes)%Z ->
  (probes_with_modes <= Z.of_nat nshared)%Z ->
  (0 < posi)%nat ->
  exists eigen w,
    init_varying_probe rand numpy_complex norm lead posi nshared
      num_eigen_probes probes_with_modes = Ok (eigen, Some w) /\
    (wposi w, weigen w, wshared w)
      = (posi, Z.to_nat num_eigen_probes, nshared) /\
    (eigen = None <-> num_eigen_probes = 1%Z) /\
    (forall b p s, wval w b p 0%nat s = 1) /\
    (forall b p e s, (1 <= e)%nat -> Rabs (wval w b p e s) < / 10 ^ 6) /\
    (forall b e s, (1 <= e)%nat -> column_mean posi (wval w) b e s = 0) /\
    (forall b p e s, (1 <= e)%nat ->
       (Z.max probes_with_modes 0 <= Z.of_nat s)%Z -> wval w b p e s = 0).
Proof.
  intros Hrand Hnum Hmodes Hposi.
  assert (Hres : exists eigen,
    init_varying_probe rand numpy_complex norm lead posi nshared
      num_eigen_probes probes_with_modes
    = Ok (eigen,
          Some {| wlead := lead; wposi := posi;
                  weigen := Z.to_nat num_eigen_probes; wshared := nshared;
                  wval := fun b p e s =>
                    if ((1 <=? e)%nat
                        && (Z.max probes_with_modes 0 <=? Z.of_nat s)%Z)%bool
                    then 0
                    else if (e =? 0)%nat then 1
                    else / 10 ^ 6 * rand b p e s
                         - mean_n posi
                             (fun p' => / 10 ^ 6 * rand b p' e s) |})
    /\ (eigen = None <-> num_eigen_probes = 1%Z)).
  { unfold init_varying_probe.
    replace (Z.of_nat nshared <? Z.max probes_with_modes 0)%Z with false
      by (symmetry; apply Z.ltb_ge; lia).
    replace (num_eigen_probes <? 1)%Z with false
      by (symmetry; apply Z.ltb_ge; lia).
    destruct (num_eigen_probes =? 1)%Z eqn:E1.
    - exists None. split; [reflexivity|]. apply Z.eqb_eq in E1. tauto.
    - eexists (Some _). split; [reflexivity|]. apply Z.eqb_neq in E1.
      split; [discriminate | contradiction]. }
  destruct Hres as (eigen & Hres & Hnone).
  exists eigen. eexists. split; [exact Hres|]. cbn [wposi weigen wshared wval].
  split; [reflexivity|]. split; [exact Hnone|].
  assert (Hsmall : 0 < / 10 ^ 6).
  { apply Rinv_0_lt_compat. apply pow_lt. lra. }
  split; [|split; [|split]].
  - intros b p s. reflexivity.
  - intros b p e s He.
    replace (1 <=? e)%nat with true by (symmetry; apply Nat.leb_le; lia).
    replace (e =? 0)%nat with false by (symmetry; apply Nat.eqb_neq; lia).
    cbn [andb].
    destruct (Z.max probes_with_modes 0 <=? Z.of_nat s)%Z.
    + rewrite Rabs_R0. exact Hsmall.
    + assert (Hb : forall p', 0 <= / 10 ^ 6 * rand b p' e s < / 10 ^ 6).
      { intros p'. destruct (Hrand b p' e s). split; nra. }
      pose proof (mean_n_bounds posi _ 0 (/ 10 ^ 6) Hposi Hb) as Hm.
      specialize (Hb p). apply Rabs_def1; lra.
  - intros b e s He. unfold column_mean.
    replace (1 <=? e)%nat with true by (symmetry; apply Nat.leb_le; lia).
    replace (e =? 0)%nat with false by (symmetry; apply Nat.eqb_neq; lia).
    cbn [andb].
    destruct (Z.max probes_with_modes 0 <=? Z.of_nat s)%Z.
    + apply mean_n_zero.
    + now apply (mean_n_centered posi
                   (fun p' => / 10 ^ 6 * rand b p' e s)).
  - intros b p e s He Hs.
    replace (1 <=? e)%nat with true by (symmetry; apply Nat.leb_le; lia).
    replace (Z.max probes_with_modes 0 <=? Z.of_nat s)%Z with true
      by (symmetry; apply Z.leb_le; lia).
    reflexivity.
Qed.

Lemma init_varying_probe_small_weights_witness :
  exists eigen w,
    init_varying_probe (fun _ p _ _ => if (p =? 0)%nat then 0 else 1 / 2)
      (fun _ _ _ _ _ => C1)
      (fun _ => 1) 1 2 1 2 1 = Ok (eigen, Some w) /\
    forall b p e s, (1 <= e)%nat -> Rabs (wval w b p e s) < / 10 ^ 6.
Proof.
  destruct (init_varying_probe_small_weights
              (fun _ p _ _ => if (p =? 0)%nat then 0 else 1 / 2)
              (fun _ _ _ _ _ => C1) (fun _ => 1) 1 2 1 2 1)
    as (eigen & w & Hres & _ & _ & _ & Hsmall & _).
  - intros b p e s. destruct (p =? 0)%nat; lra.
  - lia.
  - lia.
  - lia.
  - exists eigen, w. split; [|exact Hsmall]. exact Hres.
Defined.

End InitialWeights.

(** ** objective.py: where the Poisson objective is smallest *)

Section PoissonMinimum.

Import Arr.
Open Scope R_scope.










End PoissonMinimum.
